(** * A shallow embedding of the product-transfer engine (client and server)

    The development follows the C sources file by file.  The first half
    holds the definitions:
    - [Share]       : share.h / share.c  (framing codec, [my_rename]);
    - [ServRecv]    : serv_recv.c        ([recv_msghdr]);
    - [Client]      : client.h           (options, product table);
    - [ClientQueue] : client_queue.c     ([compare_items], [get_next_file]);
    - [ClientSend]  : client_send.c      (product lists, [poll_and_send]);
    - [Scenarios]   : concrete environments and runs;
    - [ShareAck]    : share.c            ([format_ack], [parse_ack],
                                          [get_ccb_len]);
    - [ClientAck]   : client_send.c      ([recv_ack] with its receive loop);
    - [ServService] : serv_recv.c        ([service]);
    - [ServBlock]   : serv_recv.c        ([recv_block], [write_block]);
    - [ClientSeqno] : client_send.c      (what a step does to [ProdSeqno]);
    - [ServStore]   : serv_store.c, serv_main.c  ([get_out_path], option -D);
    - [ServDispatch]: serv_dispatch.c    (the table of workers);
    - [ClientPoll]  : client_queue.c     (what a poll takes);
    - [Wmo]         : wmo.c              ([parse_wmo], [debug_buf]);
    - [ClientFinish]: client_queue.c     ([finish_send], [abort_send]);
    - [ShareCopy]   : share.c            ([my_copy]);
    - [ServOpen]    : serv_main.c, serv_recv.c  (the flags of the output
                                          file);
    - [ServProd]    : serv_recv.c        ([recv_prod]);
    - [Samples]     : more concrete inputs.
    The second half holds the facts proved about them, one module of
    facts per source file.

    Conventions.  C integers are [Z]; [int] is 32 bits, [long], [time_t]
    and [size_t] are 64 bits (LP64).  A [char] is an [ascii]; a buffer is a
    [list ascii].  A pointer to a [prod_info_t] always points into the
    pool [prod_tbl.prod], so it is an index, and [NULL] is [None].

    System calls and library calls are answered by an environment that is
    an argument of the function that makes them; the statements hold for
    every environment.  Logging is left out. *)

From Stdlib Require Import ZArith List Ascii Bool Lia Permutation Sorted.
From stdpp Require Import base list.
Import ListNotations.
Local Open Scope char_scope.
Local Open Scope Z_scope.

(* ===================================================================== *)
(** * share.h, share.c                                                    *)
(* ===================================================================== *)

Module Share.

Definition ACK_MSG_LEN : Z := 6.
Definition MSG_HDR_LEN : Z := 10.
Definition PROD_HDR_LEN : Z := 22.
Definition MAX_PROD_SIZE : Z := 99999999 - PROD_HDR_LEN.
Definition MAX_PROD_SEQNO : Z := 99999.

(** Values of the [state] field. *)
Definition STATE_FREE : ascii := " ".
Definition STATE_QUEUED : ascii := "Q".
Definition STATE_SENT : ascii := "S".
Definition STATE_ACKED : ascii := "A".
Definition STATE_NACKED : ascii := "N".
Definition STATE_RETRY : ascii := "R".
Definition STATE_FAILED : ascii := "F".
Definition STATE_DEAD : ascii := "X".

(** Values of the code field of an ack message. *)
Definition ACK_OK : ascii := "K".
Definition ACK_FAIL : ascii := "F".
Definition ACK_RETRY : ascii := "R".

(** Bits of the global [Flags]. *)
Definition SHUTDOWN_FLAG : Z := 1.
Definition DISCONNECT_FLAG : Z := 2.
Definition NOPEER_FLAG : Z := 4.

(** [prod_info_t].  The five WMO heading strings are only parsed for the
    log lines and are left out. *)
Record prod_info_t : Type := mk_prod {
  seqno : Z;                 (* int *)
  filename : list ascii;     (* char[FILENAME_LEN] *)
  size : Z;                  (* size_t *)
  ccb_len : Z;               (* size_t *)
  state : ascii;             (* char *)
  send_count : Z;            (* int *)
  queue_time : Z;            (* time_t *)
  send_time : Z;             (* time_t *)
  priority : Z;              (* int *)
  p_next : option nat        (* struct prod_info_struct * *)
}.

Definition set_seqno (v : Z) (p : prod_info_t) : prod_info_t :=
  mk_prod v (filename p) (size p) (ccb_len p) (state p) (send_count p)
          (queue_time p) (send_time p) (priority p) (p_next p).
Definition set_filename (v : list ascii) (p : prod_info_t) : prod_info_t :=
  mk_prod (seqno p) v (size p) (ccb_len p) (state p) (send_count p)
          (queue_time p) (send_time p) (priority p) (p_next p).
Definition set_size (v : Z) (p : prod_info_t) : prod_info_t :=
  mk_prod (seqno p) (filename p) v (ccb_len p) (state p) (send_count p)
          (queue_time p) (send_time p) (priority p) (p_next p).
Definition set_ccb_len (v : Z) (p : prod_info_t) : prod_info_t :=
  mk_prod (seqno p) (filename p) (size p) v (state p) (send_count p)
          (queue_time p) (send_time p) (priority p) (p_next p).
Definition set_state (v : ascii) (p : prod_info_t) : prod_info_t :=
  mk_prod (seqno p) (filename p) (size p) (ccb_len p) v (send_count p)
          (queue_time p) (send_time p) (priority p) (p_next p).
Definition set_send_count (v : Z) (p : prod_info_t) : prod_info_t :=
  mk_prod (seqno p) (filename p) (size p) (ccb_len p) (state p) v
          (queue_time p) (send_time p) (priority p) (p_next p).
Definition set_queue_time (v : Z) (p : prod_info_t) : prod_info_t :=
  mk_prod (seqno p) (filename p) (size p) (ccb_len p) (state p) (send_count p)
          v (send_time p) (priority p) (p_next p).
Definition set_send_time (v : Z) (p : prod_info_t) : prod_info_t :=
  mk_prod (seqno p) (filename p) (size p) (ccb_len p) (state p) (send_count p)
          (queue_time p) v (priority p) (p_next p).
Definition set_p_next (v : option nat) (p : prod_info_t) : prod_info_t :=
  mk_prod (seqno p) (filename p) (size p) (ccb_len p) (state p) (send_count p)
          (queue_time p) (send_time p) (priority p) v.

(** [memset(p, 0, sizeof *p)]. *)
Definition zero_prod : prod_info_t :=
  mk_prod 0 [] 0 0 "000" 0 0 0 0 None.

(** Conversion of a C [int] expression to [size_t]. *)
Definition to_size_t (v : Z) : Z := v mod 2 ^ 64.

(** ** The pieces of printf and scanf the two header routines use *)

Definition isspace (c : ascii) : bool :=
  let n := N_of_ascii c in
  ((n =? 32) || ((9 <=? n) && (n <=? 13)))%N.

Definition isdigit (c : ascii) : bool :=
  let n := N_of_ascii c in ((48 <=? n) && (n <=? 57))%N.

Definition digit_val (c : ascii) : Z := Z.of_N (N_of_ascii c) - 48.

Definition digit_char (d : Z) : ascii := ascii_of_N (Z.to_N (48 + d)).

(** The decimal digits of [n >= 0], most significant first, no padding. *)
Fixpoint decimal_fuel (fuel : nat) (n : Z) : list ascii :=
  match fuel with
  | O => []
  | S f => (if n / 10 =? 0 then [] else decimal_fuel f (n / 10))
             ++ [digit_char (n mod 10)]
  end.

Definition decimal (n : Z) : list ascii :=
  decimal_fuel (S (Z.to_nat (Z.log2 n))) n.

(** The conversion [%.<prec>d] (and [%.<prec>ld]): a minus sign for a
    negative value, then at least [prec] digits, zeros added on the left. *)
Definition fmt_d (prec : nat) (v : Z) : list ascii :=
  let ds := decimal (Z.abs v) in
  (if v <? 0 then ["-"] else [])
    ++ repeat "0" (prec - length ds) ++ ds.

(** A C string stops at its first NUL. *)
Fixpoint c_str (s : list ascii) : list ascii :=
  match s with
  | [] => []
  | c :: r => if Ascii.eqb c "000" then [] else c :: c_str r
  end.

Fixpoint skip_space (s : list ascii) : list ascii :=
  match s with
  | c :: r => if isspace c then skip_space r else s
  | [] => []
  end.

(** At most [width] digits, accumulated in base ten. *)
Fixpoint scan_digits (width : nat) (acc : Z) (s : list ascii)
  : Z * list ascii :=
  match width, s with
  | S w, c :: r =>
      if isdigit c then scan_digits w (10 * acc + digit_val c) r else (acc, s)
  | _, _ => (acc, s)
  end.

(** The digits of a [%<width>d] item once white space and sign are gone:
    at least one digit is needed. *)
Definition scan_unsigned (width : nat) (s : list ascii)
  : option (Z * list ascii) :=
  match width, s with
  | S _, c :: _ => if isdigit c then Some (scan_digits width 0 s) else None
  | _, _ => None
  end.

(** The conversion [%<width>d]: leading white space is skipped, a sign
    counts in the width. *)
Definition scan_d (width : nat) (s : list ascii) : option (Z * list ascii) :=
  match width, skip_space s with
  | S w, "-" :: r =>
      match scan_unsigned w r with
      | Some (v, r') => Some (- v, r')
      | None => None
      end
  | S w, "+" :: r => scan_unsigned w r
  | _, s' => scan_unsigned width s'
  end.

Fixpoint scan_nonspace (width : nat) (s : list ascii)
  : list ascii * list ascii :=
  match width, s with
  | S w, c :: r =>
      if isspace c then ([], s)
      else let '(t, r') := scan_nonspace w r in (c :: t, r')
  | _, _ => ([], s)
  end.

(** The conversion [%<width>s]. *)
Definition scan_s (width : nat) (s : list ascii)
  : option (list ascii * list ascii) :=
  match scan_nonspace width (skip_space s) with
  | ([], _) => None
  | (t, r) => Some (t, r)
  end.

(** What [sscanf(scanbuf, "%8d%2s\001\r\r\n%5d%10ld\r\r\n", ...)] returns
    and stores: the count (or EOF = -1), and the values assigned to
    [msg_size], [seqno] and [queue_time]. *)
Record scan_hdr : Type := mk_scan {
  sc_count : Z;
  sc_msg_size : option Z;
  sc_seqno : option Z;
  sc_queue_time : option Z
}.

Definition sscanf_msghdr (s : list ascii) : scan_hdr :=
  match scan_d 8 s with
  | None =>
      mk_scan (match skip_space s with [] => -1 | _ => 0 end) None None None
  | Some (msg_size, s1) =>
      match scan_s 2 s1 with
      | None => mk_scan 1 (Some msg_size) None None
      | Some (_, s2) =>
          match s2 with
          | "001" :: s3 =>
              (* the three white-space characters of the format *)
              match scan_d 5 (skip_space s3) with
              | None => mk_scan 2 (Some msg_size) None None
              | Some (sq, s4) =>
                  match scan_d 10 s4 with
                  | None => mk_scan 3 (Some msg_size) (Some sq) None
                  | Some (qt, _) =>
                      mk_scan 4 (Some msg_size) (Some sq) (Some qt)
                  end
              end
          | _ => mk_scan 2 (Some msg_size) None None
          end
      end
  end.

(** ** format_msghdr *)

(** [sprintf(scratchbuf, "%.8dBI\001\r\r\n%.5d%.10ld\r\r\n", ...)]. *)
Definition sprintf_msghdr (msg_size sq qt : Z) : list ascii :=
  fmt_d 8 msg_size ++ ["B"; "I"; "001"; "013"; "013"; "010"]
    ++ fmt_d 5 sq ++ fmt_d 10 qt ++ ["013"; "013"; "010"].

(** Returns the return value and the caller's buffer afterwards. *)
Definition format_msghdr (buf : list ascii) (p_prod : prod_info_t)
  : Z * list ascii :=
  if (size p_prod <=? 0) || (size p_prod >? MAX_PROD_SIZE) then (-1, buf)
  else if (seqno p_prod <? 0) || (seqno p_prod >? MAX_PROD_SEQNO)
  then (-1, buf)
  else
    let msg_size := PROD_HDR_LEN + size p_prod in
    let scratchbuf :=
      sprintf_msghdr msg_size (seqno p_prod) (queue_time p_prod) in
    if negb (Z.of_nat (length scratchbuf) =? MSG_HDR_LEN + PROD_HDR_LEN)
    then (-1, buf)
    else (MSG_HDR_LEN + PROD_HDR_LEN,
          scratchbuf ++ drop (Z.to_nat (MSG_HDR_LEN + PROD_HDR_LEN)) buf).

(** ** parse_msghdr *)

Definition assign {A} (o : option A) (old : A) : A :=
  match o with Some v => v | None => old end.

(** Returns the return value and [*p_prod] afterwards. *)
Definition parse_msghdr (buf : list ascii) (buflen : Z)
  (p_prod : prod_info_t) : Z * prod_info_t :=
  if buflen <? MSG_HDR_LEN + PROD_HDR_LEN then (-1, p_prod)
  else
    let scanbuf := c_str (take (Z.to_nat (MSG_HDR_LEN + PROD_HDR_LEN)) buf) in
    let r := sscanf_msghdr scanbuf in
    let p1 := set_queue_time (assign (sc_queue_time r) (queue_time p_prod))
                (set_seqno (assign (sc_seqno r) (seqno p_prod)) p_prod) in
    if negb (sc_count r =? 4) then (-1, p1)
    else
      let msg_size := assign (sc_msg_size r) 0 in
      (MSG_HDR_LEN + PROD_HDR_LEN,
       set_size (to_size_t (msg_size - PROD_HDR_LEN)) p1).

(** ** my_rename *)

(** The system calls [my_rename] makes, in the order it makes them. *)
Inductive sys_call : Type :=
| CallRename | CallCopy | CallUnlink | CallMkdir.

(** The file system as [my_rename] sees it.  [rename_errno n] is the
    outcome of the [n]-th call of [rename(source, target)]: [None] when it
    returns 0, [Some e] when it returns -1 with [errno = e].  [my_copy],
    [unlink] and [my_mkdir] are summarised by their return values. *)
Record rename_env : Type := mk_rename_env {
  rename_errno : nat -> option Z;
  my_copy_rc : Z;
  unlink_rc : Z;
  my_mkdir_rc : nat -> Z
}.

(** [strrchr(s, c)] as the position of the last [c] in [s]. *)
Fixpoint strrchr (s : list ascii) (c : ascii) : option nat :=
  match s with
  | [] => None
  | x :: r =>
      match strrchr r c with
      | Some k => Some (S k)
      | None => if Ascii.eqb x c then Some O else None
      end
  end.

Section MyRename.

(** The two [errno] values of <errno.h> the function tests for. *)
Variables ENOENT EXDEV : Z.

Variable env : rename_env.
Variable target : list ascii.

(** One unit of fuel is one evaluation of the [while] condition.  The
    result is the return value and the calls made. *)
Fixpoint my_rename_loop (fuel : nat) (n_rename n_mkdir : nat)
  (last_errno : Z) (calls : list sys_call) : option (Z * list sys_call) :=
  match fuel with
  | O => None
  | S f =>
      let calls := calls ++ [CallRename] in
      match rename_errno env n_rename with
      | None => Some (0, calls)
      | Some errno =>
          if errno =? last_errno then Some (-1, calls)
          else if errno =? EXDEV then
            if negb (my_copy_rc env =? 0) then Some (-1, calls ++ [CallCopy])
            else Some (0, calls ++ [CallCopy; CallUnlink])
          else if errno =? ENOENT then
            match strrchr target "/" with
            | Some (S _) =>
                if my_mkdir_rc env n_mkdir <? 0
                then Some (-1, calls ++ [CallMkdir])
                else my_rename_loop f (S n_rename) (S n_mkdir) errno
                       (calls ++ [CallMkdir])
            | _ => my_rename_loop f (S n_rename) n_mkdir errno calls
            end
          else Some (-1, calls)
      end
  end.

Definition my_rename (fuel : nat) : option (Z * list sys_call) :=
  my_rename_loop fuel 0 0 0 [].

End MyRename.

(** ** Vocabulary of the statements about the codec *)

(** A number as a field of exactly [k] decimal digits, zeros on the left. *)
Fixpoint fixed (k : nat) (n : Z) : list ascii :=
  match k with
  | O => []
  | S k' => fixed k' (n / 10) ++ [digit_char (n mod 10)]
  end.

(** The 10 bytes of the message header and the 22 bytes of the product
    header, field by field. *)
Definition msg_hdr (msg_size : Z) : list ascii :=
  fixed 8 msg_size ++ ["B"; "I"].

Definition prod_hdr (sq qt : Z) : list ascii :=
  ["001"; "013"; "013"; "010"] ++ fixed 5 sq ++ fixed 10 qt
    ++ ["013"; "013"; "010"].

(** The products [format_msghdr] accepts: the two tests it makes at its
    head, and a [queue_time] that prints as ten digits. *)
Definition in_bounds (p : prod_info_t) : Prop :=
  1 <= size p <= MAX_PROD_SIZE /\ 0 <= seqno p <= MAX_PROD_SEQNO
  /\ 0 <= queue_time p < 10 ^ 10.

(** One step of [scan_digits], and the sign of a [%d] item. *)
Definition scan_step (a : Z) (c : ascii) : Z := 10 * a + digit_val c.

Definition neg_result (o : option (Z * list ascii))
  : option (Z * list ascii) :=
  match o with
  | Some (v, r') => Some (- v, r')
  | None => None
  end.



End Share.

(* ===================================================================== *)
(** * serv_recv.c                                                         *)
(* ===================================================================== *)

Module ServRecv.
Import Share.

(** [recv] is what [recv_block(sock_fd, recvbuf, 32, 32)] returned and left
    in [recvbuf]; [seqno] is the sequence number [service] expects next.
    Returns the return value and [*p_prod] afterwards. *)
Definition recv_msghdr (recv : Z * list ascii) (seqno0 : Z)
  (p_prod : prod_info_t) : Z * prod_info_t :=
  let '(bytes_rcvd, recvbuf) := recv in
  if bytes_rcvd <=? 0 then (-1, p_prod)
  else
    let '(rc, p) := parse_msghdr recvbuf bytes_rcvd p_prod in
    if rc <? 0 then (-1, p)
    else if negb (seqno p =? seqno0) && negb (seqno p =? 0) then (-1, p)
    else if (size p <=? 0) || (size p >? MAX_PROD_SIZE) then (-1, p)
    else (0, p).


(** The header as read off the wire: the product size, the sequence number
    and the queue time [sscanf] yields from the first 32 bytes when all
    four conversions succeed ([None] otherwise). *)
Definition parsed (recvbuf : list ascii) : option (Z * Z * Z) :=
  let r := sscanf_msghdr (c_str (take 32 recvbuf)) in
  match sc_msg_size r, sc_seqno r, sc_queue_time r with
  | Some m, Some sq, Some qt =>
      if sc_count r =? 4 then Some (m - PROD_HDR_LEN, sq, qt) else None
  | _, _, _ => None
  end.

End ServRecv.

(* ===================================================================== *)
(** * client.h                                                            *)
(* ===================================================================== *)

Module Client.
Import Share.

Definition DISCARD_PORT : Z := 9.

(** The fields of the global [ClientOpt] the engine reads.  The host list,
    the log options and the shared-memory ids are left out. *)
Record client_opt : Type := mk_opt {
  port : Z;
  timeout : Z;
  poll_interval : Z;
  queue_ttl : Z;
  window_size : Z;
  max_retry : Z;
  indir_list : list (list ascii);
  wait_last_file : Z;
  strip_ccb : Z;
  refresh_interval : Z;
  max_queue_len : Z;
  connect_wmo : option (list ascii)
}.

Record prod_list_t : Type := mk_list {
  count : Z;
  p_head : option nat;
  p_tail : option nat
}.

Record prod_tbl_t : Type := mk_tbl {
  prod : list prod_info_t;
  free_list : prod_list_t;
  ack_list : prod_list_t;
  retr_list : prod_list_t
}.

End Client.

(* ===================================================================== *)
(** * client_queue.c                                                      *)
(* ===================================================================== *)

Module ClientQueue.
Import Share Client.

(** <sys/stat.h>: file type and permission bits. *)
Definition S_IFREG : Z := 32768.   (* 0100000 *)
Definition S_IFLNK : Z := 40960.   (* 0120000 *)
Definition PERM_MASK : Z := 292.   (* S_IRUSR|S_IRGRP|S_IROTH = 0444 *)
Definition A_FEW_SECONDS : Z := 3.

Definition compare_items (p_pi1 p_pi2 : prod_info_t) : Z :=
  if priority p_pi1 <? priority p_pi2 then 1
  else if priority p_pi1 >? priority p_pi2 then -1
  else if queue_time p_pi1 >? queue_time p_pi2 then 1
  else if queue_time p_pi1 <? queue_time p_pi2 then -1
  else 0.

(** [strcmp(a, b) == 0] on strings without NUL. *)
Fixpoint streq (a b : list ascii) : bool :=
  match a, b with
  | [], [] => true
  | x :: a', y :: b' => Ascii.eqb x y && streq a' b'
  | _, _ => false
  end.

(** The walk [for (p = head; p; p = p->p_next)] of [check_window]; the
    fuel bounds the number of nodes visited. *)
Fixpoint find_file (fuel : nat) (h : list prod_info_t) (p : option nat)
  (fname : list ascii) : bool :=
  match fuel, p with
  | S f, Some x =>
      match h !! x with
      | Some pr =>
          if streq (filename pr) fname then true
          else find_file f h (p_next pr) fname
      | None => false
      end
  | _, _ => false
  end.

Definition check_window (p_tbl : prod_tbl_t) (fname : list ascii) : Z :=
  let h := prod p_tbl in
  if find_file (length h) h (p_head (ack_list p_tbl)) fname then 1
  else if find_file (length h) h (p_head (retr_list p_tbl)) fname then 1
  else 0.

(** What [stat] stores. *)
Record stat_t : Type := mk_stat {
  st_mode : Z;
  st_size : Z;
  st_mtime : Z
}.

(** One entry returned by [readdir], with what the environment answers
    while it is processed: the result of [stat] ([None] when it fails),
    the value of [time(NULL)], and whether [realloc] succeeds. *)
Record dirent_in : Type := mk_dirent {
  d_name : list ascii;
  d_stat : option stat_t;
  d_now : Z;
  d_realloc_ok : bool
}.

(** The environment of one call: the clock before and after the poll and,
    for the directory at each index of [indir_list], its entries ([None]
    when [opendir] fails). *)
Record poll_env : Type := mk_poll_env {
  now_check : Z;
  listing : nat -> option (list dirent_in);
  now_polled : Z
}.

(** The function-static variables of [get_next_file]. *)
Record queue_static : Type := mk_queue {
  queue : list prod_info_t;
  qcnt : Z;
  qidx : Z;
  polltime : Z
}.

Definition queue_static_init : queue_static := mk_queue [] 0 0 0.

(** A poll either ends with the queue built, or [realloc] fails and
    [get_next_file] returns -1 with [queue = NULL] and [qcnt] as given. *)
Inductive poll_res : Type :=
| PollOk (q : list prod_info_t) (cnt : Z)
| PollFail (cnt : Z).

Definition starts_with_dot (name : list ascii) : bool :=
  match name with
  | c :: _ => Ascii.eqb c "."
  | [] => false
  end.

Section Poll.

Variable opts : client_opt.
Variable p_tbl : prod_tbl_t.

(** The [while ((p_dirent = readdir(p_dir)))] loop over one directory. *)
Fixpoint read_entries (poll_dir : list ascii) (prio : Z)
  (ents : list dirent_in) (q : list prod_info_t) (cnt : Z) : poll_res :=
  match ents with
  | [] => PollOk q cnt
  | e :: rest =>
      let skip := read_entries poll_dir prio rest q cnt in
      if starts_with_dot (d_name e) then skip
      else
        let pathbuf := poll_dir ++ ["/"] ++ d_name e in
        match d_stat e with
        | None => skip
        | Some st =>
            if Z.land (st_mode st) (Z.lor S_IFREG S_IFLNK) =? 0 then skip
            else if Z.land (st_mode st) PERM_MASK =? 0 then skip
            else if (st_size st =? 0)
                      && (st_mtime st >? d_now e - A_FEW_SECONDS) then skip
            else if negb (check_window p_tbl pathbuf =? 0) then skip
            else
              let cnt := cnt + 1 in
              if negb (d_realloc_ok e) then PollFail cnt
              else
                let item :=
                  mk_prod 0 pathbuf (st_size st) 0 "000" 0 (st_mtime st) 0
                          prio None in
                let q := q ++ [item] in
                if (max_queue_len opts >? 0) && (cnt >=? max_queue_len opts)
                then PollOk q cnt            (* break *)
                else read_entries poll_dir prio rest q cnt
        end
  end.

(** The [for (i_dir = 0; indir_list[i_dir]; i_dir++, priority--)] loop. *)
Fixpoint poll_dirs (env : poll_env) (dirs : list (list ascii)) (i_dir : nat)
  (prio : Z) (q : list prod_info_t) (cnt : Z) : poll_res :=
  match dirs with
  | [] => PollOk q cnt
  | poll_dir :: rest =>
      match listing env i_dir with
      | None => poll_dirs env rest (S i_dir) (prio - 1) q cnt
      | Some ents =>
          match read_entries poll_dir prio ents q cnt with
          | PollFail c => PollFail c
          | PollOk q' cnt' => poll_dirs env rest (S i_dir) (prio - 1) q' cnt'
          end
      end
  end.

(** [qsort] of the C library, applied to a comparison function. *)
Variable qsort :
  (prod_info_t -> prod_info_t -> Z) -> list prod_info_t -> list prod_info_t.

(** The refresh of the queue: the body of the first [if]. *)
Definition refresh (env : poll_env) (st : queue_static)
  : Z + queue_static :=
  let prio := Z.of_nat (length (indir_list opts)) - 1 in
  match poll_dirs env (indir_list opts) 0 prio [] 0 with
  | PollFail c => inl c
  | PollOk q cnt =>
      inr (mk_queue (if cnt >? 1 then qsort compare_items q else q)
                    cnt 0 (now_polled env))
  end.

(** Returns the return value, the static variables and [*p_prod]. *)
Definition get_next_file (env : poll_env) (st : queue_static)
  (p_prod : prod_info_t) : Z * queue_static * prod_info_t :=
  let need_poll :=
    (qcnt st - qidx st =? 0)
    || ((refresh_interval opts >? 0)
        && (now_check env >=? polltime st + refresh_interval opts)) in
  match (if need_poll then refresh env st else inr st) with
  | inl c => (-1, mk_queue [] c 0 (polltime st), p_prod)
  | inr st1 =>
      if qcnt st1 - qidx st1 >? 0 then
        match queue st1 !! Z.to_nat (qidx st1),
              queue st1 !! Z.to_nat (qcnt st1 - 1) with
        | Some item, Some last_item =>
            if (wait_last_file opts =? 0)
               || (queue_time item <? queue_time last_item)
            then (qcnt st1 - (qidx st1 + 1) + 1,
                  mk_queue (queue st1) (qcnt st1) (qidx st1 + 1)
                           (polltime st1),
                  item)
            else (0, st1, p_prod)
        | _, _ => (0, st1, p_prod)
        end
      else (0, st1, p_prod)
  end.

End Poll.


(** ** Vocabulary of the statements about the queue *)

(** Position in the queue: higher priority first, then older first. *)
Definition queue_le (x y : prod_info_t) : Prop :=
  priority x > priority y
  \/ (priority x = priority y /\ queue_time x <= queue_time y).

(** What ISO C promises of [qsort]: the array is rearranged so that no
    element compares greater than a later one.  The order of elements
    that compare equal is unspecified. *)
Definition qsort_contract
  (qsort : (prod_info_t -> prod_info_t -> Z) ->
           list prod_info_t -> list prod_info_t) : Prop :=
  forall l,
    Permutation l (qsort compare_items l)
    /\ StronglySorted (fun x y => compare_items x y <= 0)
                      (qsort compare_items l).





(** The [qsort] of the concrete runs: an insertion sort, which keeps the
    contract and leaves the elements that tie in the order they had. *)
Fixpoint insert_item (cmp : prod_info_t -> prod_info_t -> Z)
  (x : prod_info_t) (l : list prod_info_t) : list prod_info_t :=
  match l with
  | [] => [x]
  | y :: r => if cmp x y <=? 0 then x :: l else y :: insert_item cmp x r
  end.

Definition insertion_qsort (cmp : prod_info_t -> prod_info_t -> Z)
  (l : list prod_info_t) : list prod_info_t :=
  fold_right (insert_item cmp) [] l.

End ClientQueue.

(* ===================================================================== *)
(** * client_send.c                                                       *)
(* ===================================================================== *)

Module ClientSend.
Import Share Client ClientQueue.

Definition NEXT_SEQNO (x : Z) : Z := (x + 1) mod (MAX_PROD_SEQNO + 1).

(** ** The product lists *)

(** Returns the pool and [*p_list] afterwards. *)
Definition push_prod (h : list prod_info_t) (p_list : prod_list_t)
  (p_prod : nat) : list prod_info_t * prod_list_t :=
  let h1 :=
    match p_tail p_list with
    | Some t => alter (set_p_next (Some p_prod)) t h
    | None => h
    end in
  let hd :=
    match p_tail p_list with
    | Some _ => p_head p_list
    | None => Some p_prod
    end in
  (alter (set_p_next None) p_prod h1,
   mk_list (count p_list + 1) hd (Some p_prod)).

(** Returns the pool, [*p_list] and the popped product (or NULL). *)
Definition pop_prod (h : list prod_info_t) (p_list : prod_list_t)
  : list prod_info_t * prod_list_t * option nat :=
  match p_head p_list with
  | None => (h, p_list, None)
  | Some p =>
      let nxt := (h !! p) ≫= p_next in
      let tl := match nxt with None => None | Some _ => p_tail p_list end in
      (alter (set_p_next None) p h, mk_list (count p_list - 1) nxt tl,
       Some p)
  end.

(** Which of the three lists of the table an operation works on. *)
Inductive which_list : Type := FreeList | AckList | RetrList.

#[global] Instance which_list_eq_dec : EqDecision which_list.
Proof. solve_decision. Defined.

Definition get_list (w : which_list) (t : prod_tbl_t) : prod_list_t :=
  match w with
  | FreeList => free_list t
  | AckList => ack_list t
  | RetrList => retr_list t
  end.

Definition set_list (w : which_list) (l : prod_list_t) (t : prod_tbl_t)
  : prod_tbl_t :=
  match w with
  | FreeList => mk_tbl (prod t) l (ack_list t) (retr_list t)
  | AckList => mk_tbl (prod t) (free_list t) l (retr_list t)
  | RetrList => mk_tbl (prod t) (free_list t) (ack_list t) l
  end.

Definition set_prod (h : list prod_info_t) (t : prod_tbl_t) : prod_tbl_t :=
  mk_tbl h (free_list t) (ack_list t) (retr_list t).

(** [push_prod(&tbl.<w>_list, &tbl.prod[p])]. *)
Definition tbl_push (w : which_list) (p : nat) (t : prod_tbl_t)
  : prod_tbl_t :=
  let '(h, l) := push_prod (prod t) (get_list w t) p in
  set_list w l (set_prod h t).

(** [pop_prod(&tbl.<w>_list)]. *)
Definition tbl_pop (w : which_list) (t : prod_tbl_t)
  : prod_tbl_t * option nat :=
  let '(h, l, r) := pop_prod (prod t) (get_list w t) in
  (set_list w l (set_prod h t), r).

(** A store through a pointer into the pool, and a load. *)
Definition upd (p : nat) (f : prod_info_t -> prod_info_t) (t : prod_tbl_t)
  : prod_tbl_t :=
  set_prod (alter f p (prod t)) t.

Definition slot (t : prod_tbl_t) (p : nat) : prod_info_t :=
  default zero_prod (prod t !! p).

Definition rebuild_slot (t : prod_tbl_t) (i : nat) : prod_tbl_t :=
  let st := state (slot t i) in
  let t1 := upd i (set_p_next None) t in
  if Ascii.eqb st STATE_QUEUED || Ascii.eqb st STATE_RETRY
  then tbl_push RetrList i t1
  else if Ascii.eqb st STATE_SENT then tbl_push AckList i t1
  else tbl_push FreeList i t1.

Definition empty_list : prod_list_t := mk_list 0 None None.

Definition rebuild_lists (opts : client_opt) (t : prod_tbl_t) : prod_tbl_t :=
  fold_left rebuild_slot (seq 0 (Z.to_nat (window_size opts)))
            (mk_tbl (prod t) empty_list empty_list empty_list).

(** The nodes reached from [p] by following [p_next], at most [fuel] of
    them: the content of a list as the program walks it. *)
Fixpoint walk (fuel : nat) (h : list prod_info_t) (p : option nat)
  : list nat :=
  match fuel, p with
  | S f, Some x => x :: walk f h ((h !! x) ≫= p_next)
  | _, _ => []
  end.

Definition list_content (w : which_list) (t : prod_tbl_t) : list nat :=
  walk (length (prod t)) (prod t) (p_head (get_list w t)).

(** ** The environment of the send loop *)

(** How the transfer of the blocks after the header ends in [send_prod]. *)
Inductive rest_outcome : Type :=
| RestDone                                   (* every block read and sent *)
| RestReadFail                               (* a later read fails or the file changed size *)
| RestSendFail (send_error sent_some : bool) (* [send] fails or is short *).

Inductive recv_outcome : Type :=
| RecvErr (fl : Z)                 (* [recv] or [parse_ack] fails; flags set *)
| RecvMsg (sq : Z) (code : ascii)  (* an ack message, parsed *).

(** What the outside world answers during one step of the loop. *)
Record env : Type := mk_env {
  e_signals : Z;             (* flag bits set by the signal handlers *)
  e_now : Z;                 (* time(NULL) *)
  e_connect : Z;             (* connect_to_server *)
  e_conn_msg : list ascii * option Z;
                             (* mkstemp name; bytes written, None on failure *)
  e_poll : poll_env;         (* get_next_file *)
  e_open : bool;             (* open of the product file *)
  e_first_read : option Z;   (* first read: None on failure, else the CCB length found *)
  e_rest : rest_outcome;
  e_select : Z;              (* select in check_for_ack: 1, 0 or -1 *)
  e_recv : recv_outcome;
  e_rename : option (list ascii)
                             (* my_rename to the sent or fail directory: new path *)
}.

(** Points of the loop body between which one step runs. *)
Inductive pc_t : Type :=
| AtTop | AtConnect | AtRequeue | AtAcquire | AtTTL | AtSend | AtAcks
| AtSleep | AtExit.

(** What the loop did, for the statements about it. *)
Inductive event : Type :=
| EvRequeue (p : nat)
| EvAcquireRetr (p : nat)
| EvPoll (rc : Z)
| EvAcquireNew (p : nat)
| EvSend (p : nat) (rc : Z)
| EvAck (p : nat) (code : ascii)
| EvFinish (p : nat)
| EvAbort (p : nat)
| EvRetry (p : nat).

(** The variables of [poll_and_send], the globals it shares with its
    helpers, and the statics of [get_next_file]. *)
Record loop_state : Type := mk_state {
  pc : pc_t;
  sock_fd : Z;
  prod_tbl : prod_tbl_t;
  p_prod : option nat;
  p_connect : option nat;
  i : Z;
  ack_ready : Z;
  connect_failures : Z;
  input_failures : Z;
  queue_len : Z;
  Flags : Z;
  ProdSeqno : Z;
  qstat : queue_static;
  trace : list event
}.

Definition with_pc (v : pc_t) (s : loop_state) : loop_state :=
  mk_state v (sock_fd s) (prod_tbl s) (p_prod s) (p_connect s) (i s)
    (ack_ready s) (connect_failures s) (input_failures s) (queue_len s)
    (Flags s) (ProdSeqno s) (qstat s) (trace s).
Definition with_sock_fd (v : Z) (s : loop_state) : loop_state :=
  mk_state (pc s) v (prod_tbl s) (p_prod s) (p_connect s) (i s)
    (ack_ready s) (connect_failures s) (input_failures s) (queue_len s)
    (Flags s) (ProdSeqno s) (qstat s) (trace s).
Definition with_tbl (v : prod_tbl_t) (s : loop_state) : loop_state :=
  mk_state (pc s) (sock_fd s) v (p_prod s) (p_connect s) (i s)
    (ack_ready s) (connect_failures s) (input_failures s) (queue_len s)
    (Flags s) (ProdSeqno s) (qstat s) (trace s).
Definition with_p_prod (v : option nat) (s : loop_state) : loop_state :=
  mk_state (pc s) (sock_fd s) (prod_tbl s) v (p_connect s) (i s)
    (ack_ready s) (connect_failures s) (input_failures s) (queue_len s)
    (Flags s) (ProdSeqno s) (qstat s) (trace s).
Definition with_p_connect (v : option nat) (s : loop_state) : loop_state :=
  mk_state (pc s) (sock_fd s) (prod_tbl s) (p_prod s) v (i s)
    (ack_ready s) (connect_failures s) (input_failures s) (queue_len s)
    (Flags s) (ProdSeqno s) (qstat s) (trace s).
Definition with_i (v : Z) (s : loop_state) : loop_state :=
  mk_state (pc s) (sock_fd s) (prod_tbl s) (p_prod s) (p_connect s) v
    (ack_ready s) (connect_failures s) (input_failures s) (queue_len s)
    (Flags s) (ProdSeqno s) (qstat s) (trace s).
Definition with_ack_ready (v : Z) (s : loop_state) : loop_state :=
  mk_state (pc s) (sock_fd s) (prod_tbl s) (p_prod s) (p_connect s) (i s)
    v (connect_failures s) (input_failures s) (queue_len s)
    (Flags s) (ProdSeqno s) (qstat s) (trace s).
Definition with_connect_failures (v : Z) (s : loop_state) : loop_state :=
  mk_state (pc s) (sock_fd s) (prod_tbl s) (p_prod s) (p_connect s) (i s)
    (ack_ready s) v (input_failures s) (queue_len s)
    (Flags s) (ProdSeqno s) (qstat s) (trace s).
Definition with_input_failures (v : Z) (s : loop_state) : loop_state :=
  mk_state (pc s) (sock_fd s) (prod_tbl s) (p_prod s) (p_connect s) (i s)
    (ack_ready s) (connect_failures s) v (queue_len s)
    (Flags s) (ProdSeqno s) (qstat s) (trace s).
Definition with_queue_len (v : Z) (s : loop_state) : loop_state :=
  mk_state (pc s) (sock_fd s) (prod_tbl s) (p_prod s) (p_connect s) (i s)
    (ack_ready s) (connect_failures s) (input_failures s) v
    (Flags s) (ProdSeqno s) (qstat s) (trace s).
Definition with_Flags (v : Z) (s : loop_state) : loop_state :=
  mk_state (pc s) (sock_fd s) (prod_tbl s) (p_prod s) (p_connect s) (i s)
    (ack_ready s) (connect_failures s) (input_failures s) (queue_len s)
    v (ProdSeqno s) (qstat s) (trace s).
Definition with_ProdSeqno (v : Z) (s : loop_state) : loop_state :=
  mk_state (pc s) (sock_fd s) (prod_tbl s) (p_prod s) (p_connect s) (i s)
    (ack_ready s) (connect_failures s) (input_failures s) (queue_len s)
    (Flags s) v (qstat s) (trace s).
Definition with_qstat (v : queue_static) (s : loop_state) : loop_state :=
  mk_state (pc s) (sock_fd s) (prod_tbl s) (p_prod s) (p_connect s) (i s)
    (ack_ready s) (connect_failures s) (input_failures s) (queue_len s)
    (Flags s) (ProdSeqno s) v (trace s).
Definition log (ev : list event) (s : loop_state) : loop_state :=
  mk_state (pc s) (sock_fd s) (prod_tbl s) (p_prod s) (p_connect s) (i s)
    (ack_ready s) (connect_failures s) (input_failures s) (queue_len s)
    (Flags s) (ProdSeqno s) (qstat s) (trace s ++ ev).

Definition flag_set (fl bit : Z) : bool := negb (Z.land fl bit =? 0).
Definition flag_clear (fl bit : Z) : Z := Z.land fl (Z.lnot bit).

Definition same_ptr (a : option nat) (b : nat) : bool :=
  match a with
  | Some x => Nat.eqb x b
  | None => false
  end.

(** Conversion of a [size_t] to [int] ([bytes_left = p_prod->size]). *)
Definition to_int (v : Z) : Z := (v + 2 ^ 31) mod 2 ^ 32 - 2 ^ 31.

(** [prod_tbl.prod[idx].state = v]: defined only inside the pool. *)
Definition store_state (idx : Z) (v : ascii) (t : prod_tbl_t)
  : option prod_tbl_t :=
  if (0 <=? idx) && (idx <? Z.of_nat (length (prod t)))
  then Some (upd (Z.to_nat idx) (set_state v) t)
  else None.

(** What [disconnect_from_server] leaves in [Flags]. *)
Definition disconnect_flags (fl : Z) : Z :=
  flag_clear (flag_clear fl NOPEER_FLAG) DISCONNECT_FLAG.

Section Loop.

Variable opts : client_opt.
Variable qsort :
  (prod_info_t -> prod_info_t -> Z) -> list prod_info_t -> list prod_info_t.

(** The effect of [finish_send] and [abort_send] on the slot: when
    [my_rename] succeeds the [filename] follows the file. *)
Definition move_file (e : env) (p : nat) (t : prod_tbl_t) : prod_tbl_t :=
  match e_rename e with
  | Some path => upd p (set_filename path) t
  | None => t
  end.

(** [create_conn_msg]: [e_conn_msg] is the name [mkstemp] produced and,
    when the file could be written, the number of bytes written. *)
Definition create_conn_msg (e : env) (t : prod_tbl_t)
  : prod_tbl_t * option nat :=
  match tbl_pop FreeList t with
  | (t1, None) => (rebuild_lists opts t1, None)
  | (t1, Some p) =>
      let t2 :=
        upd p (fun _ => set_filename (fst (e_conn_msg e)) zero_prod) t1 in
      match snd (e_conn_msg e) with
      | None => (tbl_push FreeList p t2, None)
      | Some sz =>
          (upd p (fun pr => set_queue_time (e_now e) (set_size sz pr)) t2,
           Some p)
      end
  end.

(** [send_prod].  The retry test, the counting of the attempt, the
    sequence number and the call of [format_msghdr] are the code's; the
    reads of the product file and the sends on the socket are answered by
    the environment: [e_open], then [e_first_read] for the first block
    (with the length of the CCB heading found in it), then [e_rest] for
    the rest of the transfer, with [sent_some] telling whether the last
    [send] returned more than 0 bytes.
    Returns the return value, [*p_prod], [ProdSeqno] and [Flags]. *)
Definition send_prod (e : env) (sq fl : Z) (pr : prod_info_t)
  : Z * prod_info_t * Z * Z :=
  if (max_retry opts >? 0) && (send_count pr >? max_retry opts)
  then (-1, set_state STATE_FAILED pr, sq, fl)
  else
    let pr := set_send_count (send_count pr + 1) pr in
    if negb (e_open e) then (-1, set_state STATE_FAILED pr, sq, fl)
    else
      let pr := set_ccb_len 0 (set_seqno sq pr) in
      let sent (q : prod_info_t) :=
        (0, set_send_time (e_now e) (set_state STATE_SENT q),
         NEXT_SEQNO sq, fl) in
      if to_int (size pr) <=? 0 then sent pr
      else
        match e_first_read e with
        | None => (-1, set_state STATE_FAILED pr, sq, fl)
        | Some ccb =>
            let pr :=
              if negb (strip_ccb opts =? 0) && (ccb >? 0)
              then set_size (size pr - ccb) (set_ccb_len ccb pr)
              else pr in
            if fst (format_msghdr [] pr) <? 0
            then (-1, set_state STATE_FAILED pr, sq, fl)
            else
              match e_rest e with
              | RestDone => sent pr
              | RestReadFail =>
                  (-1, set_state STATE_FAILED pr, NEXT_SEQNO sq,
                   Z.lor fl DISCONNECT_FLAG)
              | RestSendFail send_error sent_some =>
                  let fl1 :=
                    if send_error
                    then Z.lor fl (Z.lor DISCONNECT_FLAG NOPEER_FLAG)
                    else fl in
                  if sent_some
                  then (-1, set_state STATE_RETRY pr, NEXT_SEQNO sq,
                        Z.lor fl1 DISCONNECT_FLAG)
                  else (-1, set_state STATE_RETRY pr, sq, fl1)
              end
        end.

(** [check_for_ack]: the outcome of [select] comes from the environment. *)
Definition check_for_ack (e : env) : Z :=
  if port opts =? DISCARD_PORT then 1 else e_select e.

(** [recv_ack]: the six bytes read and parsed by [parse_ack] come from
    the environment, the tests on [seqno] and [code] are the code's.
    Returns the code on success ([None] for -1) and the flag bits set. *)
Definition recv_ack (e : env) (p_ack : prod_info_t) : option ascii * Z :=
  if port opts =? DISCARD_PORT then (Some ACK_OK, 0)
  else
    match e_recv e with
    | RecvErr fl => (None, fl)
    | RecvMsg sq code =>
        if negb (sq =? seqno p_ack) then (None, 0)
        else if negb (Ascii.eqb code ACK_OK) && negb (Ascii.eqb code ACK_RETRY)
                && negb (Ascii.eqb code ACK_FAIL) then (None, 0)
        else (Some code, 0)
    end.

(** The table after the initialising [for] loop. *)
Definition init_tbl : prod_tbl_t :=
  fold_left
    (fun t k => tbl_push FreeList k (upd k (set_state STATE_FREE) t))
    (seq 0 (Z.to_nat (window_size opts)))
    (mk_tbl (replicate (Z.to_nat (window_size opts)) zero_prod)
            empty_list empty_list empty_list).

(** The state when the [while] loop is entered ([calloc] succeeded). *)
Definition poll_and_send_init (e : env) : loop_state :=
  let '(t, r) :=
    match connect_wmo opts with
    | Some _ => create_conn_msg e init_tbl
    | None => (init_tbl, None)
    end in
  mk_state AtTop (-1) t r r (window_size opts) 0 0 0 0 0 0
           queue_static_init [].

(** The loop test and the disconnect check. *)
Definition step_top (e : env) (s : loop_state) : option loop_state :=
  if flag_set (Flags s) SHUTDOWN_FLAG then
    Some (with_pc AtExit
            (if sock_fd s >=? 0
             then with_sock_fd (-1)
                    (with_Flags (disconnect_flags (Flags s)) s)
             else s))
  else if (sock_fd s >=? 0) && flag_set (Flags s) DISCONNECT_FLAG then
    let s1 :=
      with_sock_fd (-1) (with_Flags (disconnect_flags (Flags s)) s) in
    match connect_wmo opts with
    | Some _ =>
        let t1 :=
          match p_prod s with
          | Some p =>
              if same_ptr (p_connect s) p then prod_tbl s
              else tbl_push RetrList p (prod_tbl s)
          | None => prod_tbl s
          end in
        let '(t2, r) := create_conn_msg e t1 in
        Some (with_pc AtConnect
                (with_p_connect r (with_p_prod r (with_tbl t2 s1))))
    | None => Some (with_pc AtConnect s1)
    end
  else Some (with_pc AtConnect s).

(** "connect now if not already connected"; the rotation through the
    host list on failure changes no variable modelled here. *)
Definition step_connect (e : env) (s : loop_state) : option loop_state :=
  if sock_fd s <? 0 then
    if e_connect e <? 0 then
      Some (with_pc AtAcquire
              (with_connect_failures (connect_failures s + 1)
                 (with_sock_fd (-1) s)))
    else
      Some (with_pc AtRequeue
              (with_i 0 (with_ProdSeqno 0 (with_sock_fd (e_connect e) s))))
  else Some (with_pc AtAcquire s).

(** One turn of [for (i = 0; prod_tbl.ack_list.count > 0; i++)]. *)
Definition step_requeue (e : env) (s : loop_state) : option loop_state :=
  let t := prod_tbl s in
  if count (ack_list t) >? 0 then
    match tbl_pop AckList t with
    | (t1, None) =>
        Some (with_i (i s + 1) (with_tbl (rebuild_lists opts t1) s))
    | (t1, Some p_retr) =>
        if same_ptr (p_connect s) p_retr
        then Some (with_i (i s + 1) (with_tbl t1 s))
        else
          let t2 :=
            if i s >? 0 then
              (* p_prod->send_count, whatever p_prod is *)
              match p_prod s with
              | None => None
              | Some p =>
                  Some (if send_count (slot t1 p) >? 0
                        then upd p (fun pr =>
                               set_send_count (send_count pr - 1) pr) t1
                        else t1)
              end
            else Some t1 in
          match t2 with
          | None => None
          | Some t2 =>
              Some (log [EvRequeue p_retr]
                      (with_i (i s + 1)
                         (with_tbl (tbl_push RetrList p_retr t2) s)))
          end
    end
  else Some (with_pc AtAcquire (with_connect_failures 0 s)).

(** "get next product if we don't have one and ack window is not full". *)
Definition step_acquire (e : env) (s : loop_state) : option loop_state :=
  let t := prod_tbl s in
  match p_prod s with
  | Some _ => Some (with_pc AtTTL s)
  | None =>
      if count (ack_list t) <? window_size opts then
        if count (retr_list t) >? 0 then
          match tbl_pop RetrList t with
          | (t1, None) =>
              Some (with_pc AtTTL (with_tbl (rebuild_lists opts t1) s))
          | (t1, Some p) =>
              Some (log [EvAcquireRetr p]
                      (with_pc AtTTL (with_p_prod (Some p) (with_tbl t1 s))))
          end
        else
          match tbl_pop FreeList t with
          | (t1, None) =>
              Some (with_pc AtTop (with_tbl (rebuild_lists opts t1) s))
          | (t1, Some p) =>
              let '(rc, q1, pr1) :=
                get_next_file opts t1 qsort (e_poll e) (qstat s)
                              (slot t1 p) in
              let s1 := log [EvPoll rc] (with_queue_len rc (with_qstat q1 s)) in
              if rc <? 0 then
                Some (with_pc AtTTL
                        (with_input_failures (input_failures s + 1)
                           (with_p_prod (Some p) (with_tbl t1 s1))))
              else if rc >? 0 then
                Some (log [EvAcquireNew p]
                        (with_pc AtTTL
                           (with_input_failures 0
                              (with_p_prod (Some p)
                                 (with_tbl
                                    (upd p (fun _ =>
                                       set_state STATE_QUEUED pr1) t1)
                                    s1)))))
              else
                Some (with_pc AtTTL
                        (with_input_failures 0
                           (with_p_prod None
                              (with_tbl (tbl_push FreeList p t1) s1))))
          end
      else if count (ack_list t) =? window_size opts then
        Some (with_pc AtTTL s)          (* "Full window skip get_next_file" *)
      else Some (with_pc AtTTL (with_tbl (rebuild_lists opts t) s))
  end.

(** "check TTL". *)
Definition step_ttl (e : env) (s : loop_state) : option loop_state :=
  let t := prod_tbl s in
  match p_prod s with
  | Some p =>
      if (queue_ttl opts >? 0)
         && (e_now e >? queue_time (slot t p) + queue_ttl opts)
      then
        let t1 := move_file e p (upd p (set_state STATE_DEAD) t) in
        Some (log [EvAbort p]
                (with_pc AtSend
                   (with_p_prod None (with_tbl (tbl_push FreeList p t1) s))))
      else Some (with_pc AtSend s)
  | None => Some (with_pc AtSend s)
  end.

(** "if we are connected and have a product to send", then
    [ack_ready = prod_tbl.ack_list.count]. *)
Definition step_send (e : env) (s : loop_state) : option loop_state :=
  let t := prod_tbl s in
  let s1 :=
    match p_prod s with
    | Some p =>
        if sock_fd s >=? 0 then
          let '(rc, pr1, sq1, fl1) :=
            send_prod e (ProdSeqno s) (Flags s) (slot t p) in
          let t1 := upd p (fun _ => pr1) t in
          let s0 := log [EvSend p rc] (with_ProdSeqno sq1 (with_Flags fl1 s)) in
          if rc =? 0 then
            with_p_prod None (with_tbl (tbl_push AckList p t1) s0)
          else if Ascii.eqb (state pr1) STATE_FAILED then
            log [EvAbort p]
              (with_p_prod None
                 (with_tbl (tbl_push FreeList p (move_file e p t1)) s0))
          else with_tbl t1 s0
        else s
    | None => s
    end in
  Some (with_pc AtAcks
          (with_ack_ready (count (ack_list (prod_tbl s1))) s1)).

(** The test and one turn of the ack reading loop. *)
Definition step_acks (e : env) (s : loop_state) : option loop_state :=
  let t := prod_tbl s in
  if (sock_fd s >=? 0) && bool_decide (p_head (ack_list t) <> None)
     && (ack_ready s >? 0) then
    let ar := check_for_ack e in
    if ar >? 0 then
      match tbl_pop AckList t with
      | (t1, None) =>
          Some (with_ack_ready ar (with_tbl (rebuild_lists opts t1) s))
      | (t1, Some p_ack) =>
          match recv_ack e (slot t1 p_ack) with
          | (None, fl) =>
              Some (with_pc AtSleep
                      (with_ack_ready (-1)
                         (with_Flags (Z.lor (Z.lor (Flags s) fl)
                                            DISCONNECT_FLAG)
                            (with_tbl (tbl_push AckList p_ack t1) s))))
          | (Some ack_code, _) =>
              let clear_conn (s' : loop_state) :=
                if same_ptr (p_connect s) p_ack
                then with_p_connect None s' else s' in
              let s0 := log [EvAck p_ack ack_code] (with_ack_ready ar s) in
              if Ascii.eqb ack_code ACK_OK then
                let t2 := move_file e p_ack
                            (upd p_ack (set_state STATE_ACKED) t1) in
                match store_state (i s) STATE_FREE t2 with
                | None => None
                | Some t3 =>
                    Some (clear_conn
                            (log [EvFinish p_ack]
                               (with_tbl (tbl_push FreeList p_ack t3) s0)))
                end
              else if Ascii.eqb ack_code ACK_FAIL then
                let t2 := move_file e p_ack
                            (upd p_ack (set_state STATE_NACKED) t1) in
                match store_state (i s) STATE_FREE t2 with
                | None => None
                | Some t3 =>
                    Some (clear_conn
                            (log [EvAbort p_ack]
                               (with_tbl (tbl_push FreeList p_ack t3) s0)))
                end
              else if Ascii.eqb ack_code ACK_RETRY then
                if same_ptr (p_connect s) p_ack then
                  match store_state (i s) STATE_FREE t1 with
                  | None => None
                  | Some t3 =>
                      Some (clear_conn
                              (with_tbl (tbl_push FreeList p_ack t3) s0))
                  end
                else
                  Some (clear_conn
                          (log [EvRetry p_ack]
                             (with_tbl
                                (tbl_push RetrList p_ack
                                   (upd p_ack (set_state STATE_RETRY) t1))
                                s0)))
              else
                Some (clear_conn
                        (with_Flags (Z.lor (Flags s) DISCONNECT_FLAG)
                           (with_ack_ready (-1)
                              (with_tbl (tbl_push AckList p_ack t1) s0))))
          end
      end
    else if ar =? 0 then
      (* no acks waiting, check for ack timeout *)
      let head_time :=
        match p_head (ack_list t) with
        | Some hd => send_time (slot t hd)
        | None => 0
        end in
      if head_time + timeout opts - e_now e <=? 0
      then Some (with_ack_ready ar
                   (with_Flags (Z.lor (Flags s) DISCONNECT_FLAG) s))
      else Some (with_ack_ready ar s)
    else
      Some (with_ack_ready ar
              (with_Flags (Z.lor (Flags s) DISCONNECT_FLAG) s))
  else Some (with_pc AtSleep s).

(** One step of the loop: the signal handlers may have set flag bits, then
    the code between two points runs.  [None] is undefined behaviour of
    the C program (a store outside the pool, a load through NULL). *)
Definition step (e : env) (s : loop_state) : option loop_state :=
  let s := with_Flags (Z.lor (Flags s) (e_signals e)) s in
  match pc s with
  | AtTop => step_top e s
  | AtConnect => step_connect e s
  | AtRequeue => step_requeue e s
  | AtAcquire => step_acquire e s
  | AtTTL => step_ttl e s
  | AtSend => step_send e s
  | AtAcks => step_acks e s
  | AtSleep => Some (with_pc AtTop s)     (* [sleep(wait_time)] or nothing *)
  | AtExit => Some s
  end.

Fixpoint run (es : list env) (s : loop_state) : option loop_state :=
  match es with
  | [] => Some s
  | e :: es' =>
      match step e s with
      | Some s' => run es' s'
      | None => None
      end
  end.

(** The states the loop can be in. *)
Inductive reachable : loop_state -> Prop :=
| reach_init e : reachable (poll_and_send_init e)
| reach_step e s s' : reachable s -> step e s = Some s' -> reachable s'.

End Loop.

(** ** Vocabulary of the statements about the table and the loop *)

(** [chain h start l]: following [p_next] from [start] visits exactly the
    slots [l], in this order, and ends at NULL. *)
Fixpoint chain (h : list prod_info_t) (start : option nat) (l : list nat)
  : Prop :=
  match l with
  | [] => start = None
  | x :: l' =>
      start = Some x /\ exists pr, h !! x = Some pr /\ chain h (p_next pr) l'
  end.

(** The list structure [L] holds the slots [l]. *)
Definition is_list (h : list prod_info_t) (L : prod_list_t) (l : list nat)
  : Prop :=
  chain h (p_head L) l /\ p_tail L = last l /\ count L = Z.of_nat (length l).

(** The contents of the three lists. *)
Definition contents : Type := which_list -> list nat.

Definition all_slots (ls : contents) : list nat :=
  ls FreeList ++ ls AckList ++ ls RetrList.

Definition which_eqb (a b : which_list) : bool :=
  match a, b with
  | FreeList, FreeList | AckList, AckList | RetrList, RetrList => true
  | _, _ => false
  end.

Definition set_contents (w : which_list) (l : list nat) (ls : contents)
  : contents :=
  fun w' => if which_eqb w w' then l else ls w'.

Definition tbl_rep (t : prod_tbl_t) (ls : contents) : Prop :=
  forall w, is_list (prod t) (get_list w t) (ls w).

(** The list discipline: the three lists are well formed and share no
    slot with each other or with the slots [held] outside them. *)
Definition tbl_inv (n : nat) (t : prod_tbl_t) (held : list nat) : Prop :=
  exists ls,
    tbl_rep t ls /\ NoDup (all_slots ls ++ held)
    /\ length (prod t) = n /\ Forall (fun x => (x < n)%nat) held.

(** The pool after [push_prod] on a list whose tail is [tl]. *)
Definition push_heap (h : list prod_info_t) (tl : option nat) (p : nat)
  : list prod_info_t :=
  alter (set_p_next None) p
    (match tl with
     | Some t => alter (set_p_next (Some p)) t h
     | None => h
     end).

(** The list [rebuild_lists] files a slot on, from its state. *)
Definition list_of_state (st : ascii) : which_list :=
  if Ascii.eqb st STATE_QUEUED || Ascii.eqb st STATE_RETRY then RetrList
  else if Ascii.eqb st STATE_SENT then AckList
  else FreeList.

(** The discipline on a state of the loop: the slot held outside the
    lists is the current product. *)
Definition loop_inv (opts : client_opt) (s : loop_state) : Prop :=
  tbl_inv (Z.to_nat (window_size opts)) (prod_tbl s) (option_list (p_prod s)).

(** The events that take a product from the retry list or go to the
    input queue. *)
Definition is_acquire (ev : event) : bool :=
  match ev with
  | EvAcquireRetr _ | EvAcquireNew _ | EvPoll _ => true
  | _ => false
  end.

End ClientSend.

(* ===================================================================== *)
(** * Concrete runs                                                       *)
(* ===================================================================== *)

Module Scenarios.
Import Share Client ClientQueue ClientSend.

(** A product inside the bounds of [format_msghdr], one whose
    [queue_time] lies before the epoch, and a header on the wire. *)
Definition sample_prod : prod_info_t :=
  mk_prod 7 ["d"; "/"; "a"] 100 0 STATE_QUEUED 0 1111111111 0 0 None.

Definition early_prod : prod_info_t :=
  mk_prod 0 ["d"; "/"; "a"] 1 0 STATE_QUEUED 0 (-1) 0 0 None.

Definition sample_hdr : list ascii :=
  snd (format_msghdr [] sample_prod).


(** A list of two slots in a pool of two. *)
Definition two_slots : list prod_info_t :=
  [set_p_next (Some 1%nat) zero_prod; zero_prod].

Definition two_list : prod_list_t := mk_list 2 (Some 0%nat) (Some 1%nat).

(** A regular, readable file. *)
Definition regular_stat (sz mtime : Z) : stat_t := mk_stat 33188 sz mtime.
Definition file_entry (name : list ascii) (sz mtime : Z) : dirent_in :=
  mk_dirent name (Some (regular_stat sz mtime)) (mtime + 100) true.

Definition opts_example (cap : Z) (dirs : list (list ascii)) : client_opt :=
  mk_opt 53000 300 3 0 2 3 dirs 0 0 20 cap None.

Definition empty_tbl : prod_tbl_t :=
  mk_tbl [] (mk_list 0 None None) (mk_list 0 None None) (mk_list 0 None None).

(** Two input directories with one file each. *)
Definition env_two_dirs : poll_env :=
  mk_poll_env 0
    (fun k => match k with
              | O => Some [file_entry ["a"] 10 100]
              | S O => Some [file_entry ["b"] 10 100]
              | _ => None
              end)
    200.


(** An environment in which every call succeeds: three files of the same
    age wait in the one input directory, the server is reachable and
    answers [sel] to [select] and an ack [code] for [sq] to [recv]. *)
Definition listing_abc : poll_env :=
  mk_poll_env 200
    (fun k => match k with
              | O => Some [file_entry ["a"] 10 100; file_entry ["b"] 10 100;
                           file_entry ["c"] 10 100]
              | _ => None
              end)
    200.

Definition env_ok (sel sq : Z) (code : ascii) : env :=
  mk_env 0 200 5 ([], None) listing_abc true (Some 0) RestDone sel
         (RecvMsg sq code) (Some ["s"]).

(** No ack has arrived and the clock is past the ack timeout. *)
Definition env_late : env :=
  mk_env 0 1000 5 ([], None) listing_abc true (Some 0) RestDone 0
         (RecvErr 0) None.

Definition opts_window (ws : Z) : client_opt :=
  mk_opt 53000 300 3 0 ws 3 [["d"]] 0 0 20 2000 None.

Definition quiet : env := env_ok 0 0 "K".

(** Window of two: a first and a second product are sent from slots 0
    and 1, the first is acked, and slot 0 is used again for a third; the
    ack list is then slot 1, slot 0. *)
Definition script_two_sent : list env :=
  [quiet; quiet; quiet; quiet; quiet; quiet; quiet; quiet; quiet;
                                                  (* first product sent *)
   quiet; quiet; quiet; quiet; quiet;             (* second product sent *)
   env_ok 1 0 "K"; quiet; quiet; quiet;           (* first product acked *)
   quiet; quiet; quiet; quiet; quiet].            (* third product sent *)

Definition state_of (o : option loop_state) (d : loop_state) : loop_state :=
  match o with Some s => s | None => d end.

Definition before_ack : loop_state :=
  state_of (run (opts_window 2) insertion_qsort script_two_sent
              (poll_and_send_init (opts_window 2) quiet))
           (poll_and_send_init (opts_window 2) quiet).

(** The [K] ack for the product of slot 1 is read. *)
Definition after_ack : loop_state :=
  state_of (step (opts_window 2) insertion_qsort (env_ok 1 1 "K") before_ack)
           before_ack.

(** Window of one: a product is sent and fills the window. *)
Definition script_one_sent : list env :=
  [quiet; quiet; quiet; quiet; quiet; quiet].

(** The ack does not come: timeout, disconnect, reconnect, re-queue, and
    the product is taken from the retry list. *)
Definition script_timeout : list env :=
  [env_late; env_late; env_late; env_late; env_late; env_late; env_late;
   env_late].

Definition window_full : loop_state :=
  state_of (run (opts_window 1) insertion_qsort script_one_sent
              (poll_and_send_init (opts_window 1) quiet))
           (poll_and_send_init (opts_window 1) quiet).

Definition window_reopened : loop_state :=
  state_of (run (opts_window 1) insertion_qsort script_timeout window_full)
           window_full.

(** The first product has been taken from the queue and is about to be
    sent. *)
Definition product_in_hand : loop_state :=
  state_of (run (opts_window 2) insertion_qsort [quiet; quiet; quiet; quiet]
              (poll_and_send_init (opts_window 2) quiet))
           (poll_and_send_init (opts_window 2) quiet).

End Scenarios.

(* ===================================================================== *)
(** * share.c: the ack codec and the CCB heading                          *)
(* ===================================================================== *)

Module ShareAck.
Import Share.

(** The conversion [%<width>d]: a minus sign for a negative value, the
    digits, and spaces added on the left up to [width] characters. *)
Definition fmt_wd (width : nat) (v : Z) : list ascii :=
  let body := (if v <? 0 then ["-"] else []) ++ decimal (Z.abs v) in
  repeat " " (width - length body) ++ body.

(** [sprintf(buf, ...)] producing the characters [s]: they and the final
    NUL go to the start of the array [buf].  The store is undefined
    ([None]) when the array is too short. *)
Definition sprintf_to (buf s : list ascii) : option (list ascii) :=
  if (length s + 1 <=? length buf)%nat
  then Some (s ++ ["000"] ++ drop (length s + 1) buf)
  else None.

(** Returns the return value and the caller's buffer afterwards. *)
Definition format_ack (buf : list ascii) (seqno : Z) (code : ascii)
  : option (Z * list ascii) :=
  match sprintf_to buf (fmt_wd 5 seqno ++ [code]) with
  | None => None
  | Some buf1 =>
      if negb (Z.of_nat (length (c_str buf1)) =? ACK_MSG_LEN)
      then Some (-1, buf1)
      else Some (ACK_MSG_LEN, buf1)
  end.

(** What [sscanf(scanbuf, "%d%c", p_seqno, p_code)] returns and stores.
    The [%d] has no width: it reads every digit there is. *)
Definition sscanf_ack (s : list ascii) : Z * option Z * option ascii :=
  match scan_d (length s) s with
  | None => (match skip_space s with [] => -1 | _ => 0 end, None, None)
  | Some (v, r) =>
      match r with
      | c :: _ => (2, Some v, Some c)
      | [] => (1, Some v, None)
      end
  end.

(** Returns the return value, [*p_seqno] and [*p_code] afterwards. *)
Definition parse_ack (buf : list ascii) (buflen : Z) (seqno0 : Z)
  (code0 : ascii) : Z * Z * ascii :=
  if buflen <? ACK_MSG_LEN then (-1, seqno0, code0)
  else
    let scanbuf := c_str (take (Z.to_nat ACK_MSG_LEN) buf) in
    let '(n, sq, cd) := sscanf_ack scanbuf in
    let seqno1 := assign sq seqno0 in
    let code1 := assign cd code0 in
    if negb (n =? 2) then (-1, seqno1, code1)
    else (ACK_MSG_LEN, seqno1, code1).

(** ** get_ccb_len *)

Definition CCB_FLAG_BYTE : nat := 0.
Definition CCB_LENGTH_BYTE : nat := 1.
Definition CCB_FLAG_VAL : Z := 64.        (* 0x40 *)
Definition CCB_MIN_HDR_LEN : Z := 24.
Definition CCB_MAX_HDR_LEN : Z := 1024.

(** The value of a [char] in an expression.  Whether [char] is signed is
    left to the platform by the language. *)
Definition char_value (char_signed : bool) (c : ascii) : Z :=
  let n := Z.of_N (N_of_ascii c) in
  if char_signed && (128 <=? n) then n - 256 else n.

(** [buf] is the array the pointer points into; a read past its end is
    undefined ([None]). *)
Definition get_ccb_len (char_signed : bool) (buf : list ascii) (buflen : Z)
  : option Z :=
  match buf !! CCB_FLAG_BYTE with
  | None => None
  | Some flag =>
      if negb (char_value char_signed flag =? CCB_FLAG_VAL) then Some 0
      else
        match buf !! CCB_LENGTH_BYTE with
        | None => None
        | Some len =>
            let ccb_len := char_value char_signed len * 2 in
            if (ccb_len >? CCB_MAX_HDR_LEN) || (ccb_len <? CCB_MIN_HDR_LEN)
               || (to_size_t ccb_len >? buflen)
            then Some 0
            else Some ccb_len
        end
  end.

End ShareAck.

(* ===================================================================== *)
(** * client_send.c: reading an ack off the socket                         *)
(* ===================================================================== *)

Module ClientAck.
Import Share Client ShareAck.

(** What one call of [recv(sock_fd, p_buf, bytes_left, 0)] does: the bytes
    the peer has sent so far (none: the peer has closed), or -1 with
    [errno == EINTR], or -1 with another [errno]. *)
Inductive recv_res : Type :=
| RecvData (d : list ascii)
| RecvEINTR
| RecvFail.

(** One call, with the flag bits the signal handlers have set by the time
    it returns. *)
Record recv_call : Type := mk_recv_call {
  rv_signals : Z;
  rv_res : recv_res
}.

(** [memcpy]-like store of [d] at offset [off] of the array [buf]. *)
Definition store_at (buf : list ascii) (off : nat) (d : list ascii)
  : list ascii :=
  take off buf ++ d ++ drop (off + length d) buf.

(** The [while (bytes_left > 0)] loop of [recv_ack]; one call of [recv]
    per element of [calls].  The result is [inl] for [return -1] inside
    the loop, [inr] with [recv_bytes] and [recvbuf] when the loop ends;
    both with [Flags].  [None]: the calls given do not end the loop. *)
Fixpoint recv_ack_loop (calls : list recv_call) (fl : Z)
  (recvbuf : list ascii) (off : nat) (bytes_left recv_bytes : Z)
  : option (Z + Z * list ascii * Z) :=
  if bytes_left >? 0 then
    match calls with
    | [] => None
    | c :: calls' =>
        let fl := Z.lor fl (rv_signals c) in
        match rv_res c with
        | RecvEINTR =>
            if negb (Z.land fl DISCONNECT_FLAG =? 0) then Some (inl fl)
            else recv_ack_loop calls' fl recvbuf off bytes_left (-1)
        | RecvFail => Some (inl fl)
        | RecvData d =>
            let d := take (Z.to_nat bytes_left) d in
            let n := Z.of_nat (length d) in
            if n =? 0
            then Some (inl (Z.lor fl (Z.lor DISCONNECT_FLAG NOPEER_FLAG)))
            else recv_ack_loop calls' fl (store_at recvbuf off d)
                   (off + length d) (bytes_left - n) n
        end
    end
  else Some (inr (recv_bytes, recvbuf, fl)).

(** [recv_ack], with the receive loop written out.  [recvbuf] is the
    local array as it is found on entry.  Returns the return value,
    [*p_code] and [Flags]. *)
Definition recv_ack_bytes (opts : client_opt) (calls : list recv_call)
  (fl : Z) (recvbuf : list ascii) (p_ack : prod_info_t) (code0 : ascii)
  : option (Z * ascii * Z) :=
  if port opts =? DISCARD_PORT then Some (0, ACK_OK, fl)
  else
    match recv_ack_loop calls fl recvbuf 0 ACK_MSG_LEN 0 with
    | None => None
    | Some (inl fl1) => Some (-1, code0, fl1)
    | Some (inr (recv_bytes, buf1, fl1)) =>
        let '(rc, seqno, code) :=
          parse_ack buf1 (to_size_t recv_bytes) 0 "000" in
        if rc <? 0 then Some (-1, code0, fl1)
        else if negb (seqno =? Share.seqno p_ack) then Some (-1, code0, fl1)
        else if negb (Ascii.eqb code ACK_OK) && negb (Ascii.eqb code ACK_RETRY)
                && negb (Ascii.eqb code ACK_FAIL)
        then Some (-1, code0, fl1)
        else Some (0, code, fl1)
    end.

(** A call of [recv] that a signal interrupts. *)
Definition is_eintr (c : recv_call) : Prop := rv_res c = RecvEINTR.

End ClientAck.

(* ===================================================================== *)
(** * serv_recv.c: the service loop                                       *)
(* ===================================================================== *)

Module ServService.
Import Share ServRecv ClientSend.

(** Conversion of an [int] expression to [unsigned int]. *)
Definition to_uint (v : Z) : Z := v mod 2 ^ 32.

(** What the outside world brings for one turn of the loop of [service]:
    the block [recv_block] read for the header, the flag bits raised while
    [recv_msghdr] runs, and for [recv_prod] the file name it chose, its
    return value and the flag bits raised while it runs. *)
Record service_in : Type := mk_service_in {
  sv_hdr : Z * list ascii;
  sv_hdr_flags : Z;
  sv_filename : list ascii;
  sv_prod_rc : Z;
  sv_prod_flags : Z
}.

(** The value [service] returns once it has left its loop. *)
Definition service_rc (fl : Z) : Z :=
  if flag_set fl (Z.lor SHUTDOWN_FLAG DISCONNECT_FLAG) then 0 else -1.

(** The loop of [service] from a state of its variables.  The result is
    the return value ([None] while the loop waits for more input than
    [ins] holds), [Flags], and the products received so far, in order. *)
Fixpoint service_loop (ins : list service_in) (fl seqno : Z)
  (prod : prod_info_t) (done : list prod_info_t)
  : option Z * Z * list prod_info_t :=
  if flag_set fl (Z.lor SHUTDOWN_FLAG DISCONNECT_FLAG)
  then (Some (service_rc fl), fl, done)
  else
    match ins with
    | [] => (None, fl, done)
    | x :: ins' =>
        let '(rc, p1) := recv_msghdr (sv_hdr x) (to_int seqno) prod in
        let fl1 := Z.lor fl (sv_hdr_flags x) in
        if rc <? 0 then (Some (service_rc fl1), fl1, done)
        else if flag_set fl1 DISCONNECT_FLAG
        then (Some (service_rc fl1), fl1, done)
        else
          let p2 := set_filename (sv_filename x) p1 in
          let fl2 := Z.lor fl1 (sv_prod_flags x) in
          if sv_prod_rc x <? 0 then (Some (service_rc fl2), fl2, done)
          else service_loop ins' fl2 (to_uint (Share.seqno p2 + 1)) p2
                 (done ++ [p2])
    end.

(** [service] once [recvbuf] is allocated: [seqno = 0] and the loop. *)
Definition service (ins : list service_in) (fl : Z) (prod : prod_info_t)
  : option Z * Z * list prod_info_t :=
  service_loop ins fl 0 prod [].

(** ** Vocabulary: a client that sends on one connection *)

(** The products as [send_prod] leaves them when every call returns 0 and
    has a first block to send; [None] as soon as one call does not. *)
Fixpoint sends (opts : Client.client_opt) (items : list (env * prod_info_t))
  (sq fl : Z) : option (list prod_info_t) :=
  match items with
  | [] => Some []
  | (e, pr) :: items' =>
      let '(rc, pr', sq', fl') := send_prod opts e sq fl pr in
      if (rc =? 0) && (0 <? to_int (size pr)) then
        match sends opts items' sq' fl' with
        | Some l => Some (pr' :: l)
        | None => None
        end
      else None
  end.

(** The header of a product on the wire, and the server's input when the
    header arrives whole and [recv_prod] succeeds. *)
Definition wire_hdr (p : prod_info_t) : list ascii :=
  snd (format_msghdr [] p).

Definition arrives (name_of : prod_info_t -> list ascii) (p : prod_info_t)
  : service_in :=
  mk_service_in (32, wire_hdr p) 0 (name_of p) 0 0.

Definition hdr_fields (p : prod_info_t) : Z * Z * Z :=
  (seqno p, size p, queue_time p).

End ServService.

(* ===================================================================== *)
(** * serv_recv.c: blocks off the socket and onto the disk                *)
(* ===================================================================== *)

Module ServBlock.
Import Share ClientSend.

Definition FIRST_BLK_SIZE : Z := 1024.

(** The macro [MIN] of share.h. *)
Definition MIN (a b : Z) : Z := if b <? a then b else a.

(** What one call of [recv] or [write] on [len] bytes does: it transfers
    some of them - as many as the peer or the disk takes, [avail], and
    never more than [len] - or returns -1 with [errno] one of the values
    the callers tell apart.  The code keeps the count in an [int]; that is
    the same number as long as [len] is below 2^31, which the callers see
    to (a block is at most [bufsize] bytes). *)
Inductive io_res : Type :=
| IoBytes (avail : N)
| IoEINTR
| IoENOSPC
| IoFail.

(** One call, with the flag bits the signal handlers have set by the time
    it returns. *)
Record io_call : Type := mk_io_call {
  io_signals : Z;
  io_res_of : io_res
}.

(** What [recv_block] does once it has left its loop. *)
Definition recv_block_end (fl bytes_total bytes_rcvd : Z) : Z * Z :=
  if bytes_rcvd <=? 0 then (-1, fl) else (to_int bytes_total, fl).

(** The loop of [recv_block], one call of [recv] per element of [calls].
    Returns the return value and [Flags]; [None] while the loop waits for
    more calls than are given.  The two calls of [alarm] only arm the
    timer whose signal is among the [io_signals]. *)
Fixpoint recv_block_loop (calls : list io_call)
  (fl bytes_total bytes_rcvd minsiz maxsiz : Z) : option (Z * Z) :=
  if negb (flag_set fl DISCONNECT_FLAG) && (bytes_total <? minsiz) then
    match calls with
    | [] => None
    | c :: calls' =>
        let recvsiz := to_size_t (maxsiz - bytes_total) in
        let fl := Z.lor fl (io_signals c) in
        match io_res_of c with
        | IoBytes avail =>
            let n := Z.min (Z.of_N avail) recvsiz in
            if n =? 0
            then Some (recv_block_end (Z.lor fl DISCONNECT_FLAG)
                         bytes_total n)
            else recv_block_loop calls' fl (to_size_t (bytes_total + n)) n
                   minsiz maxsiz
        | IoEINTR =>
            if flag_set fl SHUTDOWN_FLAG && (bytes_total =? 0)
            then Some (0, fl)
            else recv_block_loop calls' fl bytes_total (-1) minsiz maxsiz
        | _ => Some (recv_block_end fl bytes_total (-1))
        end
    end
  else Some (recv_block_end fl bytes_total bytes_rcvd).

Definition recv_block (calls : list io_call) (fl minsiz maxsiz : Z)
  : option (Z * Z) :=
  recv_block_loop calls fl 0 0 minsiz maxsiz.

(** The first call of [recv_block] in [recv_prod]: [minsiz] and
    [recvsiz] as the code computes them from the size in the header and
    the size of the buffer. *)
Definition recv_prod_first_block (calls : list io_call) (fl : Z)
  (size bufsiz : Z) : option (Z * Z) :=
  let minsiz := MIN size FIRST_BLK_SIZE in
  let bytes_left := to_int size in
  let recvsiz := MIN (to_size_t bytes_left) bufsiz in
  recv_block calls fl minsiz recvsiz.

(** The loop of [write_block]; [retry] only chooses the length of the
    sleep.  Returns the return value. *)
Fixpoint write_block_loop (calls : list io_call) (fl blksiz bytes_left : Z)
  : option Z :=
  if bytes_left >? 0 then
    match calls with
    | [] => None
    | c :: calls' =>
        let fl := Z.lor fl (io_signals c) in
        match io_res_of c with
        | IoBytes avail =>
            let wbytes := Z.min (Z.of_N avail) bytes_left in
            write_block_loop calls' fl blksiz (to_size_t (bytes_left - wbytes))
        | IoEINTR => write_block_loop calls' fl blksiz bytes_left
        | IoENOSPC =>
            if flag_set fl SHUTDOWN_FLAG then Some (-1)
            else write_block_loop calls' fl blksiz bytes_left
        | IoFail => Some (-1)
        end
    end
  else Some (to_int (to_size_t (blksiz - bytes_left))).

Definition write_block (calls : list io_call) (fl blksiz : Z) : option Z :=
  write_block_loop calls fl blksiz blksiz.

(** No handler has raised the disconnect flag. *)
Definition no_disconnect (c : io_call) : Prop :=
  Z.land (io_signals c) DISCONNECT_FLAG = 0.

End ServBlock.

(* ===================================================================== *)
(** * client_send.c: the sequence number                                  *)
(* ===================================================================== *)

Module ClientSeqno.
Import Share Client ClientSend.

(** What one step of the send loop may do to [ProdSeqno]: leave it, reset
    it to 0, or move it on by [NEXT_SEQNO]. *)
Definition seq_step (s s' : loop_state) : Prop :=
  ProdSeqno s' = ProdSeqno s \/ ProdSeqno s' = 0
  \/ ProdSeqno s' = NEXT_SEQNO (ProdSeqno s).

End ClientSeqno.

(* ===================================================================== *)
(** * serv_store.c, serv_main.c: the name of the output file              *)
(* ===================================================================== *)

Module ServStore.
Import Share.

Definition FILENAME_LEN : Z := 256.

(** [sprintf(p_prod->filename, "%s/%.5d-%.6d", ServOpt.outdir, getpid(),
    p_prod->seqno%1000000)]. *)
Definition out_path (outdir : list ascii) (pid : Z) (p_prod : prod_info_t)
  : list ascii :=
  outdir ++ ["/"] ++ fmt_d 5 pid ++ ["-"]
    ++ fmt_d 6 (Z.rem (seqno p_prod) 1000000).

(** [get_out_path] as built without the WMO file table.  The name and its
    final NUL go to [filename[FILENAME_LEN]]; the store is undefined
    ([None]) when they do not fit.  Returns the return value and
    [*p_prod]. *)
Definition get_out_path (outdir : list ascii) (pid : Z)
  (p_prod : prod_info_t) : option (Z * prod_info_t) :=
  let name := out_path outdir pid p_prod in
  if Z.of_nat (length name) + 1 <=? FILENAME_LEN
  then Some (0, set_filename name p_prod)
  else None.

(** The case ['D'] of [process_args] of the server: [None] is [exit(1)],
    otherwise the new [ServOpt.outdir]. *)
Definition opt_D (optarg : list ascii) : option (list ascii) :=
  let dirlen := Z.of_nat (length optarg) in
  let dirlen :=
    if (dirlen >? 1)
       && match optarg !! Z.to_nat (dirlen - 1) with
          | Some c => Ascii.eqb c "/"
          | None => false
          end
    then dirlen - 1 else dirlen in
  if dirlen + 12 >? FILENAME_LEN then None
  else Some (take (Z.to_nat dirlen) optarg).

End ServStore.

(* ===================================================================== *)
(** * serv_dispatch.c: the table of workers                               *)
(* ===================================================================== *)

Module ServDispatch.

(** The statics [WorkerPids] and [WorkerCount].  The table is the array
    of [ServOpt.max_worker] entries [dispatcher] allocates; the loops
    over [i_wrkr < ServOpt.max_worker] walk it from end to end. *)
Record workers : Type := mk_workers {
  WorkerPids : list Z;
  WorkerCount : Z
}.

(** The loop of [verify_workers]; [alive pid] tells whether
    [kill(pid, 0)] succeeds. *)
Fixpoint verify_loop (alive : Z -> bool) (pids : list Z) (cnt : Z)
  : list Z * Z :=
  match pids with
  | [] => ([], cnt)
  | p :: r =>
      if p >? 0 then
        if alive p then
          let '(r', c) := verify_loop alive r (cnt + 1) in (p :: r', c)
        else
          let '(r', c) := verify_loop alive r cnt in (0 :: r', c)
      else
        let '(r', c) := verify_loop alive r cnt in (p :: r', c)
  end.

Definition verify_workers (alive : Z -> bool) (w : workers) : workers :=
  let '(pids, cnt) := verify_loop alive (WorkerPids w) 0 in
  mk_workers pids cnt.

(** "find an available worker slot": the index the first loop of
    [fork_service] stops at. *)
Fixpoint find_slot (pids : list Z) : nat :=
  match pids with
  | [] => O
  | p :: r => if p <=? 0 then O else S (find_slot r)
  end.

(** [fork_service] in the dispatcher; [fork_res] is what [fork] returns
    there, the pid of the child or -1.  (In the child, the process runs
    [service] and exits.)  Returns the return value and the statics. *)
Definition fork_service (alive : Z -> bool) (fork_res : Z) (w : workers)
  : Z * workers :=
  let i_wrkr := find_slot (WorkerPids w) in
  if (length (WorkerPids w) <=? i_wrkr)%nat
  then (-1, verify_workers alive w)
  else
    let w1 := mk_workers (<[i_wrkr := fork_res]> (WorkerPids w))
                         (WorkerCount w) in
    if fork_res =? -1 then (-1, w1) else (0, w1).

(** The loop of [wait_for_worker] looking for [child_pid]. *)
Fixpoint release (child_pid : Z) (pids : list Z) : option (list Z) :=
  match pids with
  | [] => None
  | p :: r =>
      if p =? child_pid then Some (0 :: r)
      else match release child_pid r with
           | Some r' => Some (p :: r')
           | None => None
           end
  end.

(** [wait_for_worker], the handler of SIGCHLD; [child_pid] is what
    [waitpid(0, &wait_stat, WNOHANG)] returns. *)
Definition wait_for_worker (child_pid : Z) (w : workers) : workers :=
  if child_pid =? -1 then w
  else
    match release child_pid (WorkerPids w) with
    | Some pids => mk_workers pids (WorkerCount w - 1)
    | None => w
    end.

(** What one turn of the loop of [dispatcher] does with a connection. *)
Inductive turn : Type :=
| Refused          (* "no more connections": sleep and continue *)
| NoConnection     (* accept failed *)
| Forked           (* a worker serves the connection *)
| Dropped          (* fork_service returned -1: the connection is shut down *).

(** One turn of the loop of [dispatcher] with [max_worker > 0], once the
    listen socket exists: [accepted] tells whether [accept] returned a
    connection. *)
Definition dispatch_turn (max_worker : Z) (alive : Z -> bool)
  (accepted : bool) (fork_res : Z) (w : workers) : turn * workers :=
  let w1 :=
    if WorkerCount w >=? max_worker then verify_workers alive w else w in
  if WorkerCount w1 >=? max_worker then (Refused, w1)
  else if negb accepted then (NoConnection, w1)
  else
    let '(rc, w2) := fork_service alive fork_res w1 in
    if rc <? 0 then (Dropped, w2) else (Forked, w2).

(** The statics when the loop of [dispatcher] is entered. *)
Definition dispatcher_init (max_worker : Z) : workers :=
  mk_workers (replicate (Z.to_nat max_worker) 0) 0.

(** What happens to the table: a turn of the loop, or the signal of a
    child between two turns. *)
Inductive event : Type :=
| Turn (alive : Z -> bool) (accepted : bool) (fork_res : Z)
| Sigchld (child_pid : Z).

Definition apply_event (max_worker : Z) (ev : event) (w : workers)
  : workers :=
  match ev with
  | Turn alive accepted fork_res =>
      snd (dispatch_turn max_worker alive accepted fork_res w)
  | Sigchld child_pid => wait_for_worker child_pid w
  end.

(** The number of slots that hold the pid of a worker. *)
Definition busy (pids : list Z) : Z :=
  Z.of_nat (length (filter (fun p => 0 < p) pids)).

End ServDispatch.

(* ===================================================================== *)
(** * client_queue.c: what a poll takes                                   *)
(* ===================================================================== *)

Module ClientPoll.
Import Share Client ClientQueue ClientSend.

(** <sys/stat.h>: the file type field of [st_mode] and its values. *)
Definition S_IFMT : Z := 61440.    (* 0170000 *)
Definition S_IFIFO : Z := 4096.    (* 0010000 *)
Definition S_IFCHR : Z := 8192.    (* 0020000 *)
Definition S_IFDIR : Z := 16384.   (* 0040000 *)
Definition S_IFBLK : Z := 24576.   (* 0060000 *)
Definition S_IFSOCK : Z := 49152.  (* 0140000 *)

(** The item [get_next_file] adds to the queue for an entry. *)
Definition queue_item (poll_dir : list ascii) (prio : Z) (name : list ascii)
  (st : stat_t) : prod_info_t :=
  mk_prod 0 (poll_dir ++ ["/"] ++ name) (st_size st) 0 "000" 0 (st_mtime st)
          0 prio None.

(** The product of slot [x] is in the window: on the ack list or on the
    retry list. *)
Definition in_window (t : prod_tbl_t) (x : nat) : Prop :=
  In x (list_content AckList t) \/ In x (list_content RetrList t).

(** [it] is the item of the entry [e] of the directory [poll_dir], and the
    entry is one the poll takes. *)
Definition taken_from (t : prod_tbl_t) (poll_dir : list ascii) (prio : Z)
  (e : dirent_in) (it : prod_info_t) : Prop :=
  starts_with_dot (d_name e) = false
  /\ exists st,
       d_stat e = Some st
       /\ it = queue_item poll_dir prio (d_name e) st
       /\ Z.land (st_mode st) (Z.lor S_IFREG S_IFLNK) <> 0
       /\ Z.land (st_mode st) PERM_MASK <> 0
       /\ (st_size st = 0 -> st_mtime st <= d_now e - A_FEW_SECONDS)
       /\ forall x, in_window t x -> filename (slot t x) <> filename it.

(** An item of the queue comes from an entry of one of the input
    directories, with the priority of that directory. *)
Definition polled (opts : client_opt) (t : prod_tbl_t) (env : poll_env)
  (it : prod_info_t) : Prop :=
  exists i poll_dir ents e,
    indir_list opts !! i = Some poll_dir
    /\ listing env i = Some ents
    /\ In e ents
    /\ taken_from t poll_dir
         (Z.of_nat (length (indir_list opts)) - 1 - Z.of_nat i) e it.

End ClientPoll.

(* ===================================================================== *)
(** * wmo.c                                                               *)
(* ===================================================================== *)

Module Wmo.
Import Share.

Definition WMO_CCCC_LEN : nat := 4.
Definition WMO_BBB_LEN : nat := 3.
Definition WMO_NNNXXX_LEN : nat := 6.
Definition WMO_NNNXXX_MIN_LEN : nat := 4.

(** <ctype.h> in the C locale (the programs never call [setlocale]). *)
Definition isalpha (c : ascii) : bool :=
  let n := N_of_ascii c in
  (((65 <=? n) && (n <=? 90)) || ((97 <=? n) && (n <=? 122)))%N.

Definition isalnum (c : ascii) : bool := isalpha c || isdigit c.

Definition isprint (c : ascii) : bool :=
  let n := N_of_ascii c in ((32 <=? n) && (n <=? 126))%N.

(** The WMO fields of [prod_info_t], as C strings. *)
Record wmo_t : Type := mk_wmo {
  wmo_ttaaii : list ascii;
  wmo_cccc : list ascii;
  wmo_ddhhmm : list ascii;
  wmo_bbb : list ascii;
  wmo_nnnxxx : list ascii
}.

Definition set_ttaaii (v : list ascii) (w : wmo_t) : wmo_t :=
  mk_wmo v (wmo_cccc w) (wmo_ddhhmm w) (wmo_bbb w) (wmo_nnnxxx w).
Definition set_cccc (v : list ascii) (w : wmo_t) : wmo_t :=
  mk_wmo (wmo_ttaaii w) v (wmo_ddhhmm w) (wmo_bbb w) (wmo_nnnxxx w).
Definition set_ddhhmm (v : list ascii) (w : wmo_t) : wmo_t :=
  mk_wmo (wmo_ttaaii w) (wmo_cccc w) v (wmo_bbb w) (wmo_nnnxxx w).
Definition set_bbb (v : list ascii) (w : wmo_t) : wmo_t :=
  mk_wmo (wmo_ttaaii w) (wmo_cccc w) (wmo_ddhhmm w) v (wmo_nnnxxx w).
Definition set_nnnxxx (v : list ascii) (w : wmo_t) : wmo_t :=
  mk_wmo (wmo_ttaaii w) (wmo_cccc w) (wmo_ddhhmm w) (wmo_bbb w) v.

(** ** Reading the buffer

    The buffer is the array [buf] points into, as far as it goes; [s] is
    what is left of it at the pointer [p_wmo], whose offset from [buf] is
    [p].  A test [f(p_wmo[i])] reads a byte of the array; it is undefined
    ([None]) outside the array.  [&&] and [||] evaluate their right
    operand only if the left one does not decide. *)

Definition on (f : ascii -> bool) (s : list ascii) (i : nat) : option bool :=
  f <$> s !! i.

Definition and_then (a b : option bool) : option bool :=
  match a with Some true => b | _ => a end.

Definition or_else (a b : option bool) : option bool :=
  match a with Some false => b | _ => a end.

Infix "&&&" := and_then (at level 40, left associativity).
Infix "|||" := or_else (at level 50, left associativity).

Definition is_char (x : ascii) (c : ascii) : bool := Ascii.eqb c x.

Definition CR : ascii := "013".
Definition LF : ascii := "010".

(** [sprintf(dst, "%.*s", n, p_wmo)]: at most [n] bytes, up to a NUL. *)
Definition str_prec (n : nat) (s : list ascii) : list ascii :=
  c_str (take n s).

(** [!strncmp(p_wmo, "\r\r\n", 3)]. *)
Definition at_eoh (s : list ascii) : option bool :=
  on (is_char CR) s 0 &&& on (is_char CR) s 1 &&& on (is_char LF) s 2.

(** ** TTAAII *)

Inductive scan_res : Type :=
| Found (ttaaii : list ascii) (p : nat)   (* field stored, [break] *)
| Eoh                                     (* [break] at the end of the heading *)
| Next                                    (* next turn of the loop *).

(** [isspace(p_wmo[WMO_I2+1]) || isalpha(p_wmo[WMO_I2+1])]. *)
Definition after_ii (s : list ascii) : option bool :=
  on isspace s 6 ||| on isalpha s 6.

(** The body of the first loop. *)
Definition ttaaii_at (s : list ascii) (p : nat) : option scan_res :=
  a4 ← on isalpha s 0 &&& on isalpha s 1 &&& on isalpha s 2
         &&& on isalpha s 3;
  if a4 : bool then
    c1 ← on isdigit s 4 &&& on isdigit s 5 &&& after_ii s;
    if c1 : bool then Some (Found (str_prec 6 s) (p + 6)%nat)
    else
      c2 ← on isdigit s 4 &&& on isspace s 5 &&& after_ii s;
      if c2 : bool then
        i1 ← s !! 4%nat; Some (Found (str_prec 4 s ++ ["0"; i1]) (p + 5)%nat)
      else
        c3 ← on isspace s 4 &&& on isdigit s 5 &&& after_ii s;
        if c3 : bool then
          i2 ← s !! 5%nat;
          Some (Found (str_prec 4 s ++ ["0"; i2]) (p + 6)%nat)
        else
          c4 ← on isdigit s 4 &&& on isalpha s 5;
          if c4 : bool then
            i1 ← s !! 4%nat;
            Some (Found (str_prec 4 s ++ ["0"; i1]) (p + 5)%nat)
          else Some Next
  else
    a3 ← on isalpha s 0 &&& on isalpha s 1 &&& on isalpha s 2
           &&& on isdigit s 3;
    if a3 : bool then
      c1 ← on isdigit s 4 &&& on isdigit s 5 &&& after_ii s;
      if c1 : bool then Some (Found (str_prec 6 s) (p + 6)%nat)
      else Some Next
    else
      e ← at_eoh s;
      if e : bool then Some Eoh else Some Next.

(** [for (p_wmo = buf; p_wmo + WMO_I2 + 1 < buf + buflen; p_wmo++)]: the
    field and the pointer at a [break] with the field stored, nothing if
    the loop leaves the field empty. *)
Fixpoint find_ttaaii (buflen : nat) (s : list ascii) (p : nat)
  : option (option (list ascii * nat)) :=
  if (p + 6 <? buflen)%nat then
    match ttaaii_at s p with
    | None => None
    | Some (Found t p') => Some (Some (t, p'))
    | Some Eoh => Some None
    | Some Next =>
        match s with
        | [] => None
        | _ :: r => find_ttaaii buflen r (S p)
        end
    end
  else Some None.

Inductive ttaa_res : Type :=
| Ttaa (ttaaii : list ascii) (p : nat)  (* go on at [p] with this field *)
| GiveUp                                (* [return -1] *).

(** The test of the second loop, for "TTAA CCCC ". *)
Definition ttaa_at (s : list ascii) : option bool :=
  on isalpha s 0 &&& on isalpha s 1 &&& on isalpha s 2 &&& on isalpha s 3
    &&& on isspace s 4 &&& on isalpha s 5 &&& on isalpha s 6
    &&& on isalpha s 7 &&& on isalpha s 8 &&& on isspace s 9.

(** [for (p_wmo = buf; p_wmo + 9 < buf + buflen; p_wmo++)]: when the loop
    runs out, the field is empty and the pointer stays where the loop
    left it. *)
Fixpoint find_ttaa (buflen : nat) (s : list ascii) (p : nat)
  : option ttaa_res :=
  if (p + 9 <? buflen)%nat then
    c ← ttaa_at s;
    if c : bool then Some (Ttaa (str_prec 4 s ++ ["0"; "0"]) (p + 4)%nat)
    else
      e ← at_eoh s;
      if e : bool then Some GiveUp
      else match s with
           | [] => None
           | _ :: r => find_ttaa buflen r (S p)
           end
  else Some (Ttaa [] p).

(** ** The loops over white space *)

(** [while (isspace( *p_wmo) && p_wmo < buf + buflen) { p_wmo++; spaces++; }]:
    the byte is read before the pointer is compared.  Returns the pointer
    and the count. *)
Fixpoint skip_spaces (buflen : nat) (s : list ascii) (p spaces : nat)
  : option (nat * nat) :=
  match s with
  | [] => None
  | c :: r =>
      if isspace c && (p <? buflen)%nat
      then skip_spaces buflen r (S p) (S spaces)
      else Some (p, spaces)
  end.

(** [while (p_wmo < buf + buflen && isspace( *p_wmo)) p_wmo++;] *)
Fixpoint skip_to_text (buflen : nat) (s : list ascii) (p : nat)
  : option nat :=
  if (p <? buflen)%nat then
    match s with
    | [] => None
    | c :: r => if isspace c then skip_to_text buflen r (S p) else Some p
    end
  else Some p.

(** [for (i = 1; p_wmo + i < buf + buflen && i < len; i++)
       if (!f(p_wmo[i])) break;]
    with [fuel = len - i]: the value of [i] after the loop. *)
Fixpoint run_len (f : ascii -> bool) (buflen : nat) (s : list ascii)
  (p : nat) (fuel i : nat) : option nat :=
  match fuel with
  | O => Some i
  | S k =>
      if (p + i <? buflen)%nat then
        c ← s !! i;
        if f c : bool then run_len f buflen s p k (S i) else Some i
      else Some i
  end.

(** ** CCCC, DDHHMM, BBB, NNNXXX *)

(** A step either returns from [parse_wmo] or goes on. *)
Inductive step_res : Type :=
| Return (rc : Z) (w : wmo_t)
| Goes (p : nat) (w : wmo_t).

Definition parse_cccc (buf : list ascii) (buflen p : nat) (w : wmo_t)
  : option step_res :=
  '(p, _) ← skip_spaces buflen (drop p buf) p 0;
  let s := drop p buf in
  if (buflen <? p + WMO_CCCC_LEN)%nat then Some (Return (-1) w)
  else
    c ← on isalpha s 0 &&& on isalnum s 1 &&& on isalpha s 2
          &&& on isalnum s 3;
    if c : bool
    then Some (Goes (p + WMO_CCCC_LEN)
                 (set_cccc (str_prec WMO_CCCC_LEN s) w))
    else Some (Return (-1) w).

Definition digits (k : nat) (s : list ascii) : option bool :=
  fold_left (fun acc i => acc &&& on isdigit s i) (seq 0 k) (Some true).

Definition is_empty (v : list ascii) : bool :=
  match v with [] => true | _ => false end.

Definition parse_ddhhmm (buf : list ascii) (buflen p : nat) (w : wmo_t)
  : option (nat * wmo_t) :=
  '(p, spaces) ← skip_spaces buflen (drop p buf) p 0;
  (* case1: 6 digit date-time group *)
  '(p, w) ←
    (if (p + 6 <=? buflen)%nat then
       c ← digits 6 (drop p buf);
       if c : bool
       then Some ((p + 6)%nat, set_ddhhmm (str_prec 6 (drop p buf)) w)
       else Some (p, w)
     else Some (p, w));
  (* case2: 4 digit date-time group *)
  '(p, w) ←
    (if is_empty (wmo_ddhhmm w) && (p + 5 <=? buflen)%nat then
       c ← digits 4 (drop p buf) &&& on isspace (drop p buf) 4;
       if c : bool
       then Some ((p + 4)%nat,
                  set_ddhhmm (str_prec 4 (drop p buf) ++ ["0"; "0"]) w)
       else Some (p, w)
     else Some (p, w));
  (* case3: leading 0 of the date-time group is a space *)
  '(p, w) ←
    (if is_empty (wmo_ddhhmm w) && (p + 5 <=? buflen)%nat then
       c ← Some (1 <? spaces)%nat &&& digits 5 (drop p buf);
       if c : bool
       then Some ((p + 5)%nat,
                  set_ddhhmm ("0" :: str_prec 5 (drop p buf)) w)
       else Some (p, w)
     else Some (p, w));
  (* strip off trailing 'Z' *)
  z ← on (is_char "Z") (drop p buf) 0;
  Some (if z : bool then S p else p, w).

(** The loop "make sure we have a <cr> and/or <lf>, parse bbb if
    present"; every turn moves the pointer, so [buflen - p] turns are
    enough and the fuel is not used up. *)
Fixpoint parse_bbb (fuel : nat) (buf : list ascii) (buflen p : nat)
  (w : wmo_t) : option step_res :=
  if (p <? buflen)%nat then
    match fuel with
    | O => None
    | S fuel' =>
        let s := drop p buf in
        c ← s !! 0%nat;
        if Ascii.eqb c CR || Ascii.eqb c LF then Some (Goes p w)
        else if isalpha c then
          if negb (is_empty (wmo_bbb w)) then Some (Return (-1) w)
          else
            i_bbb ← run_len isalpha buflen s p (WMO_BBB_LEN - 1) 1;
            ok ← Some (p + i_bbb <? buflen)%nat &&& on isspace s i_bbb;
            if ok : bool
            then parse_bbb fuel' buf buflen (p + i_bbb)%nat
                   (set_bbb (str_prec i_bbb s) w)
            else Some (Return (-1) w)
        else if isspace c then parse_bbb fuel' buf buflen (S p) w
        else Some (Return (-1) w)
    end
  else Some (Goes p w).

(** "The NNNXXX must be on its own line": the loop from [i_crlf =
    i_nnnxxx]; [true] when the field is stored. *)
Fixpoint own_line (buflen : nat) (s : list ascii) (q : nat) : option bool :=
  if (q <? buflen)%nat then
    match s with
    | [] => None
    | c :: r =>
        if Ascii.eqb c CR || Ascii.eqb c LF then Some true
        else if negb (isspace c) then Some false
        else own_line buflen r (S q)
    end
  else Some false.

Definition parse_nnnxxx (buf : list ascii) (buflen p : nat) (w : wmo_t)
  : option wmo_t :=
  p ← skip_to_text buflen (drop p buf) p;
  let s := drop p buf in
  i_nnnxxx ← run_len isalnum buflen s p (WMO_NNNXXX_LEN - 1) 1;
  if (WMO_NNNXXX_MIN_LEN <=? i_nnnxxx)%nat then
    l ← own_line buflen (drop i_nnnxxx s) (p + i_nnnxxx);
    Some (if l : bool then set_nnnxxx (str_prec i_nnnxxx s) w else w)
  else Some w.

Definition no_wmo : wmo_t := mk_wmo [] [] [] [] [].

(** [parse_wmo(buf, buflen, p_prod)]: the return value and the five WMO
    fields of [*p_prod]. *)
Definition parse_wmo (buf : list ascii) (buflen : nat)
  : option (Z * wmo_t) :=
  r1 ← find_ttaaii buflen buf 0;
  r2 ← match r1 with
       | Some (t, p) => Some (Ttaa t p)
       | None => find_ttaa buflen buf 0
       end;
  match r2 with
  | GiveUp => Some (-1, no_wmo)
  | Ttaa t p =>
      r3 ← parse_cccc buf buflen p (set_ttaaii t no_wmo);
      match r3 with
      | Return rc w => Some (rc, w)
      | Goes p w =>
          '(p, w) ← parse_ddhhmm buf buflen p w;
          r4 ← parse_bbb buflen buf buflen p w;
          match r4 with
          | Return rc w => Some (rc, w)
          | Goes p w => w ← parse_nnnxxx buf buflen p w; Some (0, w)
          end
      end
  end.

(** ** Vocabulary of the statements *)

(** The lengths the arrays of [prod_info_t] leave for the fields. *)
Definition fits (w : wmo_t) : Prop :=
  (length (wmo_ttaaii w) <= 6 /\ length (wmo_cccc w) <= 4
   /\ length (wmo_ddhhmm w) <= 6 /\ length (wmo_bbb w) <= 3
   /\ length (wmo_nnnxxx w) <= 6)%nat.

Definition blank (c : ascii) : Prop := c = " ".

(** ** debug_buf *)

(** [debug_buf(buf, buflen)] with the static [outbuf] of 100 bytes as
    the call finds it: the array afterwards, which is what the returned
    pointer points to.  A read of [buf] outside its array is undefined. *)
Definition debug_char (c : ascii) : ascii :=
  if isprint c then c
  else if Ascii.eqb c CR || Ascii.eqb c LF then "*"
  else "?".

Definition debug_buf (outbuf buf : list ascii) (buflen : Z)
  : option (list ascii) :=
  let buflen := if buflen >? 100 then 99 else buflen in
  let n := Z.to_nat buflen in
  if (n <=? length buf)%nat
  then Some (map debug_char (take n buf) ++ drop n outbuf)
  else None.

End Wmo.

(* ===================================================================== *)
(** * client_queue.c: where a finished file goes                          *)
(* ===================================================================== *)

Module ClientFinish.
Import Share ClientSend ServService ServStore.

(** [sprintf(junkbuf, "%d", v)]: the number of characters written. *)
Definition digits_of (v : Z) : nat := length (fmt_d 1 v).

(** [sprintf(path, "%s/%.*d", dir, <digits of sent_count-1>, file_count)]
    of [finish_send] and [abort_send]; [file_count] is an [unsigned int]
    printed as an [int]. *)
Definition rotate_path (dir : list ascii) (sent_count file_count : Z)
  : list ascii :=
  dir ++ ["/"] ++ fmt_d (digits_of (to_int (sent_count - 1)))
                        (to_int file_count).

(** [file_count++; file_count %= ClientOpt.sent_count;] in unsigned
    arithmetic; a division by zero is undefined. *)
Definition next_file_count (sent_count file_count : Z) : option Z :=
  let n := to_uint sent_count in
  if n =? 0 then None else Some (to_uint (file_count + 1) mod n).

(** What [finish_send] (with [dir] the sent directory) and [abort_send]
    (with the fail directory) do to the file: [rename_rc] is what
    [my_rename] returns.  The path and its NUL go to an array of
    [FILENAME_LEN] bytes.  The lines written to the product log are left
    out.  Returns [*p_prod] and the static [file_count]. *)
Definition move_done (dir : list ascii) (sent_count : Z) (rename_rc : Z)
  (file_count : Z) (p_prod : prod_info_t) : option (prod_info_t * Z) :=
  let path := rotate_path dir sent_count file_count in
  if Z.of_nat (length path) <? FILENAME_LEN then
    let p_prod :=
      if rename_rc <? 0 then p_prod else set_filename path p_prod in
    fc ← next_file_count sent_count file_count;
    Some (p_prod, fc)
  else None.

(** The static [file_count] after [k] calls, from [fc]. *)
Fixpoint count_after (sent_count : Z) (k : nat) (fc : Z) : option Z :=
  match k with
  | O => Some fc
  | S k' => next_file_count sent_count fc ≫= count_after sent_count k'
  end.

End ClientFinish.

(* ===================================================================== *)
(** * share.c: my_copy                                                    *)
(* ===================================================================== *)

Module ShareCopy.
Import Share ServBlock.

(** [sizeof(buffer)]. *)
Definition COPY_BUFSIZE : Z := 8192.

(** [(size_t)-1]: what [readlen] and [writelen] hold after a call that
    returned -1. *)
Definition SIZE_T_MINUS_1 : Z := to_size_t (-1).

(** What [read] or [write] on [count] bytes returns, stored in a
    [size_t]. *)
Definition io_count (r : io_res) (count : Z) : Z :=
  to_size_t match r with
            | IoBytes avail => Z.min (Z.of_N avail) count
            | _ => -1
            end.

(** The copy loop, one call of [read] per element of [reads] and one
    call of [write] per element of [writes].  Returns [readlen],
    [writelen] and the number of bytes that have reached the target;
    [None] while the loop waits for more calls, and when [write] is given
    more bytes than [buffer] holds, which happens after a [read] that
    returned -1: [readlen], a [size_t], is then greater than 0. *)
Fixpoint copy_loop (reads writes : list io_res) (writelen copied : Z)
  : option (Z * Z * Z) :=
  match reads with
  | [] => None
  | r :: reads' =>
      let readlen := io_count r COPY_BUFSIZE in
      if readlen >? 0 then
        if readlen >? COPY_BUFSIZE then None
        else
          match writes with
          | [] => None
          | w :: writes' =>
              let writelen := io_count w readlen in
              if negb (writelen =? readlen) then
                Some (readlen, writelen,
                      if writelen =? SIZE_T_MINUS_1 then copied
                      else copied + writelen)
              else copy_loop reads' writes' writelen (copied + writelen)
          end
      else Some (readlen, writelen, copied)
  end.

(** What the file system answers to [my_copy]: whether the source opens,
    the [errno] of the first [open] of the target ([None] when it
    succeeds), the return value of [my_mkdir], whether the second [open]
    succeeds, and the calls of [read] and [write]. *)
Record copy_env : Type := mk_copy_env {
  open_source_ok : bool;
  open_target_errno : option Z;
  copy_mkdir_rc : Z;
  reopen_ok : bool;
  copy_reads : list io_res;
  copy_writes : list io_res
}.

(** The head of [my_copy]: whether both files are open when the copy
    loop starts; otherwise the function returns -1. *)
Definition files_open (ENOENT : Z) (e : copy_env) (target : list ascii)
  : bool :=
  open_source_ok e
  && match open_target_errno e with
     | None => true
     | Some errno =>
         if errno =? ENOENT then
           match strrchr target "/" with
           | Some (S _) =>
               if copy_mkdir_rc e =? -1 then false else reopen_ok e
           | _ => false
           end
         else false
     end.

(** Returns the return value, the number of bytes written to the target
    and whether the target has been removed again. *)
Definition my_copy (ENOENT : Z) (e : copy_env) (target : list ascii)
  : option (Z * Z * bool) :=
  if negb (files_open ENOENT e target) then Some (-1, 0, false)
  else
    match copy_loop (copy_reads e) (copy_writes e) 0 0 with
    | None => None
    | Some (readlen, writelen, copied) =>
        if readlen =? SIZE_T_MINUS_1 then Some (-1, copied, false)
        else if (readlen =? SIZE_T_MINUS_1) || (writelen =? SIZE_T_MINUS_1)
        then Some (-1, copied, true)
        else Some (0, copied, false)
    end.

(** The bytes a list of calls of [read] delivers. *)
Definition bytes_read (rs : list N) : Z :=
  fold_right (fun r acc => Z.min (Z.of_N r) COPY_BUFSIZE + acc) 0 rs.

End ShareCopy.

(* ===================================================================== *)
(** * serv_main.c, serv_recv.c: how the output file is opened             *)
(* ===================================================================== *)

Module ServOpen.
Import Share.

Definition OVER_WRITE_FLAG : Z := 1.
Definition TOGGLE_PERMS_FLAG : Z := 2.

(** <sys/stat.h>: the permission bits the server uses. *)
Definition S_IWUSR : Z := 128.          (* 0200 *)
Definition DFLT_FILE_PERMS : Z := 438.  (* 0666 *)

(** The options of the server that change [ServOpt.outfile_flags]. *)
Inductive flag_opt : Type := OptO | OptP.

Section OpenFlags.

(** The values <fcntl.h> gives the flags of [open]. *)
Variables O_WRONLY O_CREAT O_EXCL O_TRUNC : Z.

(** [ServOpt.outfile_flags] as [process_args] leaves it: the default,
    then [|=] for each [-O] and [-P] on the command line. *)
Definition outfile_flags (opts : list flag_opt) : Z :=
  fold_left
    (fun fl o =>
       match o with
       | OptO => Z.lor fl OVER_WRITE_FLAG
       | OptP => Z.lor fl TOGGLE_PERMS_FLAG
       end)
    opts (Z.lor (Z.lor O_WRONLY O_CREAT) O_EXCL).

(** The head of [open_out_file]: the flags and the permissions it gives
    to [open]. *)
Definition open_args (fl : Z) : Z * Z :=
  let perms :=
    if negb (Z.land fl TOGGLE_PERMS_FLAG =? 0) then S_IWUSR
    else DFLT_FILE_PERMS in
  let oflags :=
    if negb (Z.land fl OVER_WRITE_FLAG =? 0)
    then Z.lor (Z.lor O_WRONLY O_CREAT) O_TRUNC
    else Z.lor (Z.lor O_WRONLY O_CREAT) O_EXCL in
  (oflags, perms).

End OpenFlags.

End ServOpen.

(* ===================================================================== *)
(** * serv_recv.c: recv_prod                                              *)
(* ===================================================================== *)

Module ServProd.
Import Share ClientSend ServBlock.

(** What the callees of [recv_prod] answer in one turn of its loop:
    [recv_block] for the [minsiz] and [maxsiz] it is given, and
    [write_block] for the block size it is given. *)
Record block_in : Type := mk_block_in {
  bk_recv : Z -> Z -> Z;
  bk_write : Z -> Z
}.

(** What the other callees answer: [recv_conn_msg] when the first block
    is a connection message ([None] when it is not one), [get_out_path],
    [open_out_file], whether [TOGGLE_PERMS_FLAG] is set, [chmod],
    [finish_recv] and [send_ack]. *)
Record prod_env : Type := mk_prod_env {
  pe_conn : option Z;
  pe_path_rc : Z;
  pe_open_rc : Z;
  pe_toggle : bool;
  pe_chmod_rc : Z;
  pe_finish_rc : Z;
  pe_send_ack_rc : Z
}.

(** What a call of [recv_prod] has done when it returns: the return
    value, the code it gave to [send_ack] if it called it (the inner
    [None]: [ack_code] was never assigned), the bytes taken off the
    socket and written to the file, and whether [abort_recv] was called. *)
Record prod_res : Type := mk_prod_res {
  pr_rc : Z;
  pr_ack : option (option ascii);
  pr_consumed : Z;
  pr_written : Z;
  pr_aborted : bool
}.

(** The variables of the loop. *)
Record prod_vars : Type := mk_prod_vars {
  bytes_left : Z;
  minsiz : Z;
  out_fd : Z;
  ack_code : option ascii;
  consumed : Z;
  written : Z;
  aborted : bool
}.

(** What follows the loop. *)
Definition recv_prod_end (e : prod_env) (v : prod_vars) : prod_res :=
  let send (code : option ascii) (ab : bool) :=
    mk_prod_res (if pe_send_ack_rc e <? 0 then -1 else 0) (Some code)
                (consumed v) (written v) ab in
  if out_fd v >=? 0 then
    if pe_toggle e && (pe_chmod_rc e <? 0) then send (Some ACK_RETRY) true
    else if pe_finish_rc e <? 0 then send (Some ACK_FAIL) (aborted v)
    else if pe_finish_rc e >? 0 then send (Some ACK_RETRY) (aborted v)
    else send (Some ACK_OK) (aborted v)
  else send (ack_code v) (aborted v).

(** The loop [for (bytes_left = p_prod->size; bytes_left > 0;
    bytes_left -= bytes_rcvd)], one element of [ins] per turn; [None]
    while the loop waits for more turns. *)
Fixpoint recv_prod_loop (e : prod_env) (size bufsiz : Z)
  (ins : list block_in) (v : prod_vars) : option prod_res :=
  if bytes_left v >? 0 then
    match ins with
    | [] => None
    | b :: ins' =>
        let recvsiz := MIN (to_size_t (bytes_left v)) bufsiz in
        let bytes_rcvd := bk_recv b (minsiz v) recvsiz in
        if bytes_rcvd <? 0 then
          Some (mk_prod_res (-1) None (consumed v) (written v)
                  (aborted v || (to_size_t (bytes_left v) <? size)))
        else if bytes_rcvd =? 0 then recv_prod_loop e size bufsiz ins' v
        else
          let first := to_size_t (bytes_left v) =? size in
          let after_first (k : prod_vars -> option prod_res) :=
            if first then
              match pe_conn e with
              | Some rc =>
                  Some (mk_prod_res rc None (consumed v + bytes_rcvd)
                          (written v) (aborted v))
              | None =>
                  let ack1 :=
                    if pe_path_rc e <? 0 then Some ACK_FAIL
                    else ack_code v in
                  let ack2 :=
                    if pe_open_rc e <? 0 then Some ACK_RETRY else ack1 in
                  k (mk_prod_vars (bytes_left v) 1 (pe_open_rc e) ack2
                       (consumed v) (written v) (aborted v))
              end
            else k v in
          after_first (fun v1 =>
            let v2 :=
              if out_fd v1 <? 0 then v1
              else if bk_write b bytes_rcvd <? bytes_rcvd then
                mk_prod_vars (bytes_left v1) (minsiz v1) (-1)
                  (Some ACK_RETRY) (consumed v1) (written v1) true
              else
                mk_prod_vars (bytes_left v1) (minsiz v1) (out_fd v1)
                  (ack_code v1) (consumed v1) (written v1 + bytes_rcvd)
                  (aborted v1) in
            recv_prod_loop e size bufsiz ins'
              (mk_prod_vars (to_int (bytes_left v2 - bytes_rcvd)) (minsiz v2)
                 (out_fd v2) (ack_code v2) (consumed v2 + bytes_rcvd)
                 (written v2) (aborted v2)))
    end
  else Some (recv_prod_end e v).

Definition recv_prod (e : prod_env) (size bufsiz : Z) (ins : list block_in)
  : option prod_res :=
  recv_prod_loop e size bufsiz ins
    (mk_prod_vars (to_int size) (MIN size FIRST_BLK_SIZE) (-1) None 0 0
       false).

(** An answer [recv_block] can give, as far as its size goes. *)
Definition block_answer (b : block_in) : Prop :=
  forall minsiz maxsiz,
    0 < maxsiz < 2 ^ 31 ->
    bk_recv b minsiz maxsiz = -1 \/ bk_recv b minsiz maxsiz = 0
    \/ 0 < bk_recv b minsiz maxsiz <= maxsiz.

(** What the loop of [recv_prod] keeps, for a product of [size] bytes
    that is no connection message. *)
Definition loop_keeps (e : prod_env) (size : Z) (v : prod_vars) : Prop :=
  0 <= bytes_left v /\ 0 <= consumed v
  /\ consumed v + bytes_left v = size
  /\ (bytes_left v = size ->
      out_fd v = -1 /\ ack_code v = None /\ written v = 0
      /\ aborted v = false)
  /\ (bytes_left v < size ->
      (0 <= out_fd v ->
       written v = consumed v /\ aborted v = false /\ 0 <= pe_open_rc e)
      /\ (out_fd v < 0 -> ack_code v = Some ACK_RETRY)).

(** What a call that returns 0 has done. *)
Definition in_sync (e : prod_env) (size : Z) (r : prod_res) : Prop :=
  pr_consumed r = size
  /\ (pr_ack r = Some (Some ACK_OK) \/ pr_ack r = Some (Some ACK_RETRY)
      \/ pr_ack r = Some (Some ACK_FAIL))
  /\ (pr_ack r = Some (Some ACK_OK) ->
      pr_written r = size /\ pr_aborted r = false
      /\ pe_finish_rc e = 0 /\ 0 <= pe_open_rc e).

End ServProd.

(* ===================================================================== *)
(** * More concrete inputs                                                *)
(* ===================================================================== *)

Module Samples.
Import Share Client ClientQueue ClientSend Scenarios.
Import ShareAck ClientAck ServService ServBlock ServStore ServDispatch
       ClientPoll Wmo ClientFinish ShareCopy ServOpen ServProd.

(** The array [ackbuf] of [send_ack] and [recvbuf] of [recv_ack]. *)
Definition ack_array : list ascii := repeat "000" 7.

(** An ack that arrives in two pieces: one byte first. *)
Definition ack_in_pieces : list recv_call :=
  [mk_recv_call 0 (RecvData ["a"])].

(** One product sent on a fresh connection. *)
Definition one_item : list (env * prod_info_t) := [(quiet, sample_prod)].

Definition one_sent : list prod_info_t :=
  default [] (sends (opts_window 2) one_item 0 0).

(** A product whose file is empty. *)
Definition empty_prod : prod_info_t := set_size 0 sample_prod.

(** A server started with "-b 512": the first block of a product of 2000
    bytes. *)
Definition two_reads : list io_call :=
  [mk_io_call 0 (IoBytes 512); mk_io_call 0 (IoBytes 512)].

(** A block of ten bytes written in two pieces. *)
Definition two_writes : list io_call :=
  [mk_io_call 0 (IoBytes 4); mk_io_call 0 (IoBytes 6)].

(** A table of two workers, both running. *)
Definition all_alive (pid : Z) : bool := true.
Definition full_table : workers := mk_workers [5; 6] 2.

(** A worker is started and ends. *)
Definition one_worker : list event :=
  [Turn all_alive true 100; Sigchld 100].

(** A heading and the line after it. *)
Definition sample_heading : list ascii :=
  ["S"; "X"; "U"; "S"; "2"; "0"; " "; "K"; "W"; "B"; "C"; " ";
   "1"; "2"; "1"; "5"; "3"; "0"; CR; CR; LF; "x"].

Definition sample_wmo : wmo_t :=
  mk_wmo ["S"; "X"; "U"; "S"; "2"; "0"] ["K"; "W"; "B"; "C"]
         ["1"; "2"; "1"; "5"; "3"; "0"] [] [].

(** The static array of [debug_buf] before the first call. *)
Definition fresh_outbuf : list ascii := repeat "000" 100.


(** A copy of ten bytes to a target that opens at once: the [write]
    takes all of them, takes four, or fails. *)
Definition copy_all : copy_env :=
  mk_copy_env true None 0 true [IoBytes 10; IoBytes 0] [IoBytes 8192].
Definition copy_short : copy_env :=
  mk_copy_env true None 0 true [IoBytes 10] [IoBytes 4].
Definition copy_nospace : copy_env :=
  mk_copy_env true None 0 true [IoBytes 10] [IoENOSPC].

(** [rename] fails with [EXDEV] (18) and [my_copy] returns 0. *)
Definition other_device : rename_env :=
  mk_rename_env (fun k => Some 18) 0 0 (fun _ => 0).

(** A product of three bytes that arrives in one block and is written. *)
Definition all_well : prod_env := mk_prod_env None 0 5 false 0 0 0.
Definition whole_block : block_in :=
  mk_block_in (fun minsiz maxsiz => maxsiz) (fun blksiz => blksiz).
Definition well_done : prod_res :=
  mk_prod_res 0 (Some (Some ACK_OK)) 3 3 false.

End Samples.

(* ===================================================================== *)
(** * Facts about share.c                                                 *)
(* ===================================================================== *)

Module ShareFacts.
Import Share Scenarios.

(** ** Digits *)

Lemma digit_cases d : 0 <= d < 10 ->
  d = 0 \/ d = 1 \/ d = 2 \/ d = 3 \/ d = 4 \/ d = 5 \/ d = 6 \/ d = 7 \/ d = 8 \/ d = 9.
Proof. lia. Qed.

Ltac by_digit d H :=
  destruct (digit_cases d H) as [->|[->|[->|[->|[->|[->|[->|[->|[->| ->]]]]]]]]];
  reflexivity.

Lemma isdigit_digit_char d : 0 <= d < 10 -> isdigit (digit_char d) = true.
Proof. intros H. by_digit d H. Qed.
Lemma digit_val_digit_char d : 0 <= d < 10 -> digit_val (digit_char d) = d.
Proof. intros H. by_digit d H. Qed.
Lemma isspace_digit_char d : 0 <= d < 10 -> isspace (digit_char d) = false.
Proof. intros H. by_digit d H. Qed.

Lemma mod10_range n : 0 <= n mod 10 < 10.
Proof. apply Z.mod_pos_bound. lia. Qed.

Lemma length_fixed k n : length (fixed k n) = k.
Proof.
  revert n. induction k as [|k IH]; intros n; simpl; [reflexivity|].
  rewrite length_app, IH. simpl. lia.
Qed.

Lemma fixed_zero k : fixed k 0 = repeat "0" k.
Proof.
  induction k as [|k IH]; simpl; [reflexivity|].
  change (0 / 10) with 0. rewrite IH.
  change [digit_char (0 mod 10)] with ["0"].
  symmetry. apply repeat_cons.
Qed.

Lemma decimal_fuel_pad f : forall n k,
  0 <= n < 10 ^ Z.of_nat k -> n < 10 ^ Z.of_nat f -> (1 <= k)%nat ->
  (length (decimal_fuel f n) <= k)%nat /\
  repeat "0" (k - length (decimal_fuel f n)) ++ decimal_fuel f n = fixed k n.
Proof.
  induction f as [|f IH]; intros n k Hn Hf Hk.
  { simpl in Hf. assert (n = 0) as -> by lia. simpl.
    rewrite fixed_zero, app_nil_r, Nat.sub_0_r. split; [lia|reflexivity]. }
  destruct k as [|k]; [lia|].
  cbn [decimal_fuel fixed].
  rewrite Nat2Z.inj_succ, Z.pow_succ_r in Hn by lia.
  rewrite Nat2Z.inj_succ, Z.pow_succ_r in Hf by lia.
  destruct (Z.eqb_spec (n / 10) 0) as [Hq|Hq].
  - rewrite Hq, fixed_zero. simpl. split; [lia|].
    replace (k - 0)%nat with k by lia. reflexivity.
  - assert (0 <= n / 10) by (apply Z.div_pos; lia).
    assert (Hk1 : (1 <= k)%nat).
    { destruct k; [|lia]. simpl in Hn.
      assert (n / 10 = 0) by (apply Z.div_small; lia). lia. }
    assert (Hn' : 0 <= n / 10 < 10 ^ Z.of_nat k).
    { split; [lia|]. apply Z.div_lt_upper_bound; lia. }
    assert (Hf' : n / 10 < 10 ^ Z.of_nat f).
    { apply Z.div_lt_upper_bound; lia. }
    destruct (IH (n / 10) k Hn' Hf' Hk1) as [Hl He].
    rewrite length_app. simpl. split; [lia|].
    replace (S k - (length (decimal_fuel f (n / 10)) + 1))%nat
      with (k - length (decimal_fuel f (n / 10)))%nat by lia.
    rewrite app_assoc, He. reflexivity.
Qed.

Lemma decimal_fuel_long f : forall n k,
  10 ^ Z.of_nat k <= n -> n < 10 ^ Z.of_nat f ->
  (k < length (decimal_fuel f n))%nat.
Proof.
  induction f as [|f IH]; intros n k Hlo Hhi.
  - simpl in Hhi. assert (0 < 10 ^ Z.of_nat k) by (apply Z.pow_pos_nonneg; lia). lia.
  - cbn [decimal_fuel]. rewrite length_app. simpl.
    destruct k as [|k]; [lia|].
    rewrite Nat2Z.inj_succ, Z.pow_succ_r in Hlo by lia.
    rewrite Nat2Z.inj_succ, Z.pow_succ_r in Hhi by lia.
    assert (0 < 10 ^ Z.of_nat k) by (apply Z.pow_pos_nonneg; lia).
    assert (10 ^ Z.of_nat k <= n / 10) by (apply Z.div_le_lower_bound; lia).
    destruct (Z.eqb_spec (n / 10) 0) as [Hq|Hq]; [lia|].
    assert (n / 10 < 10 ^ Z.of_nat f) by (apply Z.div_lt_upper_bound; lia).
    specialize (IH (n / 10) k ltac:(lia) ltac:(lia)). lia.
Qed.

Lemma decimal_fuel_enough n : 0 <= n ->
  n < 10 ^ Z.of_nat (S (Z.to_nat (Z.log2 n))).
Proof.
  intros Hn. rewrite Nat2Z.inj_succ, Z2Nat.id by apply Z.log2_nonneg.
  destruct (Z.eq_dec n 0) as [->|Hz]; [reflexivity|].
  pose proof (Z.log2_spec n ltac:(lia)) as [_ Hlt].
  eapply Z.lt_le_trans; [exact Hlt|].
  apply Z.pow_le_mono_l. lia.
Qed.

Lemma fmt_d_fixed k n : (1 <= k)%nat -> 0 <= n < 10 ^ Z.of_nat k ->
  fmt_d k n = fixed k n.
Proof.
  intros Hk Hn. unfold fmt_d, decimal.
  destruct (Z.ltb_spec n 0) as [?|_]; [lia|]. cbn [app].
  rewrite Z.abs_eq by lia.
  apply decimal_fuel_pad; [lia| |lia].
  apply decimal_fuel_enough. lia.
Qed.

Lemma fmt_d_length k n : (1 <= k)%nat ->
  length (fmt_d k n) = k <-> 0 <= n < 10 ^ Z.of_nat k.
Proof.
  intros Hk. split.
  - intros Hlen. unfold fmt_d in Hlen.
    assert (Hlong : 10 ^ Z.of_nat k <= Z.abs n -> (k < length (decimal (Z.abs n)))%nat).
    { intros Hge. apply decimal_fuel_long; [assumption|].
      apply decimal_fuel_enough. lia. }
    rewrite !length_app, repeat_length in Hlen.
    remember (length (decimal (Z.abs n))) as len eqn:El. clear El.
    destruct (Z.ltb_spec n 0) as [Hneg|Hpos]; cbn [length] in Hlen.
    + exfalso. lia.
    + split; [lia|]. rewrite Z.abs_eq in Hlong by lia.
      destruct (Z.lt_ge_cases n (10 ^ Z.of_nat k)) as [?|Hge]; [assumption|].
      specialize (Hlong Hge). lia.
  - intros Hn. rewrite fmt_d_fixed by assumption. apply length_fixed.
Qed.

Lemma fixed_digits k : forall n, Forall (fun c => isdigit c = true) (fixed k n).
Proof.
  induction k as [|k IH]; intros n; simpl; [constructor|].
  apply Forall_app. split; [apply IH|].
  constructor; [|constructor]. apply isdigit_digit_char, mod10_range.
Qed.

Lemma scan_digits_app l : forall acc s,
  Forall (fun c => isdigit c = true) l ->
  scan_digits (length l) acc (l ++ s) = (fold_left scan_step l acc, s).
Proof.
  induction l as [|c l IH]; intros acc s Hd.
  - simpl. destruct s; reflexivity.
  - inversion Hd as [|? ? Hc Hl]; subst. simpl. rewrite Hc. apply IH, Hl.
Qed.

Lemma value_fixed k : forall n acc, 0 <= n < 10 ^ Z.of_nat k ->
  fold_left scan_step (fixed k n) acc = acc * 10 ^ Z.of_nat k + n.
Proof.
  induction k as [|k IH]; intros n acc Hn.
  - simpl in *. lia.
  - rewrite Nat2Z.inj_succ, Z.pow_succ_r in * by lia.
    cbn [fixed]. rewrite fold_left_app. cbn [fold_left]. unfold scan_step at 1.
    rewrite IH.
    + rewrite digit_val_digit_char by apply mod10_range.
      pose proof (Z.div_mod n 10 ltac:(lia)). lia.
    + split; [apply Z.div_pos; lia|]. apply Z.div_lt_upper_bound; lia.
Qed.

Lemma digit_head c r w : isdigit c = true ->
  scan_d (S w) (c :: r) = scan_unsigned (S w) (c :: r)
  /\ skip_space (c :: r) = c :: r
  /\ isspace c = false
  /\ Ascii.eqb c "000" = false.
Proof.
  intros H. destruct c as [[] [] [] [] [] [] [] []];
    try discriminate H; repeat split; reflexivity.
Qed.

Lemma fixed_head k n : exists c r,
  fixed (S k) n = c :: r /\ isdigit c = true.
Proof.
  pose proof (fixed_digits (S k) n) as Hd.
  pose proof (length_fixed (S k) n) as Hl.
  destruct (fixed (S k) n) as [|c r]; [discriminate Hl|].
  inversion Hd; subst. eauto.
Qed.

Lemma scan_d_fixed k n rest : (1 <= k)%nat -> 0 <= n < 10 ^ Z.of_nat k ->
  scan_d k (fixed k n ++ rest) = Some (n, rest).
Proof.
  intros Hk Hn. destruct k as [|k]; [lia|].
  destruct (fixed_head k n) as (c & r & E & Hc).
  pose proof (scan_digits_app (fixed (S k) n) 0 rest (fixed_digits _ _)) as Hs.
  rewrite length_fixed, value_fixed, Z.mul_0_l, Z.add_0_l in Hs by assumption.
  rewrite E in *. cbn [app] in *.
  destruct (digit_head c (r ++ rest) k Hc) as (-> & _).
  unfold scan_unsigned. rewrite Hc, Hs. reflexivity.
Qed.

Lemma skip_space_fixed k n rest : (1 <= k)%nat ->
  skip_space (fixed k n ++ rest) = fixed k n ++ rest.
Proof.
  intros Hk. destruct k as [|k]; [lia|].
  destruct (fixed_head k n) as (c & r & E & Hc). rewrite E. cbn [app].
  apply (digit_head c (r ++ rest) 0 Hc).
Qed.

Lemma c_str_digits l s : Forall (fun c => isdigit c = true) l ->
  c_str (l ++ s) = l ++ c_str s.
Proof.
  induction 1 as [|c l Hc Hl IH]; [reflexivity|].
  cbn [app c_str]. destruct (digit_head c [] 0 Hc) as (_ & _ & _ & ->).
  f_equal. exact IH.
Qed.

Lemma sprintf_msghdr_fields m sq qt :
  0 <= m < 10 ^ 8 -> 0 <= sq < 10 ^ 5 -> 0 <= qt < 10 ^ 10 ->
  sprintf_msghdr m sq qt = msg_hdr m ++ prod_hdr sq qt.
Proof.
  intros Hm Hs Hq. unfold sprintf_msghdr, msg_hdr, prod_hdr.
  rewrite !fmt_d_fixed by (first [lia | assumption]).
  rewrite <- !app_assoc. reflexivity.
Qed.

Lemma scan_s_BI r : scan_s 2 ("B" :: "I" :: r) = Some (["B"; "I"], r).
Proof. destruct r; reflexivity. Qed.

Lemma skip_space_crcrlf r :
  skip_space ("013" :: "013" :: "010" :: r) = skip_space r.
Proof. reflexivity. Qed.

Lemma sscanf_header m sq qt :
  0 <= m < 10 ^ 8 -> 0 <= sq < 10 ^ 5 -> 0 <= qt < 10 ^ 10 ->
  sscanf_msghdr (c_str (msg_hdr m ++ prod_hdr sq qt))
  = mk_scan 4 (Some m) (Some sq) (Some qt).
Proof.
  intros Hm Hs Hq. unfold msg_hdr, prod_hdr.
  rewrite <- !app_assoc.
  rewrite c_str_digits by apply fixed_digits.
  cbn [app c_str Ascii.eqb Bool.eqb].
  rewrite c_str_digits by apply fixed_digits.
  rewrite c_str_digits by apply fixed_digits.
  cbn [app c_str Ascii.eqb Bool.eqb].
  unfold sscanf_msghdr.
  rewrite scan_d_fixed by (first [lia | assumption]).
  rewrite scan_s_BI, skip_space_crcrlf, skip_space_fixed by lia.
  rewrite scan_d_fixed by (first [lia | assumption]).
  rewrite scan_d_fixed by (first [lia | assumption]).
  reflexivity.
Qed.

Lemma length_headers m sq qt : length (msg_hdr m ++ prod_hdr sq qt) = 32%nat.
Proof.
  unfold msg_hdr, prod_hdr. rewrite !length_app, !length_fixed. reflexivity.
Qed.

Lemma format_msghdr_ok buf p : in_bounds p ->
  format_msghdr buf p
  = (32, msg_hdr (PROD_HDR_LEN + size p)
           ++ prod_hdr (seqno p) (queue_time p) ++ drop 32 buf).
Proof.
  unfold in_bounds, MAX_PROD_SIZE, MAX_PROD_SEQNO, PROD_HDR_LEN.
  intros (Hs & Hq & Ht). unfold format_msghdr.
  unfold MAX_PROD_SIZE, MAX_PROD_SEQNO, PROD_HDR_LEN, MSG_HDR_LEN.
  destruct (Z.leb_spec (size p) 0); [lia|].
  destruct (Z.gtb_spec (size p) (99999999 - 22)); [lia|].
  destruct (Z.ltb_spec (seqno p) 0); [lia|].
  destruct (Z.gtb_spec (seqno p) 99999); [lia|].
  cbn [orb].
  rewrite sprintf_msghdr_fields by lia.
  rewrite length_headers. cbn [Z.of_nat Z.eqb negb].
  change (10 + 22) with 32. change (Z.to_nat 32) with 32%nat.
  rewrite <- app_assoc. reflexivity.
Qed.

Lemma format_msghdr_rc buf p :
  fst (format_msghdr buf p) = -1 \/ fst (format_msghdr buf p) = 32.
Proof.
  unfold format_msghdr.
  repeat match goal with |- context [if ?b then _ else _] => destruct b end;
    simpl; auto.
Qed.

Lemma format_msghdr_fail buf p :
  fst (format_msghdr buf p) = -1 -> snd (format_msghdr buf p) = buf.
Proof.
  unfold format_msghdr.
  repeat match goal with |- context [if ?b then _ else _] => destruct b end;
    simpl; auto; discriminate.
Qed.

Lemma format_msghdr_fail_iff buf p :
  fst (format_msghdr buf p) = -1 <-> ~ in_bounds p.
Proof.
  split.
  - intros H Hb. rewrite (format_msghdr_ok buf p Hb) in H. discriminate H.
  - intros Hnb. unfold format_msghdr.
    destruct ((size p <=? 0) || (size p >? MAX_PROD_SIZE)) eqn:E1;
      [reflexivity|].
    destruct ((seqno p <? 0) || (seqno p >? MAX_PROD_SEQNO)) eqn:E2;
      [reflexivity|].
    match goal with |- context [negb ?b] => destruct (negb b) eqn:E3 end;
      [reflexivity|]. exfalso. apply Hnb.
    apply orb_false_iff in E1 as [A1 A2]. apply orb_false_iff in E2 as [B1 B2].
    apply negb_false_iff, Z.eqb_eq in E3.
    unfold sprintf_msghdr in E3. rewrite !length_app in E3.
    unfold in_bounds. 
    assert (H8 : 0 <= PROD_HDR_LEN + size p < 10 ^ Z.of_nat 8).
    { unfold MAX_PROD_SIZE, PROD_HDR_LEN in *. lia. }
    assert (H5 : 0 <= seqno p < 10 ^ Z.of_nat 5).
    { unfold MAX_PROD_SEQNO in *. lia. }
    apply (fmt_d_length 8) in H8; [|lia]. apply (fmt_d_length 5) in H5; [|lia].
    rewrite H8, H5 in E3. cbn [length] in E3.
    assert (H10 : length (fmt_d 10 (queue_time p)) = 10%nat).
    { unfold MSG_HDR_LEN, PROD_HDR_LEN in E3. lia. }
    apply fmt_d_length in H10; [|lia].
    unfold MAX_PROD_SIZE, MAX_PROD_SEQNO, PROD_HDR_LEN in *.
    change (Z.of_nat 10) with 10 in H10. lia.
Qed.

(** ** What a conversion can read *)

Lemma digit_val_range c : isdigit c = true -> 0 <= digit_val c < 10.
Proof.
  unfold isdigit, digit_val. intros H.
  apply andb_true_iff in H as [H1 H2].
  apply N.leb_le in H1, H2. lia.
Qed.

Lemma scan_digits_bound w : forall acc s v r,
  0 <= acc -> scan_digits w acc s = (v, r) ->
  acc <= v < (acc + 1) * 10 ^ Z.of_nat w.
Proof.
  induction w as [|w IH]; intros acc s v r Ha H.
  - simpl in H. destruct s; inversion H; subst; simpl; lia.
  - rewrite Nat2Z.inj_succ, Z.pow_succ_r by lia.
    assert (0 < 10 ^ Z.of_nat w) by (apply Z.pow_pos_nonneg; lia).
    simpl in H. destruct s as [|c s]; [inversion H; subst; nia|].
    destruct (isdigit c) eqn:Hc; [|inversion H; subst; nia].
    pose proof (digit_val_range c Hc).
    apply IH in H; [|lia]. nia.
Qed.

Lemma scan_unsigned_bound w s v r :
  scan_unsigned w s = Some (v, r) -> 0 <= v < 10 ^ Z.of_nat w.
Proof.
  unfold scan_unsigned. destruct w as [|w]; [discriminate|].
  destruct s as [|c s]; [discriminate|].
  destruct (isdigit c); [|discriminate].
  intros H.
  assert (H' : scan_digits (S w) 0 (c :: s) = (v, r)) by congruence.
  apply scan_digits_bound in H'; lia.
Qed.

Lemma scan_d_cases w s :
  scan_d (S w) s = scan_unsigned (S w) (skip_space s)
  \/ (exists r, scan_d (S w) s = neg_result (scan_unsigned w r))
  \/ (exists r, scan_d (S w) s = scan_unsigned w r).
Proof.
  unfold scan_d. destruct (skip_space s) as [|c r]; [left; reflexivity|].
  destruct c as [[] [] [] [] [] [] [] []];
    first [ left; reflexivity
          | right; left; exists r; reflexivity
          | right; right; exists r; reflexivity ].
Qed.

Lemma scan_d_bound w s v r :
  scan_d w s = Some (v, r) -> - 10 ^ Z.of_nat w < v < 10 ^ Z.of_nat w.
Proof.
  destruct w as [|w].
  - unfold scan_d. destruct (skip_space s); discriminate.
  - assert (0 < 10 ^ Z.of_nat w) by (apply Z.pow_pos_nonneg; lia).
    assert (10 ^ Z.of_nat (S w) = 10 * 10 ^ Z.of_nat w)
      by (rewrite Nat2Z.inj_succ, Z.pow_succ_r; lia).
    destruct (scan_d_cases w s) as [E|[[r0 E]|[r0 E]]]; rewrite E; clear E.
    + intros Hu. apply scan_unsigned_bound in Hu. lia.
    + destruct (scan_unsigned w r0) as [[v0 r1]|] eqn:E0; [|discriminate].
      simpl. intros Hu. injection Hu as <- <-.
      apply scan_unsigned_bound in E0. lia.
    + intros Hu. apply scan_unsigned_bound in Hu. lia.
Qed.

Lemma sscanf_msghdr_four s :
  sc_count (sscanf_msghdr s) = 4 ->
  exists m sq qt,
    sscanf_msghdr s = mk_scan 4 (Some m) (Some sq) (Some qt)
    /\ - 10 ^ 8 < m < 10 ^ 8.
Proof.
  unfold sscanf_msghdr.
  destruct (scan_d 8 s) as [[m s1]|] eqn:E8.
  2:{ destruct (skip_space s); discriminate. }
  apply scan_d_bound in E8.
  destruct (scan_s 2 s1) as [[t s2]|]; [|discriminate].
  destruct s2 as [|c s3]; [discriminate|].
  destruct (Ascii.eqb c "001") eqn:Ec.
  2:{ destruct c as [[] [] [] [] [] [] [] []]; try discriminate Ec;
        discriminate. }
  apply Ascii.eqb_eq in Ec. subst c.
  destruct (scan_d 5 (skip_space s3)) as [[sq s4]|]; [|discriminate].
  destruct (scan_d 10 s4) as [[qt s5]|]; [|discriminate].
  intros _. exists m, sq, qt. split; [reflexivity|exact E8].
Qed.

(** ** The header routines *)

(** C8 (as amended).  [format_msghdr] returns -1 exactly when the size is
    outside [1, 99999999-22], the sequence number is outside [0, 99999],
    or the queue time is outside [0, 9999999999], in which case the header
    would not be 32 bytes long; it then leaves the caller's buffer as it
    was.  In every other case it returns 32 and the buffer starts with the
    10-byte message header followed by the 22-byte product header. *)
Theorem format_msghdr_result buf p :
  (fst (format_msghdr buf p) = -1 <->
     (size p < 1 \/ size p > 99999999 - 22)
     \/ (seqno p < 0 \/ seqno p > 99999)
     \/ (queue_time p < 0 \/ queue_time p > 9999999999))
  /\ (fst (format_msghdr buf p) = -1 -> snd (format_msghdr buf p) = buf)
  /\ (fst (format_msghdr buf p) <> -1 ->
      format_msghdr buf p
      = (32, msg_hdr (22 + size p)
               ++ prod_hdr (seqno p) (queue_time p) ++ drop 32 buf))
  /\ length (msg_hdr (22 + size p)) = 10%nat
  /\ length (prod_hdr (seqno p) (queue_time p)) = 22%nat.
Proof.
  assert (Hb : in_bounds p <->
               ~ ((size p < 1 \/ size p > 99999999 - 22)
                  \/ (seqno p < 0 \/ seqno p > 99999)
                  \/ (queue_time p < 0 \/ queue_time p > 9999999999))).
  { unfold in_bounds, MAX_PROD_SIZE, MAX_PROD_SEQNO, PROD_HDR_LEN. lia. }
  split; [|split; [|split; [|split]]].
  - rewrite format_msghdr_fail_iff, Hb. split; [|tauto].
    intros H. unfold in_bounds, MAX_PROD_SIZE, MAX_PROD_SEQNO, PROD_HDR_LEN in *.
    lia.
  - apply format_msghdr_fail.
  - intros H. apply format_msghdr_ok.
    destruct (format_msghdr_rc buf p) as [E|E]; [contradiction|].
    apply Hb. intros Hout. apply H, format_msghdr_fail_iff. tauto.
  - unfold msg_hdr. rewrite length_app, length_fixed. reflexivity.
  - unfold prod_hdr. rewrite !length_app, !length_fixed. reflexivity.
Qed.

Lemma format_msghdr_result_witness :
  format_msghdr [] sample_prod
  = (32, msg_hdr (22 + size sample_prod)
           ++ prod_hdr (seqno sample_prod) (queue_time sample_prod)
           ++ drop 32 []).
Proof.
  refine (proj1 (proj2 (proj2 (format_msghdr_result [] sample_prod))) _).
  vm_compute. discriminate.
Defined.

(** A size and a sequence number inside the bounds, and -1 all the same:
    the file was last modified before 1970. *)
Lemma format_msghdr_early_time :
  (1 <= size early_prod <= 99999999 - 22)
  /\ (0 <= seqno early_prod <= 99999)
  /\ format_msghdr [] early_prod = (-1, []).
Proof.
  split; [|split].
  - cbn. lia.
  - cbn. lia.
  - vm_compute. reflexivity.
Qed.

(** C1 (as amended).  For a product with size in [1, MAX_PROD_SIZE],
    seqno in [0, 99999] and a queue time in [0, 9999999999] - not
    negative, and of at most ten digits - [format_msghdr] returns 32, and
    [parse_msghdr] on the buffer it filled (with [buflen >= 32]) returns
    32 and stores the size, the seqno and the queue time of the
    product. *)
Theorem format_parse_roundtrip buf buflen p p0 :
  1 <= size p <= MAX_PROD_SIZE ->
  0 <= seqno p <= MAX_PROD_SEQNO ->
  0 <= queue_time p < 10 ^ 10 ->
  32 <= buflen ->
  fst (format_msghdr buf p) = 32 /\
  let r := parse_msghdr (snd (format_msghdr buf p)) buflen p0 in
  fst r = 32 /\ size (snd r) = size p /\ seqno (snd r) = seqno p
  /\ queue_time (snd r) = queue_time p.
Proof.
  intros Hs Hq Ht Hlen.
  assert (Hb : in_bounds p) by (unfold in_bounds; auto).
  rewrite (format_msghdr_ok buf p Hb). split; [reflexivity|].
  cbn [snd]. unfold parse_msghdr.
  unfold MSG_HDR_LEN, PROD_HDR_LEN. change (10 + 22) with 32.
  destruct (Z.ltb_spec buflen 32); [lia|].
  change (Z.to_nat 32) with 32%nat.
  rewrite app_assoc, take_app_length' by (rewrite length_headers; reflexivity).
  unfold MAX_PROD_SIZE, MAX_PROD_SEQNO, PROD_HDR_LEN in *.
  rewrite sscanf_header by lia.
  cbn. unfold to_size_t. rewrite Z.mod_small by lia. repeat split; lia.
Qed.

Lemma format_parse_roundtrip_witness :
  fst (format_msghdr [] sample_prod) = 32 /\
  let r := parse_msghdr (snd (format_msghdr [] sample_prod)) 32 zero_prod in
  fst r = 32 /\ size (snd r) = size sample_prod
  /\ seqno (snd r) = seqno sample_prod
  /\ queue_time (snd r) = queue_time sample_prod.
Proof.
  apply (format_parse_roundtrip [] 32 sample_prod zero_prod);
    cbn; unfold MAX_PROD_SIZE, MAX_PROD_SEQNO, PROD_HDR_LEN; lia.
Defined.

(** C1 (the claim at a failing input).  A size and a sequence number
    inside the bounds and a queue time of one decimal digit, -1: the
    file was last modified before 1970.  The sign makes the header 33
    characters long, [format_msghdr] returns -1 and leaves the buffer as
    it was, and [parse_msghdr] finds no header in it. *)
Lemma roundtrip_early_time :
  1 <= size early_prod <= MAX_PROD_SIZE
  /\ 0 <= seqno early_prod <= MAX_PROD_SEQNO
  /\ length (decimal (Z.abs (queue_time early_prod))) = 1%nat
  /\ length (sprintf_msghdr (PROD_HDR_LEN + size early_prod)
               (seqno early_prod) (queue_time early_prod)) = 33%nat
  /\ (forall buf, format_msghdr buf early_prod = (-1, buf))
  /\ fst (parse_msghdr (snd (format_msghdr (repeat " " 32) early_prod)) 32
            zero_prod) = -1.
Proof.
  split; [|split; [|split; [|split; [|split]]]].
  - vm_compute. split; discriminate.
  - vm_compute. split; discriminate.
  - reflexivity.
  - reflexivity.
  - intros buf. reflexivity.
  - vm_compute. reflexivity.
Qed.

(** ** my_rename *)


Section MyRenameFacts.
Variables ENOENT EXDEV : Z.
Variable env : rename_env.
Variable target : list ascii.

Local Abbreviation loop := (my_rename_loop ENOENT EXDEV env target).







End MyRenameFacts.



End ShareFacts.

(* ===================================================================== *)
(** * Facts about serv_recv.c                                             *)
(* ===================================================================== *)

Module ServRecvFacts.
Import Share ShareFacts ServRecv Scenarios.

Lemma size_check m : - 10 ^ 8 < m < 10 ^ 8 ->
  let sz := to_size_t (m - PROD_HDR_LEN) in
  if (sz <=? 0) || (sz >? MAX_PROD_SIZE)
  then m - PROD_HDR_LEN <= 0 \/ m - PROD_HDR_LEN > MAX_PROD_SIZE
  else sz = m - PROD_HDR_LEN /\ 0 < m - PROD_HDR_LEN <= MAX_PROD_SIZE.
Proof.
  intros Hm. unfold to_size_t, MAX_PROD_SIZE, PROD_HDR_LEN. cbv zeta.
  destruct (Z.le_gt_cases (m - 22) 0) as [Hneg|Hpos].
  - assert (Hw : (m - 22) mod 2 ^ 64 = 0 \/ (m - 22) mod 2 ^ 64 > 99999977).
    { destruct (Z.eq_dec (m - 22) 0) as [->|?]; [left; reflexivity|right].
      replace (m - 22) with ((m - 22 + 2 ^ 64) + (-1) * 2 ^ 64) by lia.
      rewrite Z.mod_add by lia. rewrite Z.mod_small; lia. }
    destruct (Z.leb_spec ((m - 22) mod 2 ^ 64) 0);
      destruct (Z.gtb_spec ((m - 22) mod 2 ^ 64) (99999999 - 22));
      cbn [orb]; lia.
  - rewrite Z.mod_small by lia.
    destruct (Z.leb_spec (m - 22) 0); destruct (Z.gtb_spec (m - 22) (99999999 - 22));
      cbn [orb]; lia.
Qed.

(** C2.  For a header of 32 bytes received, [recv_msghdr] returns -1 when
    the header does not parse; when it parses, [recv_msghdr] returns -1
    exactly when the parsed size is <= 0 or greater than MAX_PROD_SIZE, or
    the parsed seqno is neither the expected one nor 0; otherwise it
    returns 0 with the parsed values stored, so that a seqno of 0 is
    accepted whatever seqno is expected. *)
Theorem recv_msghdr_validation recvbuf expected p0 :
  match parsed recvbuf with
  | None => fst (recv_msghdr (32, recvbuf) expected p0) = -1
  | Some (sz, sq, qt) =>
      (fst (recv_msghdr (32, recvbuf) expected p0) = -1 <->
         (sz <= 0 \/ sz > MAX_PROD_SIZE) \/ (sq <> expected /\ sq <> 0))
      /\ (fst (recv_msghdr (32, recvbuf) expected p0) <> -1 ->
          recv_msghdr (32, recvbuf) expected p0
          = (0, set_size sz (set_queue_time qt (set_seqno sq p0))))
  end.
Proof.
  unfold parsed, recv_msghdr, parse_msghdr.
  change (MSG_HDR_LEN + PROD_HDR_LEN) with 32.
  change (Z.to_nat 32) with 32%nat. change (32 <=? 0) with false.
  change (32 <? 32) with false. cbv iota.
  set (r := sscanf_msghdr (c_str (take 32 recvbuf))).
  destruct (Z.eqb_spec (sc_count r) 4) as [E4|N4].
  - destruct (sscanf_msghdr_four _ E4) as (m & sq & qt & E & Hm).
    fold r in E. rewrite E. cbn [sc_msg_size sc_seqno sc_queue_time sc_count assign negb Z.eqb Pos.eqb].
    cbv iota. change (32 <? 0) with false. cbv iota.
    cbn [seqno size set_size set_queue_time set_seqno queue_time filename ccb_len state send_count send_time priority p_next].
    pose proof (size_check m Hm) as Hsz. cbv zeta in Hsz.
    destruct (Z.eqb_spec sq expected) as [Es|Ns];
      destruct (Z.eqb_spec sq 0) as [E0|N0]; cbn [negb andb];
      destruct ((to_size_t (m - PROD_HDR_LEN) <=? 0)
                || (to_size_t (m - PROD_HDR_LEN) >? MAX_PROD_SIZE));
      cbn [fst]; (split; [split; [intros; try discriminate; tauto|intros; try reflexivity; lia] | intros Hne; try congruence]).
    all: destruct Hsz as [-> _]; reflexivity.
  - cbn [negb]. destruct (sc_msg_size r), (sc_seqno r), (sc_queue_time r); reflexivity.
Qed.

Lemma recv_msghdr_validation_witness :
  match parsed sample_hdr with
  | None => fst (recv_msghdr (32, sample_hdr) 5 zero_prod) = -1
  | Some (sz, sq, qt) =>
      (fst (recv_msghdr (32, sample_hdr) 5 zero_prod) = -1 <->
         (sz <= 0 \/ sz > MAX_PROD_SIZE) \/ (sq <> 5 /\ sq <> 0))
      /\ (fst (recv_msghdr (32, sample_hdr) 5 zero_prod) <> -1 ->
          recv_msghdr (32, sample_hdr) 5 zero_prod
          = (0, set_size sz (set_queue_time qt (set_seqno sq zero_prod))))
  end.
Proof. exact (recv_msghdr_validation sample_hdr 5 zero_prod). Defined.

End ServRecvFacts.

(* ===================================================================== *)
(** * Facts about client_queue.c                                          *)
(* ===================================================================== *)

Module ClientQueueFacts.
Import Share Client ClientQueue Scenarios.

Lemma compare_items_sign x y :
  (compare_items x y = -1 <->
     priority x > priority y
     \/ (priority x = priority y /\ queue_time x < queue_time y))
  /\ (compare_items x y = 1 <->
     priority x < priority y
     \/ (priority x = priority y /\ queue_time x > queue_time y))
  /\ (compare_items x y = 0 <->
     priority x = priority y /\ queue_time x = queue_time y)
  /\ (compare_items x y <= 0 <-> queue_le x y).
Proof.
  unfold compare_items, queue_le.
  destruct (Z.ltb_spec (priority x) (priority y));
    destruct (Z.gtb_spec (priority x) (priority y));
    destruct (Z.gtb_spec (queue_time x) (queue_time y));
    destruct (Z.ltb_spec (queue_time x) (queue_time y)); lia.
Qed.




(** The insertion sort keeps the promise of [qsort], and is stable. *)
Lemma insert_item_perm x l :
  Permutation (x :: l) (insert_item compare_items x l).
Proof.
  induction l as [|y l IH]; simpl; [reflexivity|].
  destruct (compare_items x y <=? 0); [reflexivity|].
  rewrite perm_swap. constructor. exact IH.
Qed.

Lemma queue_le_trans x y z : queue_le x y -> queue_le y z -> queue_le x z.
Proof. unfold queue_le. lia. Qed.

Lemma insert_item_sorted x l :
  StronglySorted queue_le l ->
  StronglySorted queue_le (insert_item compare_items x l).
Proof.
  induction 1 as [|y l Hs IH Hy]; simpl; [repeat constructor|].
  pose proof (compare_items_sign x y) as (S1 & S2 & S3 & S4).
  destruct (Z.leb_spec (compare_items x y) 0) as [Hle|Hgt].
  - assert (Hxy : queue_le x y) by (apply S4; exact Hle).
    constructor; [constructor; assumption|].
    constructor; [assumption|].
    eapply Forall_impl; [exact Hy|]. intros z. apply queue_le_trans, Hxy.
  - constructor; [exact IH|].
    rewrite <- (insert_item_perm x l). constructor; [|assumption].
    unfold queue_le in *. unfold compare_items in Hgt.
    destruct (Z.ltb_spec (priority x) (priority y));
    destruct (Z.gtb_spec (priority x) (priority y));
    destruct (Z.gtb_spec (queue_time x) (queue_time y));
    destruct (Z.ltb_spec (queue_time x) (queue_time y)); lia.
Qed.

Lemma insertion_qsort_contract : qsort_contract insertion_qsort.
Proof.
  intros l. split.
  - induction l as [|x l IH]; simpl; [reflexivity|].
    rewrite <- insert_item_perm. constructor. exact IH.
  - assert (H : StronglySorted queue_le (insertion_qsort compare_items l)).
    { induction l as [|x l IH]; simpl; [constructor|].
      apply insert_item_sorted, IH. }
    clear -H. induction H as [|x l' Hs IH Hx]; constructor; [assumption|].
    eapply Forall_impl; [exact Hx|]. intros y. apply compare_items_sign.
Qed.






(** C7 (the code at the failing input).  With [max_queue_len = 1] and two
    input directories holding one file each, the refresh collects both
    files: the [break] leaves the loop over the entries of the first
    directory only. *)
Theorem poll_exceeds_cap :
  max_queue_len (opts_example 1 [["h"]; ["l"]]) = 1
  /\ refresh (opts_example 1 [["h"]; ["l"]]) empty_tbl insertion_qsort
       env_two_dirs queue_static_init
     = inr (mk_queue [mk_prod 0 ["h"; "/"; "a"] 10 0 "000" 0 100 0 1 None;
                      mk_prod 0 ["l"; "/"; "b"] 10 0 "000" 0 100 0 0 None]
                     2 0 200).
Proof. split; vm_compute; reflexivity. Qed.

End ClientQueueFacts.

(* ===================================================================== *)
(** * Facts about client_send.c                                           *)
(* ===================================================================== *)

Module ClientSendFacts.
Import Share Client ClientQueue ClientSend Scenarios.

(** ** Chains of [p_next] *)

Lemma chain_in_range h s l x : chain h s l -> x ∈ l -> (x < length h)%nat.
Proof.
  revert s. induction l as [|y l IH]; intros s Hc Hx.
  - inversion Hx.
  - destruct Hc as (-> & pr & Hy & Hc).
    apply elem_of_cons in Hx as [->|Hx].
    + eapply lookup_lt_Some; eassumption.
    + eapply IH; eassumption.
Qed.

Lemma chain_frame h h' l : forall s,
  (forall x, x ∈ l -> p_next <$> (h' !! x) = p_next <$> (h !! x)) ->
  chain h s l -> chain h' s l.
Proof.
  induction l as [|y l IH]; intros s Hf Hc; [exact Hc|].
  destruct Hc as (-> & pr & Hy & Hc). split; [reflexivity|].
  pose proof (Hf y ltac:(left)) as Hn. rewrite Hy in Hn. simpl in Hn.
  destruct (h' !! y) as [pr'|] eqn:Hy'; [|discriminate].
  simpl in Hn. injection Hn as Hn. exists pr'. split; [reflexivity|].
  rewrite Hn. apply IH; [|exact Hc].
  intros x Hx. apply Hf. right. exact Hx.
Qed.

Lemma chain_alter_notin h f x l s :
  x ∉ l -> chain h s l -> chain (alter f x h) s l.
Proof.
  intros Hx. apply chain_frame. intros y Hy.
  rewrite list_lookup_alter_ne; [reflexivity|]. intros ->. contradiction.
Qed.

Lemma chain_alter_next h f x l s :
  (forall pr, p_next (f pr) = p_next pr) ->
  chain h s l -> chain (alter f x h) s l.
Proof.
  intros Hf. apply chain_frame. intros y _.
  destruct (decide (x = y)) as [->|Hne].
  - rewrite list_lookup_alter_eq. destruct (h !! y); simpl; [|reflexivity].
    rewrite Hf. reflexivity.
  - rewrite list_lookup_alter_ne by assumption. reflexivity.
Qed.

Lemma chain_push h p : forall l s,
  chain h s l -> p ∉ l -> NoDup l -> (p < length h)%nat ->
  chain (push_heap h (last l) p)
        (match last l with Some _ => s | None => Some p end) (l ++ [p]).
Proof.
  intros l. induction l as [|x l IH]; intros s Hc Hp Hnd Hr.
  - simpl. split; [reflexivity|].
    destruct (lookup_lt_is_Some_2 h p Hr) as [pr Hpr].
    exists (set_p_next None pr). unfold push_heap.
    rewrite list_lookup_alter_eq, Hpr. split; reflexivity.
  - destruct Hc as (-> & pr & Hx & Hc).
    apply not_elem_of_cons in Hp as [Hpx Hp].
    apply NoDup_cons in Hnd as [Hxl Hnd].
    destruct l as [|y l].
    + (* x is the tail *)
      simpl in Hc. cbn [last app]. split; [reflexivity|].
      exists (set_p_next (Some p) pr). unfold push_heap.
      rewrite list_lookup_alter_ne by congruence.
      rewrite list_lookup_alter_eq, Hx. split; [reflexivity|].
      simpl. split; [reflexivity|].
      destruct (lookup_lt_is_Some_2 h p Hr) as [pp Hpp].
      exists (set_p_next None pp).
      rewrite list_lookup_alter_eq, list_lookup_alter_ne, Hpp by congruence.
      split; reflexivity.
    + rewrite last_cons_cons.
      specialize (IH (p_next pr) Hc Hp Hnd Hr).
      destruct (last (y :: l)) as [t|] eqn:Ht.
      2:{ apply last_None in Ht. discriminate. }
      cbn [app]. split; [reflexivity|].
      assert (Htl : t ∈ y :: l) by (eapply last_Some_elem_of; eassumption).
      exists pr. unfold push_heap in *.
      rewrite list_lookup_alter_ne by congruence.
      rewrite list_lookup_alter_ne by (intros ->; contradiction).
      split; [exact Hx|].
      destruct Hc as (E & _). rewrite E in IH |- *. exact IH.
Qed.

Lemma push_prod_heap h L p :
  (push_prod h L p).1 = push_heap h (p_tail L) p.
Proof. reflexivity. Qed.

Lemma is_list_push h L l p :
  is_list h L l -> p ∉ l -> NoDup l -> (p < length h)%nat ->
  is_list (push_prod h L p).1 (push_prod h L p).2 (l ++ [p]).
Proof.
  intros (Hc & Ht & Hn) Hp Hnd Hr.
  pose proof (chain_push h p l _ Hc Hp Hnd Hr) as Hc'.
  unfold is_list, push_prod. cbn [fst snd p_head p_tail count].
  fold (push_heap h (p_tail L) p). rewrite Ht.
  split; [|split].
  - destruct (last l); exact Hc'.
  - rewrite last_snoc. reflexivity.
  - rewrite Hn, length_app. simpl. lia.
Qed.

Lemma is_list_frame h h' L l :
  (forall x, x ∈ l -> p_next <$> (h' !! x) = p_next <$> (h !! x)) ->
  is_list h L l -> is_list h' L l.
Proof.
  intros Hf (Hc & Ht & Hn). split; [|split]; try assumption.
  eapply chain_frame; eassumption.
Qed.

Lemma push_heap_frame h tl p x :
  x <> p -> tl <> Some x ->
  push_heap h tl p !! x = h !! x.
Proof.
  intros H1 H2. unfold push_heap.
  rewrite list_lookup_alter_ne by congruence.
  destruct tl as [t|]; [|reflexivity].
  rewrite list_lookup_alter_ne by congruence. reflexivity.
Qed.

Lemma is_list_pop h L x l :
  is_list h L (x :: l) -> x ∉ l ->
  (pop_prod h L).2 = Some x
  /\ (pop_prod h L).1.1 = alter (set_p_next None) x h
  /\ is_list (pop_prod h L).1.1 (pop_prod h L).1.2 l.
Proof.
  intros (Hc & Ht & Hn) Hx.
  destruct Hc as (Hh & pr & Hpr & Hc).
  unfold pop_prod. rewrite Hh. cbn [fst snd]. rewrite Hpr. cbn [mbind option_bind].
  split; [reflexivity|]. split; [reflexivity|].
  split; [|split]; cbn [p_head p_tail count].
  - apply chain_alter_notin; assumption.
  - destruct l as [|y l].
    + simpl in Hc. rewrite Hc. reflexivity.
    + destruct Hc as (-> & _). rewrite Ht. apply last_cons_cons.
  - rewrite Hn. simpl length. lia.
Qed.

Lemma is_list_pop_nil h L :
  is_list h L [] -> pop_prod h L = (h, L, None).
Proof. intros (Hc & _). simpl in Hc. unfold pop_prod. rewrite Hc. reflexivity. Qed.

(** ** The three lists of a table *)

Lemma all_slots_pop w ls x l held :
  ls w = x :: l ->
  Permutation (all_slots ls ++ held)
              (all_slots (set_contents w l ls) ++ x :: held).
Proof.
  intros E. unfold all_slots, set_contents.
  destruct w; cbn [which_eqb]; rewrite E;
    repeat rewrite <- app_assoc; cbn [app];
    repeat (rewrite <- Permutation_middle); reflexivity.
Qed.

Lemma all_slots_push w ls x held :
  Permutation (all_slots ls ++ x :: held)
              (all_slots (set_contents w (ls w ++ [x]) ls) ++ held).
Proof.
  unfold all_slots, set_contents.
  destruct w; cbn [which_eqb];
    repeat rewrite <- app_assoc; cbn [app];
    repeat (rewrite <- Permutation_middle); reflexivity.
Qed.

Lemma in_all_slots ls w x : x ∈ ls w -> x ∈ all_slots ls.
Proof.
  unfold all_slots. intros H. rewrite !elem_of_app.
  destruct w; auto.
Qed.

Lemma all_slots_disjoint ls held w w' x :
  NoDup (all_slots ls ++ held) -> w <> w' -> x ∈ ls w -> x ∈ ls w' -> False.
Proof.
  unfold all_slots. intros Hnd Hne H1 H2.
  apply NoDup_app in Hnd as (Hnd & _ & _).
  apply NoDup_app in Hnd as (_ & HF & Hnd).
  apply NoDup_app in Hnd as (_ & HA & _).
  destruct w, w'; try congruence;
    first [ eapply HF; [eassumption|]; rewrite elem_of_app; eauto
          | eapply HA; eassumption ].
Qed.

Lemma all_slots_nodup ls held w :
  NoDup (all_slots ls ++ held) -> NoDup (ls w).
Proof.
  unfold all_slots. intros Hnd.
  apply NoDup_app in Hnd as (Hnd & _ & _).
  apply NoDup_app in Hnd as (HF & _ & Hnd).
  apply NoDup_app in Hnd as (HA & _ & HR).
  destruct w; assumption.
Qed.

Lemma all_slots_held ls held x :
  NoDup (all_slots ls ++ held) -> x ∈ held -> x ∉ all_slots ls.
Proof.
  intros Hnd Hx Hin. apply NoDup_app in Hnd as (_ & Hd & _).
  eapply Hd; eassumption.
Qed.

Lemma get_set_list w w' l t :
  get_list w' (set_list w l t) = if which_eqb w w' then l else get_list w' t.
Proof. destruct w, w'; reflexivity. Qed.

Lemma prod_set_list w l t : prod (set_list w l t) = prod t.
Proof. destruct w; reflexivity. Qed.

Lemma get_list_set_prod w h t : get_list w (set_prod h t) = get_list w t.
Proof. destruct w; reflexivity. Qed.

Lemma which_eqb_eq a b : which_eqb a b = true <-> a = b.
Proof. destruct a, b; simpl; split; congruence. Qed.

Lemma tbl_push_rep t ls held w x :
  tbl_rep t ls -> NoDup (all_slots ls ++ x :: held) ->
  (x < length (prod t))%nat ->
  tbl_rep (tbl_push w x t) (set_contents w (ls w ++ [x]) ls)
  /\ length (prod (tbl_push w x t)) = length (prod t).
Proof.
  intros Hrep Hnd Hr.
  assert (Hx : x ∉ all_slots ls).
  { eapply all_slots_held; [eassumption|]. left. }
  unfold tbl_push.
  destruct (push_prod (prod t) (get_list w t) x) as [h' L'] eqn:E.
  pose proof (f_equal fst E) as E1. pose proof (f_equal snd E) as E2.
  cbn [fst snd] in E1, E2. split.
  - intros w'. rewrite prod_set_list, get_set_list. unfold set_contents.
    cbn [prod set_prod].
    destruct (which_eqb w w') eqn:Ew.
    + apply which_eqb_eq in Ew. subst w'. rewrite <- E1, <- E2.
      apply is_list_push; [apply Hrep| |eapply all_slots_nodup; eassumption|assumption].
      intros Hin. apply Hx. eapply in_all_slots; eassumption.
    + rewrite get_list_set_prod.
      eapply is_list_frame; [|apply Hrep].
      intros y Hy. rewrite <- E1, push_prod_heap, push_heap_frame; [reflexivity| |].
      * intros ->. apply Hx. eapply in_all_slots; eassumption.
      * destruct (Hrep w) as (_ & Ht & _). rewrite Ht. intros Hl.
        apply last_Some_elem_of in Hl.
        eapply (all_slots_disjoint ls (x :: held) w w'); try eassumption.
        intros ->. destruct w'; discriminate.
  - rewrite prod_set_list. cbn [prod set_prod]. rewrite <- E1.
    unfold push_prod. cbn [fst]. rewrite length_alter.
    destruct (p_tail (get_list w t)); [rewrite length_alter|]; reflexivity.
Qed.

Lemma tbl_pop_rep t ls held w :
  tbl_rep t ls -> NoDup (all_slots ls ++ held) ->
  match ls w with
  | [] => tbl_pop w t = (t, None)
  | x :: l =>
      exists t', tbl_pop w t = (t', Some x)
        /\ tbl_rep t' (set_contents w l ls)
        /\ length (prod t') = length (prod t)
        /\ (x < length (prod t))%nat
        /\ (forall y, y <> x -> prod t' !! y = prod t !! y)
        /\ (forall pr, prod t !! x = Some pr ->
                       prod t' !! x = Some (set_p_next None pr))
  end.
Proof.
  intros Hrep Hnd. destruct (ls w) as [|x l] eqn:El.
  - unfold tbl_pop. pose proof (Hrep w) as Hw. rewrite El in Hw.
    rewrite (is_list_pop_nil _ _ Hw). destruct t, w; reflexivity.
  - pose proof (Hrep w) as Hw. rewrite El in Hw.
    assert (Hndw : NoDup (x :: l)).
    { rewrite <- El. eapply all_slots_nodup; eassumption. }
    apply NoDup_cons in Hndw as [Hxl Hndl].
    destruct (is_list_pop _ _ _ _ Hw Hxl) as (P1 & P2 & P3).
    unfold tbl_pop.
    destruct (pop_prod (prod t) (get_list w t)) as [[h' L'] r] eqn:E.
    cbn [fst snd] in P1, P2, P3. subst r h'.
    eexists. split; [reflexivity|].
    assert (Hr : (x < length (prod t))%nat).
    { destruct Hw as ((_ & pr & Hpr & _) & _).
      eapply lookup_lt_Some; eassumption. }
    split; [|split; [|split; [|split]]].
    + intros w'. rewrite prod_set_list, get_set_list. unfold set_contents.
      cbn [prod set_prod].
      destruct (which_eqb w w') eqn:Ew.
      * exact P3.
      * rewrite get_list_set_prod.
        eapply is_list_frame; [|apply Hrep].
        intros y Hy. rewrite list_lookup_alter_ne; [reflexivity|].
        intros ->. eapply (all_slots_disjoint ls held w w'); try eassumption.
        -- intros ->. destruct w'; discriminate.
        -- rewrite El. left.
    + rewrite prod_set_list. cbn [prod set_prod]. apply length_alter.
    + exact Hr.
    + intros y Hy. rewrite prod_set_list. cbn [prod set_prod].
      apply list_lookup_alter_ne. congruence.
    + intros pr Hpr. rewrite prod_set_list. cbn [prod set_prod].
      rewrite list_lookup_alter_eq, Hpr. reflexivity.
Qed.

Lemma tbl_rep_upd_notin t ls x f :
  tbl_rep t ls -> x ∉ all_slots ls -> tbl_rep (upd x f t) ls.
Proof.
  intros Hrep Hx w. unfold upd. rewrite get_list_set_prod. cbn [prod set_prod].
  eapply is_list_frame; [|apply Hrep].
  intros y Hy. rewrite list_lookup_alter_ne; [reflexivity|].
  intros ->. apply Hx. eapply in_all_slots; eassumption.
Qed.

Lemma tbl_rep_upd_next t ls x f :
  (forall pr, p_next (f pr) = p_next pr) ->
  tbl_rep t ls -> tbl_rep (upd x f t) ls.
Proof.
  intros Hf Hrep w. unfold upd. rewrite get_list_set_prod. cbn [prod set_prod].
  destruct (Hrep w) as (Hc & Ht & Hn). split; [|split]; try assumption.
  apply chain_alter_next; assumption.
Qed.

Lemma length_upd x f t : length (prod (upd x f t)) = length (prod t).
Proof. unfold upd. cbn [prod set_prod]. apply length_alter. Qed.

(** ** The discipline is kept by the operations *)

Lemma submseteq_NoDup (l k : list nat) : l ⊆+ k -> NoDup k -> NoDup l.
Proof.
  intros Hs Hnd. apply submseteq_Permutation in Hs as [k' Hk].
  rewrite Hk in Hnd. apply NoDup_app in Hnd. tauto.
Qed.

Lemma tbl_inv_push n t held held' w x :
  tbl_inv n t held -> Permutation held (x :: held') ->
  tbl_inv n (tbl_push w x t) held'.
Proof.
  intros (ls & Hrep & Hnd & Hlen & Hh) Hp.
  rewrite Hp in Hnd, Hh.
  apply Forall_cons in Hh as [Hx Hh].
  destruct (tbl_push_rep t ls held' w x Hrep Hnd ltac:(lia)) as [Hrep' Hlen'].
  exists (set_contents w (ls w ++ [x]) ls).
  split; [exact Hrep'|]. split; [|split; [lia|exact Hh]].
  rewrite <- all_slots_push. exact Hnd.
Qed.

Lemma tbl_inv_pop n t held w t' r :
  tbl_inv n t held -> tbl_pop w t = (t', r) ->
  match r with
  | None => t' = t /\ count (get_list w t) = 0 /\ p_head (get_list w t) = None
  | Some x => tbl_inv n t' (x :: held)
              /\ 0 < count (get_list w t)
              /\ p_head (get_list w t) = Some x
              /\ forall y, y <> x -> prod t' !! y = prod t !! y
  end.
Proof.
  intros (ls & Hrep & Hnd & Hlen & Hh) E.
  pose proof (tbl_pop_rep t ls held w Hrep Hnd) as Hp.
  destruct (Hrep w) as (Hc & _ & Hn).
  destruct (ls w) as [|x l] eqn:El.
  - rewrite Hp in E. injection E as <- <-. simpl in Hc, Hn. auto.
  - destruct Hp as (t1 & E1 & Hrep1 & Hlen1 & Hx & Hfr & _).
    rewrite E1 in E. injection E as <- <-.
    split; [|split; [|split]].
    + exists (set_contents w l ls). split; [exact Hrep1|].
      split; [|split; [lia|]].
      * rewrite <- (all_slots_pop w ls x l held El). exact Hnd.
      * constructor; [lia|exact Hh].
    + rewrite Hn. simpl length. lia.
    + destruct Hc as (-> & _). reflexivity.
    + exact Hfr.
Qed.

Lemma tbl_inv_upd_held n t held x f :
  tbl_inv n t held -> x ∈ held -> tbl_inv n (upd x f t) held.
Proof.
  intros (ls & Hrep & Hnd & Hlen & Hh) Hx.
  exists ls. split; [|split; [exact Hnd|split; [rewrite length_upd; exact Hlen|exact Hh]]].
  apply tbl_rep_upd_notin; [exact Hrep|].
  eapply all_slots_held; eassumption.
Qed.

Lemma tbl_inv_upd_next n t held x f :
  (forall pr, p_next (f pr) = p_next pr) ->
  tbl_inv n t held -> tbl_inv n (upd x f t) held.
Proof.
  intros Hf (ls & Hrep & Hnd & Hlen & Hh).
  exists ls. split; [|split; [exact Hnd|split; [rewrite length_upd; exact Hlen|exact Hh]]].
  apply tbl_rep_upd_next; assumption.
Qed.

Lemma tbl_inv_drop n t held held' :
  tbl_inv n t held -> held' ⊆+ held -> tbl_inv n t held'.
Proof.
  intros (ls & Hrep & Hnd & Hlen & Hh) Hs.
  exists ls. split; [exact Hrep|]. split; [|split; [exact Hlen|]].
  - eapply submseteq_NoDup; [|exact Hnd].
    apply submseteq_app; [reflexivity|exact Hs].
  - rewrite Forall_forall in Hh |- *. intros y Hy. apply Hh.
    eapply elem_of_submseteq; eassumption.
Qed.

Lemma tbl_inv_count n t held w :
  tbl_inv n t held ->
  0 <= count (get_list w t) /\ count (get_list w t) + Z.of_nat (length held) <= Z.of_nat n.
Proof.
  intros (ls & Hrep & Hnd & Hlen & Hh).
  destruct (Hrep w) as (Hc & _ & Hn). rewrite Hn. split; [lia|].
  assert (Hsub : ls w ++ held ⊆+ all_slots ls ++ held).
  { apply submseteq_app; [|reflexivity].
    unfold all_slots. destruct w.
    - apply submseteq_inserts_r. reflexivity.
    - apply submseteq_inserts_l, submseteq_inserts_r. reflexivity.
    - apply submseteq_inserts_l, submseteq_inserts_l. reflexivity. }
  assert (Hnd' : NoDup (ls w ++ held)) by (eapply submseteq_NoDup; eassumption).
  assert (Hin : forall y, y ∈ ls w ++ held -> y ∈ seq 0 n).
  { intros y Hy. apply elem_of_seq. split; [lia|]. simpl.
    apply elem_of_app in Hy as [Hy|Hy].
    - rewrite <- Hlen. eapply chain_in_range; eassumption.
    - rewrite Forall_forall in Hh. apply Hh, Hy. }
  assert (Hle : (length (ls w ++ held) <= length (seq 0 n))%nat).
  { apply submseteq_length. apply NoDup_submseteq; assumption. }
  rewrite length_app, length_seq in Hle. lia.
Qed.

(** ** Building the lists slot by slot *)

Lemma elem_of_set_contents w w' l ls (x : nat) :
  x ∈ set_contents w l ls w' <->
  (w = w' /\ x ∈ l) \/ (w <> w' /\ x ∈ ls w').
Proof.
  unfold set_contents. destruct (which_eqb w w') eqn:E.
  - apply which_eqb_eq in E. subst. tauto.
  - assert (w <> w') by (intros ->; destruct w'; discriminate). tauto.
Qed.

Lemma elem_of_all_slots ls (x : nat) :
  x ∈ all_slots ls <-> exists w, x ∈ ls w.
Proof.
  unfold all_slots. rewrite !elem_of_app. split.
  - intros [H|[H|H]]; eauto.
  - intros [[] H]; auto.
Qed.

Section FoldPush.

Variable g : prod_tbl_t -> nat -> prod_tbl_t.
Variable cls : nat -> which_list.
Variable f : prod_tbl_t -> nat -> prod_info_t -> prod_info_t.
Variable P : prod_tbl_t -> Prop.
Hypothesis g_push :
  forall t x, P t -> g t x = tbl_push (cls x) x (upd x (f t x) t).
Hypothesis g_keeps : forall t x, P t -> P (g t x).

Lemma fold_push_rep k : forall a t ls,
  P t -> tbl_rep t ls -> NoDup (all_slots ls) ->
  (forall x, x ∈ all_slots ls -> (x < a)%nat) ->
  (a + k <= length (prod t))%nat ->
  exists ls',
    tbl_rep (fold_left g (seq a k) t) ls'
    /\ NoDup (all_slots ls')
    /\ length (prod (fold_left g (seq a k) t)) = length (prod t)
    /\ P (fold_left g (seq a k) t)
    /\ (forall w x, x ∈ ls' w <->
          x ∈ ls w \/ ((a <= x < a + k)%nat /\ cls x = w)).
Proof.
  induction k as [|k IH]; intros a t ls HP Hrep Hnd Hlt Hlen.
  - exists ls. simpl. split; [assumption|]. split; [assumption|].
    split; [reflexivity|]. split; [assumption|].
    intros w x. split; [auto|]. intros [?|[? _]]; [assumption|lia].
  - cbn [seq fold_left].
    assert (Ha : a ∉ all_slots ls).
    { intros Hin. apply Hlt in Hin. lia. }
    assert (Hnd1 : NoDup (all_slots ls ++ [a])).
    { apply NoDup_app. split; [assumption|]. split; [|apply NoDup_singleton].
      intros x Hx Hxa. apply list_elem_of_singleton in Hxa. subst. contradiction. }
    pose proof (tbl_rep_upd_notin t ls a (f t a) Hrep Ha) as Hrep1.
    destruct (tbl_push_rep (upd a (f t a) t) ls [] (cls a) a Hrep1 Hnd1)
      as [Hrep2 Hlen2].
    { rewrite length_upd. lia. }
    rewrite <- (g_push t a HP) in Hrep2, Hlen2.
    rewrite length_upd in Hlen2.
    set (ls1 := set_contents (cls a) (ls (cls a) ++ [a]) ls) in *.
    assert (Hnd2 : NoDup (all_slots ls1)).
    { pose proof (all_slots_push (cls a) ls a []) as Hp.
      rewrite app_nil_r in Hp. unfold ls1. rewrite <- Hp. exact Hnd1. }
    assert (Hin1 : forall w x, x ∈ ls1 w <-> x ∈ ls w \/ (x = a /\ cls a = w)).
    { intros w x. unfold ls1. rewrite elem_of_set_contents, elem_of_app,
        list_elem_of_singleton.
      destruct (decide (cls a = w)) as [<-|Hne]; [tauto|]. tauto. }
    destruct (IH (S a) (g t a) ls1 (g_keeps t a HP) Hrep2 Hnd2)
      as (ls' & R1 & R2 & R3 & R4 & R5).
    { intros x Hx. apply elem_of_all_slots in Hx as [w Hx].
      apply Hin1 in Hx as [Hx|[-> _]]; [|lia].
      assert (x < a)%nat; [|lia]. apply Hlt, elem_of_all_slots. eauto. }
    { lia. }
    exists ls'. split; [exact R1|]. split; [exact R2|]. split; [lia|].
    split; [exact R4|].
    intros w x. rewrite R5, Hin1.
    split.
    + intros [[?|[-> ?]]|[? ?]]; [tauto| right; split; [lia|assumption] | right; split; [lia|assumption]].
    + intros [?|[Hr Hc]]; [tauto|].
      destruct (decide (x = a)) as [->|Hne]; [tauto|].
      right. split; [lia|assumption].
Qed.

End FoldPush.

Lemma state_push_prod h L p j :
  state <$> ((push_prod h L p).1 !! j) = state <$> (h !! j).
Proof.
  unfold push_prod. cbn [fst].
  assert (Ha : forall (v : option nat) i (h0 : list prod_info_t),
            state <$> (alter (set_p_next v) i h0 !! j) = state <$> (h0 !! j)).
  { intros v i h0. destruct (decide (i = j)) as [->|Hne].
    - rewrite list_lookup_alter_eq. destruct (h0 !! j); reflexivity.
    - rewrite list_lookup_alter_ne by assumption. reflexivity. }
  rewrite Ha. destruct (p_tail L); [apply Ha|reflexivity].
Qed.

Lemma state_tbl_push w p t j :
  state (slot (tbl_push w p t) j) = state (slot t j).
Proof.
  unfold slot, tbl_push.
  destruct (push_prod (prod t) (get_list w t) p) as [h' L'] eqn:E.
  rewrite prod_set_list. cbn [prod set_prod].
  pose proof (state_push_prod (prod t) (get_list w t) p j) as Hs.
  rewrite E in Hs. cbn [fst] in Hs.
  destruct (h' !! j), (prod t !! j); simpl in *; congruence.
Qed.

Lemma state_upd_next x f t j :
  (forall pr, state (f pr) = state pr) ->
  state (slot (upd x f t) j) = state (slot t j).
Proof.
  intros Hf. unfold slot, upd. cbn [prod set_prod].
  destruct (decide (x = j)) as [->|Hne].
  - rewrite list_lookup_alter_eq. destruct (prod t !! j); simpl; [apply Hf|reflexivity].
  - rewrite list_lookup_alter_ne by assumption. reflexivity.
Qed.

Lemma rebuild_slot_state t x j :
  state (slot (rebuild_slot t x) j) = state (slot t j).
Proof.
  unfold rebuild_slot.
  repeat match goal with |- context [if ?b then _ else _] => destruct b end;
    rewrite state_tbl_push; apply state_upd_next; reflexivity.
Qed.

Lemma rebuild_lists_spec opts t :
  length (prod t) = Z.to_nat (window_size opts) ->
  exists ls,
    tbl_rep (rebuild_lists opts t) ls
    /\ NoDup (all_slots ls)
    /\ length (prod (rebuild_lists opts t)) = length (prod t)
    /\ (forall j, state (slot (rebuild_lists opts t) j) = state (slot t j))
    /\ (forall w x, x ∈ ls w <->
          (x < length (prod t))%nat /\ list_of_state (state (slot t x)) = w).
Proof.
  intros Hlen. unfold rebuild_lists.
  set (t0 := mk_tbl (prod t) empty_list empty_list empty_list).
  set (n := Z.to_nat (window_size opts)) in *.
  destruct (fold_push_rep rebuild_slot
              (fun x => list_of_state (state (slot t x)))
              (fun _ _ => set_p_next None)
              (fun t' => forall j, state (slot t' j) = state (slot t j)))
    with (k := n) (a := O) (t := t0) (ls := fun _ : which_list => @nil nat)
    as (ls & R1 & R2 & R3 & R4 & R5).
  - intros t' x HP. unfold rebuild_slot, list_of_state. rewrite HP.
    repeat match goal with |- context [if ?b then _ else _] => destruct b end;
      reflexivity.
  - intros t' x HP j. rewrite rebuild_slot_state. apply HP.
  - intros j. reflexivity.
  - intros w. destruct w; repeat split.
  - constructor.
  - intros x Hx. inversion Hx.
  - simpl. lia.
  - exists ls. split; [exact R1|]. split; [exact R2|]. split; [exact R3|].
    split; [exact R4|]. intros w x. rewrite R5. simpl. rewrite Hlen.
    split; [intros [Hx|[? ?]]; [inversion Hx|split; [lia|assumption]]|].
    intros [? ?]. right. split; [lia|assumption].
Qed.

Lemma tbl_inv_rebuild opts t :
  length (prod t) = Z.to_nat (window_size opts) ->
  tbl_inv (Z.to_nat (window_size opts)) (rebuild_lists opts t) [].
Proof.
  intros Hlen. destruct (rebuild_lists_spec opts t Hlen) as (ls & R1 & R2 & R3 & _).
  exists ls. rewrite app_nil_r. split; [exact R1|]. split; [exact R2|].
  split; [congruence|constructor].
Qed.

Lemma tbl_inv_init opts :
  tbl_inv (Z.to_nat (window_size opts)) (init_tbl opts) [].
Proof.
  unfold init_tbl. set (n := Z.to_nat (window_size opts)).
  destruct (fold_push_rep
              (fun t k => tbl_push FreeList k (upd k (set_state STATE_FREE) t))
              (fun _ => FreeList) (fun _ _ => set_state STATE_FREE)
              (fun _ => True))
    with (k := n) (a := O)
         (t := mk_tbl (replicate n zero_prod) empty_list empty_list empty_list)
         (ls := fun _ : which_list => @nil nat)
    as (ls & R1 & R2 & R3 & _ & _); try done.
  - intros w. destruct w; repeat split.
  - constructor.
  - intros x Hx. inversion Hx.
  - simpl. rewrite length_replicate. lia.
  - exists ls. rewrite app_nil_r. split; [exact R1|]. split; [exact R2|].
    split; [|constructor]. rewrite R3. simpl. apply length_replicate.
Qed.

(** ** The send loop keeps the discipline *)

Section LoopInv.

Variable opts : client_opt.
Variable qsort :
  (prod_info_t -> prod_info_t -> Z) -> list prod_info_t -> list prod_info_t.

Local Abbreviation n := (Z.to_nat (window_size opts)).

Lemma tbl_inv_move_file e p t held :
  tbl_inv n t held -> tbl_inv n (move_file e p t) held.
Proof.
  intros H. unfold move_file. destruct (e_rename e); [|exact H].
  apply tbl_inv_upd_next; [reflexivity|exact H].
Qed.

Lemma tbl_inv_store_state idx v t t' held :
  store_state idx v t = Some t' -> tbl_inv n t held -> tbl_inv n t' held.
Proof.
  unfold store_state. destruct (_ && _); [|discriminate].
  intros [= <-]. apply tbl_inv_upd_next. reflexivity.
Qed.

Lemma tbl_inv_create_conn_msg e t t' r :
  tbl_inv n t [] -> create_conn_msg opts e t = (t', r) ->
  tbl_inv n t' (option_list r).
Proof.
  intros Hinv. unfold create_conn_msg.
  destruct (tbl_pop FreeList t) as [t1 [p|]] eqn:Ep;
    pose proof (tbl_inv_pop _ _ _ _ _ _ Hinv Ep) as Hp.
  - destruct Hp as (Hp & _).
    destruct (snd (e_conn_msg e)); intros [= <- <-]; cbn [option_list].
    + repeat apply tbl_inv_upd_held; try exact Hp; left.
    + eapply tbl_inv_push; [|reflexivity].
      apply tbl_inv_upd_held; [exact Hp|left].
  - destruct Hp as (-> & _). intros [= <- <-].
    apply tbl_inv_rebuild. destruct Hinv as (? & ? & ? & ? & ?). assumption.
Qed.

Lemma loop_inv_init e : loop_inv opts (poll_and_send_init opts e).
Proof.
  unfold loop_inv, poll_and_send_init.
  destruct (connect_wmo opts).
  - destruct (create_conn_msg opts e (init_tbl opts)) as [t r] eqn:E.
    cbn [prod_tbl p_prod].
    eapply tbl_inv_create_conn_msg; [|exact E]. apply tbl_inv_init.
  - cbn [prod_tbl p_prod option_list]. apply tbl_inv_init.
Qed.

Lemma tbl_inv_length t held : tbl_inv n t held -> length (prod t) = n.
Proof. intros (? & ? & ? & ? & ?). assumption. Qed.

Lemma step_top_inv e s s' :
  loop_inv opts s -> step_top opts e s = Some s' -> loop_inv opts s'.
Proof.
  unfold loop_inv, step_top. intros Hinv.
  destruct (flag_set (Flags s) SHUTDOWN_FLAG).
  { intros [= <-]. destruct (sock_fd s >=? 0); exact Hinv. }
  destruct (_ && _); [|intros [= <-]; exact Hinv].
  destruct (connect_wmo opts); [|intros [= <-]; exact Hinv].
  match goal with |- context [create_conn_msg opts e ?t1] =>
    assert (H1 : tbl_inv n t1 []); [|destruct (create_conn_msg opts e t1) as [t2 r] eqn:E]
  end.
  { destruct (p_prod s) as [p|]; cbn [option_list] in Hinv; [|exact Hinv].
    destruct (same_ptr (p_connect s) p).
    - eapply tbl_inv_drop; [exact Hinv|]. apply submseteq_nil_l.
    - eapply tbl_inv_push; [exact Hinv|reflexivity]. }
  intros [= <-]. cbn [prod_tbl p_prod with_pc with_p_connect with_p_prod with_tbl].
  eapply tbl_inv_create_conn_msg; eassumption.
Qed.

Lemma step_connect_inv e s s' :
  loop_inv opts s -> step_connect e s = Some s' -> loop_inv opts s'.
Proof.
  unfold loop_inv, step_connect. intros Hinv.
  destruct (sock_fd s <? 0); [destruct (e_connect e <? 0)|];
    intros [= <-]; exact Hinv.
Qed.

Lemma step_requeue_inv e s s' :
  loop_inv opts s -> step_requeue opts e s = Some s' -> loop_inv opts s'.
Proof.
  unfold loop_inv, step_requeue. intros Hinv.
  destruct (Z.gtb_spec (count (ack_list (prod_tbl s))) 0) as [Hc|Hc];
    [|intros [= <-]; exact Hinv].
  destruct (tbl_pop AckList (prod_tbl s)) as [t1 [p_retr|]] eqn:Ep;
    pose proof (tbl_inv_pop _ _ _ _ _ _ Hinv Ep) as Hp.
  2:{ destruct Hp as (_ & Hz & _). cbn [get_list] in Hz. lia. }
  destruct Hp as (Hp & _).
  destruct (same_ptr (p_connect s) p_retr).
  { intros [= <-]. cbn [prod_tbl p_prod with_i with_tbl].
    eapply tbl_inv_drop; [exact Hp|]. apply submseteq_cons. reflexivity. }
  match goal with |- match ?x with _ => _ end = _ -> _ =>
    destruct x as [t2|] eqn:E2; [|discriminate] end.
  intros [= <-]. cbn [prod_tbl p_prod log with_i with_tbl].
  eapply tbl_inv_push; [|reflexivity].
  destruct (i s >? 0); [|injection E2 as <-; exact Hp].
  destruct (p_prod s) as [p|]; [|discriminate].
  destruct (send_count (slot t1 p) >? 0); injection E2 as <-; [|exact Hp].
  apply tbl_inv_upd_next; [reflexivity|exact Hp].
Qed.

Lemma step_acquire_inv e s s' :
  loop_inv opts s -> step_acquire opts qsort e s = Some s' -> loop_inv opts s'.
Proof.
  unfold loop_inv, step_acquire. intros Hinv.
  destruct (p_prod s) as [p0|] eqn:Epp.
  { intros [= <-]. cbn [prod_tbl p_prod with_pc]. rewrite Epp. exact Hinv. }
  cbn [option_list] in Hinv.
  pose proof (tbl_inv_length _ _ Hinv) as Hlen.
  destruct (count (ack_list (prod_tbl s)) <? window_size opts).
  - destruct (count (retr_list (prod_tbl s)) >? 0).
    + destruct (tbl_pop RetrList (prod_tbl s)) as [t1 [p|]] eqn:Ep;
        pose proof (tbl_inv_pop _ _ _ _ _ _ Hinv Ep) as Hp;
        intros [= <-]; cbn [prod_tbl p_prod log with_pc with_p_prod with_tbl].
      * apply Hp.
      * destruct Hp as (-> & _). rewrite Epp. apply tbl_inv_rebuild, Hlen.
    + destruct (tbl_pop FreeList (prod_tbl s)) as [t1 [p|]] eqn:Ep;
        pose proof (tbl_inv_pop _ _ _ _ _ _ Hinv Ep) as Hp.
      * destruct Hp as (Hp & _).
        destruct (get_next_file opts t1 qsort (e_poll e) (qstat s) (slot t1 p))
          as [[rc q1] pr1].
        destruct (rc <? 0); [|destruct (rc >? 0)]; intros [= <-];
          cbn [prod_tbl p_prod log with_pc with_p_prod with_tbl
               with_input_failures with_queue_len with_qstat option_list].
        -- exact Hp.
        -- apply tbl_inv_upd_held; [exact Hp|left].
        -- eapply tbl_inv_push; [exact Hp|reflexivity].
      * destruct Hp as (-> & _). intros [= <-].
        cbn [prod_tbl p_prod with_pc with_tbl]. rewrite Epp.
        apply tbl_inv_rebuild, Hlen.
  - destruct (count (ack_list (prod_tbl s)) =? window_size opts);
      intros [= <-]; cbn [prod_tbl p_prod with_pc with_tbl]; rewrite Epp.
    + exact Hinv.
    + apply tbl_inv_rebuild, Hlen.
Qed.

Lemma step_ttl_inv e s s' :
  loop_inv opts s -> step_ttl opts e s = Some s' -> loop_inv opts s'.
Proof.
  unfold loop_inv, step_ttl. intros Hinv.
  destruct (p_prod s) as [p|] eqn:Epp.
  2:{ intros [= <-]. cbn [prod_tbl p_prod with_pc]. rewrite Epp. exact Hinv. }
  destruct (_ && _); intros [= <-];
    cbn [prod_tbl p_prod log with_pc with_p_prod with_tbl option_list].
  - eapply tbl_inv_push; [|reflexivity]. apply tbl_inv_move_file.
    apply tbl_inv_upd_next; [reflexivity|exact Hinv].
  - rewrite Epp. exact Hinv.
Qed.

Lemma step_send_inv e s s' :
  loop_inv opts s -> step_send opts e s = Some s' -> loop_inv opts s'.
Proof.
  unfold loop_inv, step_send. intros Hinv [= <-].
  cbn [prod_tbl p_prod with_pc with_ack_ready].
  destruct (p_prod s) as [p|] eqn:Epp; [|rewrite Epp; exact Hinv].
  destruct (sock_fd s >=? 0); [|rewrite Epp; exact Hinv].
  destruct (send_prod opts e (ProdSeqno s) (Flags s) (slot (prod_tbl s) p))
    as [[[rc pr1] sq1] fl1].
  cbn [option_list] in Hinv.
  assert (H1 : tbl_inv n (upd p (fun _ => pr1) (prod_tbl s)) [p]).
  { apply tbl_inv_upd_held; [exact Hinv|left]. }
  destruct (rc =? 0); [|destruct (Ascii.eqb (state pr1) STATE_FAILED)];
    cbn [prod_tbl p_prod log with_p_prod with_tbl with_ProdSeqno with_Flags
         option_list].
  - eapply tbl_inv_push; [exact H1|reflexivity].
  - eapply tbl_inv_push; [|reflexivity]. apply tbl_inv_move_file, H1.
  - rewrite Epp. exact H1.
Qed.

Lemma step_acks_inv e s s' :
  loop_inv opts s -> step_acks opts e s = Some s' -> loop_inv opts s'.
Proof.
  unfold loop_inv, step_acks. intros Hinv.
  destruct (sock_fd s >=? 0); cbn [andb]; [|intros [= <-]; exact Hinv].
  destruct (bool_decide (p_head (ack_list (prod_tbl s)) <> None)) eqn:Hhd;
    cbn [andb]; [|intros [= <-]; exact Hinv].
  apply bool_decide_eq_true in Hhd.
  destruct (ack_ready s >? 0); [|intros [= <-]; exact Hinv].
  destruct (check_for_ack opts e >? 0).
  2:{ destruct (check_for_ack opts e =? 0);
        [destruct (_ <=? 0)|]; intros [= <-]; exact Hinv. }
  destruct (tbl_pop AckList (prod_tbl s)) as [t1 [p_ack|]] eqn:Ep;
    pose proof (tbl_inv_pop _ _ _ _ _ _ Hinv Ep) as Hp.
  2:{ destruct Hp as (_ & _ & Hz). cbn [get_list] in Hz. contradiction. }
  destruct Hp as (Hp & _).
  assert (Hclear : forall s0 : loop_state,
            prod_tbl (if same_ptr (p_connect s) p_ack
                      then with_p_connect None s0 else s0) = prod_tbl s0
            /\ p_prod (if same_ptr (p_connect s) p_ack
                       then with_p_connect None s0 else s0) = p_prod s0).
  { intros s0. destruct (same_ptr (p_connect s) p_ack); split; reflexivity. }
  destruct (recv_ack opts e (slot t1 p_ack)) as [[ack_code|] fl].
  2:{ intros [= <-]. cbn [prod_tbl p_prod with_pc with_ack_ready with_Flags with_tbl].
      eapply tbl_inv_push; [exact Hp|reflexivity]. }
  assert (Hst : forall v, tbl_inv n (upd p_ack (set_state v) t1)
                            (p_ack :: option_list (p_prod s))).
  { intros v. apply tbl_inv_upd_next; [reflexivity|exact Hp]. }
  destruct (Ascii.eqb ack_code ACK_OK).
  { destruct (store_state _ _ _) as [t3|] eqn:Es; [|discriminate].
    intros [= <-]. destruct (Hclear (log [EvFinish p_ack]
      (with_tbl (tbl_push FreeList p_ack t3)
         (log [EvAck p_ack ack_code] (with_ack_ready (check_for_ack opts e) s)))))
      as [-> ->].
    cbn [prod_tbl p_prod log with_ack_ready with_tbl].
    eapply tbl_inv_push; [|reflexivity].
    eapply tbl_inv_store_state; [exact Es|]. apply tbl_inv_move_file, Hst. }
  destruct (Ascii.eqb ack_code ACK_FAIL).
  { destruct (store_state _ _ _) as [t3|] eqn:Es; [|discriminate].
    intros [= <-]. destruct (Hclear (log [EvAbort p_ack]
      (with_tbl (tbl_push FreeList p_ack t3)
         (log [EvAck p_ack ack_code] (with_ack_ready (check_for_ack opts e) s)))))
      as [-> ->].
    cbn [prod_tbl p_prod log with_ack_ready with_tbl].
    eapply tbl_inv_push; [|reflexivity].
    eapply tbl_inv_store_state; [exact Es|]. apply tbl_inv_move_file, Hst. }
  destruct (Ascii.eqb ack_code ACK_RETRY).
  { destruct (same_ptr (p_connect s) p_ack) eqn:Esp.
    - destruct (store_state _ _ _) as [t3|] eqn:Es; [|discriminate].
      intros [= <-]. cbn [prod_tbl p_prod log with_ack_ready with_tbl with_p_connect].
      eapply tbl_inv_push; [|reflexivity].
      eapply tbl_inv_store_state; [exact Es|exact Hp].
    - intros [= <-]. cbn [prod_tbl p_prod log with_ack_ready with_tbl].
      eapply tbl_inv_push; [|reflexivity]. apply Hst. }
  intros [= <-].
  destruct (Hclear (with_Flags (Z.lor (Flags s) DISCONNECT_FLAG)
      (with_ack_ready (-1)
         (with_tbl (tbl_push AckList p_ack t1)
            (log [EvAck p_ack ack_code]
               (with_ack_ready (check_for_ack opts e) s)))))) as [-> ->].
  cbn [prod_tbl p_prod log with_ack_ready with_tbl with_Flags].
  eapply tbl_inv_push; [exact Hp|reflexivity].
Qed.

Lemma step_inv e s s' :
  loop_inv opts s -> step opts qsort e s = Some s' -> loop_inv opts s'.
Proof.
  intros Hinv. unfold step.
  set (s0 := with_Flags (Z.lor (Flags s) (e_signals e)) s).
  assert (H0 : loop_inv opts s0) by exact Hinv.
  destruct (pc s0).
  - apply step_top_inv, H0.
  - apply step_connect_inv, H0.
  - apply step_requeue_inv, H0.
  - apply step_acquire_inv, H0.
  - apply step_ttl_inv, H0.
  - apply step_send_inv, H0.
  - apply step_acks_inv, H0.
  - intros [= <-]. exact H0.
  - intros [= <-]. exact H0.
Qed.

Lemma reachable_inv s : reachable opts qsort s -> loop_inv opts s.
Proof.
  induction 1 as [e|e s s' _ IH Hstep].
  - apply loop_inv_init.
  - eapply step_inv; eassumption.
Qed.

End LoopInv.

(** ** The statements *)

Lemma walk_chain h l : forall fuel s,
  chain h s l -> (length l <= fuel)%nat -> walk fuel h s = l.
Proof.
  induction l as [|x l IH]; intros fuel s Hc Hf.
  - simpl in Hc. subst. destruct fuel; reflexivity.
  - destruct Hc as (-> & pr & Hx & Hc). destruct fuel; [simpl in Hf; lia|].
    simpl. rewrite Hx. simpl. f_equal. apply IH; [exact Hc|simpl in Hf; lia].
Qed.

Lemma tbl_inv_contents n t held :
  tbl_inv n t held ->
  tbl_rep t (fun w => list_content w t)
  /\ NoDup (all_slots (fun w => list_content w t) ++ held)
  /\ Forall (fun x => (x < n)%nat) (all_slots (fun w => list_content w t) ++ held).
Proof.
  intros Hinv. pose proof Hinv as (ls & Hrep & Hnd & Hlen & Hh).
  assert (E : forall w, list_content w t = ls w).
  { intros w. unfold list_content. destruct (Hrep w) as (Hc & _ & Hn).
    apply walk_chain; [exact Hc|].
    pose proof (tbl_inv_count n t held w Hinv). lia. }
  assert (Ea : all_slots (fun w => list_content w t) = all_slots ls).
  { unfold all_slots. rewrite !E. reflexivity. }
  rewrite Ea. split; [|split].
  - intros w. rewrite E. apply Hrep.
  - exact Hnd.
  - apply Forall_app. split; [|exact Hh].
    apply Forall_forall. intros x Hx. apply elem_of_all_slots in Hx as [w Hx].
    destruct (Hrep w) as (Hc & _). rewrite <- Hlen.
    eapply chain_in_range; eassumption.
Qed.

Lemma run_reachable opts qsort es : forall s s',
  reachable opts qsort s -> run opts qsort es s = Some s' ->
  reachable opts qsort s'.
Proof.
  induction es as [|e es IH]; intros s s' Hr H; simpl in H.
  - injection H as <-. exact Hr.
  - destruct (step opts qsort e s) as [s1|] eqn:E; [|discriminate].
    eapply IH; [|exact H]. eapply reach_step; eassumption.
Qed.

(** C9.  On a list whose head is NULL, [pop_prod] returns NULL and leaves
    the pool and the head, tail and count of the list as they were.  On a
    list with a head it returns the head, takes one off the count, makes
    the successor the head and, when there is none, sets the tail to
    NULL; on a well-formed list of slots [x :: l] what is left is the
    well-formed list [l]. *)
Theorem pop_prod_spec h L :
  (p_head L = None -> pop_prod h L = (h, L, None))
  /\ (forall x, p_head L = Some x ->
        (pop_prod h L).2 = Some x
        /\ (pop_prod h L).1.1 = alter (set_p_next None) x h
        /\ count (pop_prod h L).1.2 = count L - 1
        /\ p_head (pop_prod h L).1.2 = (h !! x) ≫= p_next
        /\ (p_head (pop_prod h L).1.2 = None ->
            p_tail (pop_prod h L).1.2 = None)
        /\ (p_head (pop_prod h L).1.2 <> None ->
            p_tail (pop_prod h L).1.2 = p_tail L))
  /\ (forall x l, is_list h L (x :: l) -> x ∉ l ->
        (pop_prod h L).2 = Some x
        /\ is_list (pop_prod h L).1.1 (pop_prod h L).1.2 l).
Proof.
  split; [|split].
  - intros H. unfold pop_prod. rewrite H. reflexivity.
  - intros x H. unfold pop_prod. rewrite H. cbn [fst snd count p_head p_tail].
    repeat split; try reflexivity.
    + intros ->. reflexivity.
    + destruct ((h !! x) ≫= p_next); [reflexivity|congruence].
  - intros x l Hl Hx. destruct (is_list_pop h L x l Hl Hx) as (H1 & _ & H3).
    split; assumption.
Qed.

Section Discipline.

Variable opts : client_opt.
Variable qsort :
  (prod_info_t -> prod_info_t -> Z) -> list prod_info_t -> list prod_info_t.

Lemma counts_sum n t held :
  tbl_inv n t held ->
  count (free_list t) + count (ack_list t) + count (retr_list t)
  = Z.of_nat (length (all_slots (fun w => list_content w t)))
  /\ (length (all_slots (fun w => list_content w t)) + length held <= n)%nat.
Proof.
  intros Hinv. destruct (tbl_inv_contents n t held Hinv) as (Hrep & Hnd & Hr).
  split.
  - unfold all_slots. rewrite !length_app.
    destruct (Hrep FreeList) as (_ & _ & HF).
    destruct (Hrep AckList) as (_ & _ & HA).
    destruct (Hrep RetrList) as (_ & _ & HR).
    cbn [get_list] in HF, HA, HR. rewrite HF, HA, HR. lia.
  - rewrite <- length_app.
    assert (Hle : (length (all_slots (fun w => list_content w t) ++ held)
                   <= length (seq 0 n))%nat).
    { apply submseteq_length, NoDup_submseteq; [exact Hnd|].
      intros x Hx. apply elem_of_seq. rewrite Forall_forall in Hr.
      specialize (Hr x Hx). lia. }
    rewrite length_seq in Hle. exact Hle.
Qed.

(** C4 (as amended).  In every state the loop reaches, the three lists are
    well formed, their count fields are their lengths, no slot is on two
    lists or twice on one, the slot held as current product is on none,
    and the counts and the held slot together do not exceed the pool.
    [rebuild_lists], from the states of the slots alone, puts every slot
    of the pool on exactly one list: queued and retry on the retry list,
    sent on the awaiting-ack list, every other state on the free list;
    the counts then sum to the size of the pool. *)
Theorem list_discipline :
  (forall s, reachable opts qsort s ->
     let t := prod_tbl s in
     let held := option_list (p_prod s) in
     (forall w, is_list (prod t) (get_list w t) (list_content w t))
     /\ NoDup (list_content FreeList t ++ list_content AckList t
                 ++ list_content RetrList t ++ held)
     /\ count (free_list t) + count (ack_list t) + count (retr_list t)
          + Z.of_nat (length held) <= Z.of_nat (length (prod t))
     /\ length (prod t) = Z.to_nat (window_size opts))
  /\ (forall t, length (prod t) = Z.to_nat (window_size opts) ->
        let t' := rebuild_lists opts t in
        (forall w, is_list (prod t') (get_list w t') (list_content w t'))
        /\ (forall w x, x ∈ list_content w t' <->
              (x < length (prod t))%nat
              /\ list_of_state (state (slot t x)) = w)
        /\ Permutation (list_content FreeList t' ++ list_content AckList t'
                          ++ list_content RetrList t')
                       (seq 0 (length (prod t)))
        /\ count (free_list t') + count (ack_list t') + count (retr_list t')
           = Z.of_nat (length (prod t))
        /\ (forall j, state (slot t' j) = state (slot t j))).
Proof.
  split.
  - intros s Hr t held. apply reachable_inv in Hr. unfold loop_inv in Hr.
    fold t held in Hr.
    destruct (tbl_inv_contents _ t held Hr) as (Hrep & Hnd & _).
    destruct (counts_sum _ t held Hr) as (Hsum & Hle).
    split; [exact Hrep|]. split; [|split].
    + unfold all_slots in Hnd. rewrite <- !app_assoc in Hnd. exact Hnd.
    + rewrite (tbl_inv_length _ _ _ Hr). lia.
    + exact (tbl_inv_length _ _ _ Hr).
  - intros t Hlen t'.
    destruct (rebuild_lists_spec opts t Hlen) as (ls & R1 & R2 & R3 & R4 & R5).
    assert (Hinv : tbl_inv (Z.to_nat (window_size opts)) t' []).
    { apply tbl_inv_rebuild, Hlen. }
    destruct (tbl_inv_contents _ t' [] Hinv) as (Hrep & Hnd & Hrg).
    rewrite app_nil_r in Hnd, Hrg.
    assert (E : forall w, list_content w t' = ls w).
    { intros w. unfold list_content.
      destruct (R1 w) as (Hc & _ & _). destruct (Hrep w) as (Hc' & _ & _).
      apply walk_chain; [exact Hc|].
      pose proof (tbl_inv_count _ t' [] w Hinv) as [_ Hb].
      destruct (R1 w) as (_ & _ & Hn). fold t' in Hn.
      rewrite (tbl_inv_length _ _ _ Hinv). simpl in Hb. lia. }
    assert (Hperm : Permutation (all_slots (fun w => list_content w t'))
                                (seq 0 (length (prod t)))).
    { apply NoDup_Permutation; [exact Hnd|apply NoDup_seq|].
      intros x. rewrite elem_of_all_slots, elem_of_seq. split.
      - intros [w Hx]. rewrite E in Hx. apply R5 in Hx. lia.
      - intros [_ Hx]. exists (list_of_state (state (slot t x))).
        rewrite E. apply R5. split; [simpl in Hx; lia|reflexivity]. }
    split; [exact Hrep|]. split; [|split; [|split]].
    + intros w x. rewrite E. apply R5.
    + exact Hperm.
    + destruct (counts_sum _ t' [] Hinv) as (-> & _).
      rewrite (Permutation_length Hperm), length_seq. reflexivity.
    + exact R4.
Qed.

End Discipline.

Section Window.

Variable opts : client_opt.
Variable qsort :
  (prod_info_t -> prod_info_t -> Z) -> list prod_info_t -> list prod_info_t.

Ltac split_cases :=
  repeat match goal with
  | |- context [match ?x with _ => _ end] => destruct x eqn:?
  end.

Ltac trace_done :=
  intros; simplify_eq; cbn [trace log with_pc with_sock_fd with_tbl with_p_prod
       with_p_connect with_i with_ack_ready with_connect_failures
       with_input_failures with_queue_len with_Flags with_ProdSeqno
       with_qstat];
  eexists;
  (split;
    [ first [ symmetry; apply app_nil_r
            | reflexivity
            | rewrite <- ?app_assoc; reflexivity ]
    | try reflexivity ]).

Lemma step_top_trace e s s' :
  step_top opts e s = Some s' ->
  exists evs, trace s' = trace s ++ evs /\ existsb is_acquire evs = false.
Proof. unfold step_top. split_cases; trace_done. Qed.

Lemma step_connect_trace e s s' :
  step_connect e s = Some s' ->
  exists evs, trace s' = trace s ++ evs /\ existsb is_acquire evs = false.
Proof. unfold step_connect. split_cases; trace_done. Qed.

Lemma step_requeue_trace e s s' :
  step_requeue opts e s = Some s' ->
  exists evs, trace s' = trace s ++ evs /\ existsb is_acquire evs = false.
Proof. unfold step_requeue. split_cases; trace_done. Qed.

Lemma step_ttl_trace e s s' :
  step_ttl opts e s = Some s' ->
  exists evs, trace s' = trace s ++ evs /\ existsb is_acquire evs = false.
Proof. unfold step_ttl. split_cases; trace_done. Qed.

Lemma step_send_trace e s s' :
  step_send opts e s = Some s' ->
  exists evs, trace s' = trace s ++ evs /\ existsb is_acquire evs = false.
Proof. unfold step_send. split_cases; trace_done. Qed.

Lemma step_acks_trace e s s' :
  step_acks opts e s = Some s' ->
  exists evs, trace s' = trace s ++ evs /\ existsb is_acquire evs = false.
Proof. unfold step_acks. split_cases; trace_done. Qed.

Lemma step_acquire_trace e s s' :
  step_acquire opts qsort e s = Some s' ->
  exists evs, trace s' = trace s ++ evs
    /\ (existsb is_acquire evs = true ->
        count (ack_list (prod_tbl s)) < window_size opts).
Proof.
  unfold step_acquire.
  destruct (p_prod s); [trace_done; discriminate|].
  destruct (Z.ltb_spec (count (ack_list (prod_tbl s))) (window_size opts)).
  - split_cases; trace_done; intros _; assumption.
  - split_cases; trace_done; discriminate.
Qed.

Lemma step_acquire_full e s :
  count (ack_list (prod_tbl s)) = window_size opts ->
  step_acquire opts qsort e s = Some (with_pc AtTTL s).
Proof.
  intros H. unfold step_acquire. destruct (p_prod s); [reflexivity|].
  rewrite H, Z.ltb_irrefl, Z.eqb_refl. reflexivity.
Qed.

(** C3 (as amended).  With [window_size >= 1], in every state the loop
    reaches [ack_list.count <= window_size]; at the point where the next
    product is acquired, a full window leaves everything but the program
    point as it was; and a step that takes a product from the retry list
    or goes to the input queue starts from [ack_list.count < window_size]. *)
Theorem ack_window_bound s :
  1 <= window_size opts -> reachable opts qsort s ->
  count (ack_list (prod_tbl s)) <= window_size opts
  /\ (forall e, pc s = AtAcquire ->
        count (ack_list (prod_tbl s)) = window_size opts ->
        step opts qsort e s
        = Some (with_pc AtTTL (with_Flags (Z.lor (Flags s) (e_signals e)) s)))
  /\ (forall e s', step opts qsort e s = Some s' ->
        exists evs, trace s' = trace s ++ evs
          /\ (existsb is_acquire evs = true ->
              pc s = AtAcquire
              /\ count (ack_list (prod_tbl s)) < window_size opts)).
Proof.
  intros Hws Hr. split; [|split].
  - apply reachable_inv in Hr.
    pose proof (tbl_inv_count _ _ _ AckList Hr) as [_ Hb].
    cbn [get_list] in Hb. lia.
  - intros e Hpc Hfull. unfold step. cbn [pc with_Flags]. rewrite Hpc.
    apply step_acquire_full. exact Hfull.
  - intros e s'. unfold step.
    set (s0 := with_Flags (Z.lor (Flags s) (e_signals e)) s).
    change (pc s0) with (pc s).
    change (trace s) with (trace s0).
    change (prod_tbl s) with (prod_tbl s0).
    destruct (pc s); intros Hstep.
    + apply step_top_trace in Hstep as (evs & E & Hn).
      exists evs. split; [exact E|]. rewrite Hn. discriminate.
    + apply step_connect_trace in Hstep as (evs & E & Hn).
      exists evs. split; [exact E|]. rewrite Hn. discriminate.
    + apply step_requeue_trace in Hstep as (evs & E & Hn).
      exists evs. split; [exact E|]. rewrite Hn. discriminate.
    + apply step_acquire_trace in Hstep as (evs & E & Hn).
      exists evs. split; [exact E|]. intros H. split; [reflexivity|auto].
    + apply step_ttl_trace in Hstep as (evs & E & Hn).
      exists evs. split; [exact E|]. rewrite Hn. discriminate.
    + apply step_send_trace in Hstep as (evs & E & Hn).
      exists evs. split; [exact E|]. rewrite Hn. discriminate.
    + apply step_acks_trace in Hstep as (evs & E & Hn).
      exists evs. split; [exact E|]. rewrite Hn. discriminate.
    + injection Hstep as <-. exists []. split; [symmetry; apply app_nil_r|discriminate].
    + injection Hstep as <-. exists []. split; [symmetry; apply app_nil_r|discriminate].
Qed.

End Window.

Lemma product_in_hand_reachable :
  reachable (opts_window 2) insertion_qsort product_in_hand.
Proof.
  apply (run_reachable _ _ [quiet; quiet; quiet; quiet] _ _
           (reach_init _ _ quiet)).
  vm_compute. reflexivity.
Qed.

Lemma window_full_reachable :
  reachable (opts_window 1) insertion_qsort window_full.
Proof.
  apply (run_reachable _ _ script_one_sent _ _ (reach_init _ _ quiet)).
  vm_compute. reflexivity.
Qed.

Lemma pop_prod_spec_witness :
  (pop_prod two_slots two_list).2 = Some 0%nat
  /\ is_list (pop_prod two_slots two_list).1.1
             (pop_prod two_slots two_list).1.2 [1%nat].
Proof.
  refine (proj2 (proj2 (pop_prod_spec two_slots two_list)) 0%nat [1%nat] _ _).
  - unfold is_list. cbn. repeat split; eauto.
    eexists; split; [reflexivity|]. split; [reflexivity|].
    eexists; split; reflexivity.
  - intros H. apply list_elem_of_singleton in H. discriminate.
Defined.

Lemma ack_window_bound_witness :
  count (ack_list (prod_tbl window_full)) <= window_size (opts_window 1).
Proof.
  refine (proj1 (ack_window_bound (opts_window 1) insertion_qsort window_full
                   _ window_full_reachable)).
  vm_compute. discriminate.
Defined.

(** The window was full, no acknowledgement has been processed since, and
    a product is acquired from the retry list all the same: the ack timed
    out and the reconnect moved the product to the retry list. *)
Lemma window_reopens_without_ack :
  run (opts_window 1) insertion_qsort script_one_sent
      (poll_and_send_init (opts_window 1) quiet) = Some window_full
  /\ count (ack_list (prod_tbl window_full)) = window_size (opts_window 1)
  /\ trace window_full = [EvPoll 3; EvAcquireNew 0; EvSend 0 0]
  /\ run (opts_window 1) insertion_qsort script_timeout window_full
     = Some window_reopened
  /\ trace window_reopened
     = trace window_full ++ [EvRequeue 0; EvAcquireRetr 0]
  /\ p_prod window_reopened = Some 0%nat.
Proof. vm_compute. repeat split; reflexivity. Qed.

(** A product taken from the queue and not yet sent is on none of the
    three lists, and the counts sum to one less than the pool. *)
Lemma held_slot_on_no_list :
  reachable (opts_window 2) insertion_qsort product_in_hand
  /\ p_prod product_in_hand = Some 0%nat
  /\ state (slot (prod_tbl product_in_hand) 0) = STATE_QUEUED
  /\ list_content FreeList (prod_tbl product_in_hand) = [1%nat]
  /\ list_content AckList (prod_tbl product_in_hand) = []
  /\ list_content RetrList (prod_tbl product_in_hand) = []
  /\ count (free_list (prod_tbl product_in_hand))
     + count (ack_list (prod_tbl product_in_hand))
     + count (retr_list (prod_tbl product_in_hand)) = 1
  /\ window_size (opts_window 2) = 2.
Proof.
  split; [exact product_in_hand_reachable|].
  vm_compute. repeat split; reflexivity.
Qed.

Lemma list_discipline_witness :
  let t := prod_tbl product_in_hand in
  count (free_list t) + count (ack_list t) + count (retr_list t)
    + Z.of_nat (length (option_list (p_prod product_in_hand)))
  <= Z.of_nat (length (prod t)).
Proof.
  intros t.
  exact (proj1 (proj2 (proj2
           (proj1 (list_discipline (opts_window 2) insertion_qsort)
              product_in_hand product_in_hand_reachable)))).
Defined.

(** C5 (the code at the failing input).  Slots 1 and 0 await their acks,
    in this order, both in state sent.  Processing the [K] ack for slot 1
    dispositions slot 1 and puts it on the free list, and it sets the
    state of slot 0, which still awaits its ack, to free; slot 1 itself
    keeps the state acked. *)
Theorem ack_changes_other_slot :
  reachable (opts_window 2) insertion_qsort before_ack
  /\ pc before_ack = AtAcks
  /\ i before_ack = 0
  /\ list_content AckList (prod_tbl before_ack) = [1%nat; 0%nat]
  /\ map state (prod (prod_tbl before_ack)) = [STATE_SENT; STATE_SENT]
  /\ step (opts_window 2) insertion_qsort (env_ok 1 1 ACK_OK) before_ack
     = Some after_ack
  /\ trace after_ack = trace before_ack ++ [EvAck 1 ACK_OK; EvFinish 1]
  /\ list_content AckList (prod_tbl after_ack) = [0%nat]
  /\ list_content FreeList (prod_tbl after_ack) = [1%nat]
  /\ map state (prod (prod_tbl after_ack)) = [STATE_FREE; STATE_ACKED].
Proof.
  split.
  - apply (run_reachable _ _ script_two_sent _ _ (reach_init _ _ quiet)).
    vm_compute. reflexivity.
  - vm_compute. repeat split; reflexivity.
Qed.

End ClientSendFacts.

(* ===================================================================== *)
(** * Facts about share.c: acks and the CCB heading                       *)
(* ===================================================================== *)

Module ShareAckFacts.
Import Share ShareAck ShareFacts.
Import Samples.

Lemma decimal_digits n : 0 <= n ->
  Forall (fun c => isdigit c = true) (decimal n)
  /\ fold_left scan_step (decimal n) 0 = n
  /\ (1 <= length (decimal n))%nat.
Proof.
  intros Hn. unfold decimal.
  set (f := S (Z.to_nat (Z.log2 n))).
  pose proof (decimal_fuel_enough n Hn) as Hf. fold f in Hf.
  assert (Hk : 0 <= n < 10 ^ Z.of_nat f) by lia.
  destruct (decimal_fuel_pad f n f Hk Hf ltac:(subst f; lia)) as [Hl He].
  pose proof (fixed_digits f n) as Hd. rewrite <- He in Hd.
  apply Forall_app in Hd as [_ Hd].
  pose proof (value_fixed f n 0 Hk) as Hv. rewrite <- He in Hv.
  rewrite fold_left_app in Hv.
  assert (Hz : forall m, fold_left scan_step (repeat "0" m) 0 = 0).
  { induction m as [|m IH]; [reflexivity|]. simpl. exact IH. }
  rewrite Hz in Hv. split; [exact Hd|]. split; [lia|].
  subst f. cbn [decimal_fuel]. rewrite length_app. simpl. lia.
Qed.

Lemma length_decimal_le n k : 0 <= n -> (1 <= k)%nat ->
  (length (decimal n) <= k)%nat <-> n < 10 ^ Z.of_nat k.
Proof.
  intros Hn Hk. unfold decimal.
  pose proof (decimal_fuel_enough n Hn) as Hf.
  split.
  - intros Hl. destruct (Z.lt_ge_cases n (10 ^ Z.of_nat k)) as [?|Hge];
      [assumption|].
    pose proof (decimal_fuel_long _ n k Hge Hf). lia.
  - intros Hlt. apply (decimal_fuel_pad _ n k); [lia|exact Hf|exact Hk].
Qed.

(** The length of a [%5d] field. *)
Lemma length_fmt_wd5 v :
  (5 <= length (fmt_wd 5 v))%nat
  /\ (length (fmt_wd 5 v) = 5%nat <-> -9999 <= v <= 99999)
  /\ ((length (fmt_wd 5 v) <= 6)%nat <-> -99999 <= v <= 999999).
Proof.
  unfold fmt_wd.
  pose proof (length_decimal_le (Z.abs v) 4 ltac:(lia) ltac:(lia)) as H4.
  pose proof (length_decimal_le (Z.abs v) 5 ltac:(lia) ltac:(lia)) as H5.
  pose proof (length_decimal_le (Z.abs v) 6 ltac:(lia) ltac:(lia)) as H6.
  change (10 ^ Z.of_nat 4) with 10000 in H4.
  change (10 ^ Z.of_nat 5) with 100000 in H5.
  change (10 ^ Z.of_nat 6) with 1000000 in H6.
  rewrite !length_app, repeat_length.
  remember (length (decimal (Z.abs v))) as len eqn:El. clear El.
  destruct (Z.ltb_spec v 0) as [Hneg|Hpos]; cbn [length]; lia.
Qed.

Lemma no_nul_fmt_wd w v :
  Forall (fun c => Ascii.eqb c "000" = false) (fmt_wd w v).
Proof.
  unfold fmt_wd. apply Forall_app. split.
  - apply Forall_forall. intros c Hc%list_elem_of_In%repeat_spec. subst.
    reflexivity.
  - apply Forall_app. split.
    + destruct (v <? 0); repeat constructor.
    + destruct (decimal_digits (Z.abs v) ltac:(lia)) as [Hd _].
      eapply Forall_impl; [exact Hd|]. intros c Hc.
      apply (digit_head c [] 0 Hc).
Qed.

Lemma c_str_no_nul l s :
  Forall (fun c => Ascii.eqb c "000" = false) l ->
  c_str (l ++ s) = l ++ c_str s.
Proof.
  induction 1 as [|c l Hc Hl IH]; [reflexivity|].
  cbn [app c_str]. rewrite Hc. f_equal. exact IH.
Qed.

(** Digits read by a conversion whose width does not run out. *)
Lemma scan_digits_wide l : forall w acc s,
  Forall (fun c => isdigit c = true) l -> (length l <= w)%nat ->
  match s with c :: _ => isdigit c = false | [] => True end ->
  scan_digits w acc (l ++ s) = (fold_left scan_step l acc, s).
Proof.
  induction l as [|c l IH]; intros w acc s Hd Hw Hs.
  - simpl. destruct w, s as [|c s]; try reflexivity.
    simpl. rewrite Hs. reflexivity.
  - inversion Hd as [|? ? Hc Hl]; subst.
    destruct w as [|w]; [simpl in Hw; lia|].
    simpl. rewrite Hc. apply IH; [exact Hl|simpl in Hw; lia|exact Hs].
Qed.

Lemma skip_space_spaces m s : skip_space (repeat " " m ++ s) = skip_space s.
Proof. induction m as [|m IH]; [reflexivity|]. simpl. exact IH. Qed.

Lemma scan_unsigned_wide l w s :
  Forall (fun c => isdigit c = true) l -> (1 <= length l <= w)%nat ->
  match s with c :: _ => isdigit c = false | [] => True end ->
  scan_unsigned w (l ++ s) = Some (fold_left scan_step l 0, s).
Proof.
  intros Hd Hl Hs. destruct l as [|d ds]; [simpl in Hl; lia|].
  destruct w as [|w]; [lia|].
  pose proof (scan_digits_wide (d :: ds) (S w) 0 s Hd ltac:(lia) Hs) as E.
  inversion Hd as [|? ? Hdig _]; subst.
  unfold scan_unsigned. cbn [app] in *. rewrite Hdig, E. reflexivity.
Qed.

Lemma scan_d_minus w r :
  scan_d (S w) ("-" :: r) = neg_result (scan_unsigned w r).
Proof. reflexivity. Qed.

Lemma scan_d_spaces w m s : scan_d w (repeat " " m ++ s) = scan_d w s.
Proof. unfold scan_d. rewrite skip_space_spaces. reflexivity. Qed.

(** What [%d] reads from spaces, a sign and digits [l] followed by [s]. *)
Lemma scan_d_signed m (neg : bool) l s w :
  Forall (fun c => isdigit c = true) l -> (1 <= length l)%nat ->
  (length (repeat " " m ++ (if neg then ["-"] else []) ++ l ++ s) <= w)%nat ->
  match s with c :: _ => isdigit c = false | [] => True end ->
  scan_d w (repeat " " m ++ (if neg then ["-"] else []) ++ l ++ s)
  = Some ((if neg then - fold_left scan_step l 0
           else fold_left scan_step l 0), s).
Proof.
  intros Hd Hl Hw Hs. rewrite scan_d_spaces.
  rewrite !length_app, repeat_length in Hw.
  destruct neg; cbn [app length] in *.
  - destruct w as [|w]; [lia|].
    rewrite scan_d_minus, scan_unsigned_wide; [|exact Hd|lia|exact Hs].
    reflexivity.
  - destruct l as [|d l']; [simpl in Hl; lia|].
    inversion Hd as [|? ? Hdig _]; subst.
    destruct w as [|w]; [simpl in Hw; lia|].
    destruct (digit_head d (l' ++ s) w Hdig) as (E1 & _).
    cbn [app]. rewrite E1.
    change (d :: l' ++ s) with ((d :: l') ++ s).
    rewrite scan_unsigned_wide; [|exact Hd|simpl in *; lia|exact Hs].
    reflexivity.
Qed.

Lemma fmt_wd_shape w5 v :
  exists m, fmt_wd w5 v
  = repeat " " m ++ (if v <? 0 then ["-"] else []) ++ decimal (Z.abs v).
Proof. unfold fmt_wd. eexists. reflexivity. Qed.

Lemma sign_value v :
  (if v <? 0 then - Z.abs v else Z.abs v) = v.
Proof. destruct (Z.ltb_spec v 0); lia. Qed.

(** The two directions of the ack codec, for the uses below. *)
Lemma format_ack_ok buf seqno code :
  length buf = 7%nat -> Ascii.eqb code "000" = false ->
  -9999 <= seqno <= 99999 ->
  format_ack buf seqno code = Some (6, fmt_wd 5 seqno ++ [code; "000"])
  /\ length (fmt_wd 5 seqno) = 5%nat.
Proof.
  intros Hbuf Hc Hr.
  destruct (length_fmt_wd5 seqno) as (_ & Heq & _). apply Heq in Hr.
  unfold format_ack, sprintf_to. rewrite length_app, Hbuf, Hr.
  cbn [length Nat.add Nat.leb].
  rewrite drop_ge by (rewrite Hbuf; lia).
  rewrite <- app_assoc, c_str_no_nul by apply no_nul_fmt_wd.
  cbn [app c_str]. rewrite Hc. cbn [c_str Ascii.eqb Bool.eqb].
  rewrite length_app, Hr. cbn. split; reflexivity.
Qed.

Lemma parse_ack_fmt seqno code tail buflen s0 c0 :
  length (fmt_wd 5 seqno) = 5%nat -> Ascii.eqb code "000" = false ->
  isdigit code = false -> 6 <= buflen ->
  parse_ack (fmt_wd 5 seqno ++ code :: tail) buflen s0 c0 = (6, seqno, code).
Proof.
  intros H5 Hc Hnd Hlen. unfold parse_ack, ACK_MSG_LEN.
  destruct (Z.ltb_spec buflen 6); [lia|].
  change (Z.to_nat 6) with 6%nat.
  change (code :: tail) with ([code] ++ tail). rewrite app_assoc.
  rewrite take_app_length' by (rewrite length_app, H5; reflexivity).
  rewrite c_str_no_nul by apply no_nul_fmt_wd.
  cbn [c_str]. rewrite Hc. cbn [c_str].
  destruct (fmt_wd_shape 5 seqno) as [m Em].
  destruct (decimal_digits (Z.abs seqno) ltac:(lia)) as (Hd & Hv & Hl).
  unfold sscanf_ack.
  assert (E : scan_d (length (fmt_wd 5 seqno ++ [code]))
                (fmt_wd 5 seqno ++ [code]) = Some (seqno, [code])).
  { rewrite Em, <- !app_assoc.
    rewrite (scan_d_signed m (seqno <? 0)); [|exact Hd|exact Hl|lia|exact Hnd].
    rewrite Hv, sign_value. reflexivity. }
  rewrite E. reflexivity.
Qed.

(** X1.  [format_ack] on the seven-byte buffer [send_ack] gives it, with
    a code that is not NUL: for a sequence number in [-9999, 99999] it
    returns 6 and the buffer holds the number right-justified in five
    characters, the code and the final NUL; for every other number the
    [sprintf] has already written past the end of the buffer when the
    length is tested. *)
Theorem format_ack_result buf seqno code :
  length buf = 7%nat -> code <> "000" ->
  (-9999 <= seqno <= 99999 ->
     format_ack buf seqno code
     = Some (6, fmt_wd 5 seqno ++ [code; "000"])
     /\ length (fmt_wd 5 seqno) = 5%nat)
  /\ (~ -9999 <= seqno <= 99999 -> format_ack buf seqno code = None).
Proof.
  intros Hbuf Hcode.
  destruct (length_fmt_wd5 seqno) as (H5 & Heq & _).
  assert (Hc : Ascii.eqb code "000" = false) by (apply Ascii.eqb_neq, Hcode).
  unfold format_ack, sprintf_to. rewrite length_app, Hbuf. cbn [length].
  split.
  - intros Hr. apply Heq in Hr. rewrite Hr. cbn [Nat.add Nat.leb].
    rewrite drop_ge by (rewrite Hbuf; lia).
    rewrite <- app_assoc, c_str_no_nul by apply no_nul_fmt_wd.
    cbn [app c_str]. rewrite Hc. cbn [c_str Ascii.eqb Bool.eqb].
    rewrite length_app, Hr. cbn. split; reflexivity.
  - intros Hr.
    assert (Hl : (6 <= length (fmt_wd 5 seqno))%nat).
    { destruct (Nat.eq_dec (length (fmt_wd 5 seqno)) 5%nat) as [E|E];
        [apply Heq in E; lia|lia]. }
    destruct (Nat.leb_spec (length (fmt_wd 5 seqno) + 1 + 1) 7); [lia|].
    reflexivity.
Qed.

Lemma format_ack_result_witness :
  format_ack ack_array 7 "K" = Some (6, fmt_wd 5 7 ++ ["K"; "000"])
  /\ length (fmt_wd 5 7) = 5%nat.
Proof.
  exact (proj1 (format_ack_result ack_array 7 "K" eq_refl
                  ltac:(discriminate)) ltac:(lia)).
Defined.

(** X2.  An ack that [format_ack] produced (return value 6, code not NUL)
    is read back by [parse_ack] with the same sequence number and code,
    unless the code is a decimal digit: the [%d] then swallows it and
    [parse_ack] returns -1. *)
Theorem format_parse_ack buf seqno code out buflen s0 c0 :
  format_ack buf seqno code = Some (6, out) -> code <> "000" ->
  6 <= buflen ->
  (isdigit code = false -> parse_ack out buflen s0 c0 = (6, seqno, code))
  /\ (isdigit code = true -> fst (fst (parse_ack out buflen s0 c0)) = -1).
Proof.
  intros Hf Hcode Hlen.
  assert (Hc : Ascii.eqb code "000" = false) by (apply Ascii.eqb_neq, Hcode).
  unfold format_ack, sprintf_to in Hf.
  destruct (Nat.leb_spec (length (fmt_wd 5 seqno ++ [code]) + 1) (length buf));
    [|discriminate].
  match type of Hf with context [c_str ?b] =>
    assert (Ecs : c_str b = fmt_wd 5 seqno ++ [code]) end.
  { rewrite <- app_assoc, c_str_no_nul by apply no_nul_fmt_wd.
    cbn [app c_str]. rewrite Hc. reflexivity. }
  rewrite Ecs in Hf. rewrite length_app in Hf. cbn [length] in Hf.
  unfold ACK_MSG_LEN in *.
  destruct (Z.eqb_spec (Z.of_nat (length (fmt_wd 5 seqno) + 1)) 6) as [E6|];
    [|discriminate].
  cbn [negb] in Hf. injection Hf as <-.
  assert (H5 : length (fmt_wd 5 seqno) = 5%nat) by lia.
  unfold parse_ack, ACK_MSG_LEN.
  destruct (Z.ltb_spec buflen 6); [lia|].
  change (Z.to_nat 6) with 6%nat.
  rewrite take_app_length' by (rewrite length_app, H5; reflexivity).
  rewrite c_str_no_nul by apply no_nul_fmt_wd.
  cbn [c_str]. rewrite Hc. cbn [c_str].
  destruct (fmt_wd_shape 5 seqno) as [m Em].
  destruct (decimal_digits (Z.abs seqno) ltac:(lia)) as (Hd & Hv & Hl).
  unfold sscanf_ack. split.
  - intros Hnd.
    assert (E : scan_d (length (fmt_wd 5 seqno ++ [code]))
                  (fmt_wd 5 seqno ++ [code]) = Some (seqno, [code])).
    { rewrite Em, <- !app_assoc.
      rewrite (scan_d_signed m (seqno <? 0)); [|exact Hd|exact Hl|lia|exact Hnd].
      rewrite Hv, sign_value. reflexivity. }
    rewrite E. reflexivity.
  - intros Hdig.
    assert (E : exists x, scan_d (length (fmt_wd 5 seqno ++ [code]))
                  (fmt_wd 5 seqno ++ [code]) = Some (x, [])).
    { rewrite Em, <- !app_assoc. eexists.
      replace (decimal (Z.abs seqno) ++ [code])
        with ((decimal (Z.abs seqno) ++ [code]) ++ [])
        by apply app_nil_r.
      apply (scan_d_signed m (seqno <? 0)).
      - apply Forall_app. split; [exact Hd|]. repeat constructor. exact Hdig.
      - rewrite length_app. simpl. lia.
      - rewrite app_nil_r. lia.
      - exact I. }
    destruct E as [x ->]. reflexivity.
Qed.

Lemma format_parse_ack_witness :
  parse_ack (fmt_wd 5 7 ++ ["K"; "000"]) 6 0 "000" = (6, 7, "K").
Proof.
  exact (proj1 (format_parse_ack ack_array 7 "K" _ 6 0 "000" eq_refl
                  ltac:(discriminate) ltac:(lia)) eq_refl).
Defined.

(** X3.  Whatever the buffer holds, [get_ccb_len] returns 0 or an even
    length between 24 and 510 (254 where [char] is signed) that is not
    above [buflen], and then the first byte is 0x40; the result is
    defined as soon as the array has two bytes. *)
Theorem get_ccb_len_range sg buf buflen :
  0 <= buflen ->
  ((2 <= length buf)%nat -> exists r, get_ccb_len sg buf buflen = Some r)
  /\ (forall r, get_ccb_len sg buf buflen = Some r ->
        r = 0
        \/ (24 <= r <= (if sg then 254 else 510) /\ r mod 2 = 0
            /\ r <= buflen /\ buf !! 0%nat = Some "@")).
Proof.
  unfold get_ccb_len, CCB_FLAG_BYTE, CCB_LENGTH_BYTE, CCB_FLAG_VAL,
    CCB_MAX_HDR_LEN, CCB_MIN_HDR_LEN.
  intros Hb. split.
  { intros Hl. destruct buf as [|c0 [|c1 buf]]; [simpl in Hl; lia..|].
    cbn [lookup list_lookup].
    repeat match goal with |- context [if ?b then _ else _] => destruct b end;
      eauto. }
  intros r H.
  destruct (buf !! 0%nat) as [flag|] eqn:E0; [|discriminate].
  destruct (Z.eqb_spec (char_value sg flag) 64) as [Ef|Ef];
    cbn [negb] in H; [|left; congruence].
  destruct (buf !! 1%nat) as [len|] eqn:E1; [|discriminate].
  set (v := char_value sg len) in *.
  assert (Hv : -128 <= v <= (if sg then 127 else 255)).
  { subst v. unfold char_value.
    pose proof (N_ascii_bounded len) as Hb8.
    destruct sg; cbn [andb];
      [destruct (Z.leb_spec 128 (Z.of_N (N_of_ascii len)))|]; lia. }
  destruct (Z.gtb_spec (v * 2) 1024); cbn [orb] in H; [left; congruence|].
  destruct (Z.ltb_spec (v * 2) 24); cbn [orb] in H; [left; congruence|].
  unfold to_size_t in H. rewrite Z.mod_small in H by lia.
  destruct (Z.gtb_spec (v * 2) buflen); [left; congruence|].
  right. injection H as <-.
  assert (flag = "@") as ->.
  { unfold char_value in Ef.
    pose proof (N_ascii_bounded flag) as Hb8.
    destruct (sg && (128 <=? Z.of_N (N_of_ascii flag))) eqn:Es.
    - apply andb_true_iff in Es as [_ Es]. apply Z.leb_le in Es. lia.
    - rewrite <- (ascii_N_embedding flag).
      replace (N_of_ascii flag) with 64%N by lia. reflexivity. }
  repeat split; try (destruct sg; lia).
  apply Z.mod_mul. lia.
Qed.

Lemma get_ccb_len_range_witness :
  exists r, get_ccb_len true ["@"; "012"] 100 = Some r.
Proof.
  exact (proj1 (get_ccb_len_range true ["@"; "012"] 100 ltac:(lia))
           ltac:(simpl; lia)).
Defined.

End ShareAckFacts.

(* ===================================================================== *)
(** * Facts about client_send.c: reading an ack                           *)
(* ===================================================================== *)

Module ClientAckFacts.
Import Share Client ShareAck ClientAck ShareFacts ShareAckFacts.
Import Scenarios Samples.

(** The count the loop ends with is that of its last call of [recv]: it
    is at most the number of bytes that were still missing. *)
Lemma recv_ack_loop_last calls : forall fl buf off b r rb buf' fl',
  recv_ack_loop calls fl buf off b r = Some (inr (rb, buf', fl')) ->
  (b <= 0 /\ rb = r) \/ 0 < rb <= b.
Proof.
  induction calls as [|c calls IH]; intros fl buf off b r rb buf' fl' H;
    cbn [recv_ack_loop] in H;
    destruct (Z.gtb_spec b 0) as [Hb|Hb];
    try (injection H as <- <- <-; left; lia); [discriminate|].
  destruct (rv_res c) as [d| |].
  - set (d' := take (Z.to_nat b) d) in *.
    assert (Hd : Z.of_nat (length d') <= b).
    { subst d'. rewrite length_take. lia. }
    destruct (Z.eqb_spec (Z.of_nat (length d')) 0); [discriminate|].
    apply IH in H. lia.
  - destruct (negb _); [discriminate|]. apply IH in H. lia.
  - discriminate.
Qed.


(** When the last call brought six bytes, it was the first one that
    brought any, and the buffer starts with them. *)
Lemma recv_ack_loop_whole calls : forall fl buf r rb buf' fl',
  recv_ack_loop calls fl buf 0 6 r = Some (inr (rb, buf', fl')) ->
  6 <= rb ->
  exists pre c d rest,
    calls = pre ++ c :: rest /\ Forall is_eintr pre
    /\ rv_res c = RecvData d /\ (6 <= length d)%nat
    /\ take 6 buf' = take 6 d.
Proof.
  induction calls as [|c calls IH]; intros fl buf r rb buf' fl' H Hrb;
    cbn [recv_ack_loop] in H; change (6 >? 0) with true in H; cbv iota in H;
    [discriminate|].
  destruct (rv_res c) as [d| |] eqn:Ec.
  - change (Z.to_nat 6) with 6%nat in H.
    set (d' := take 6 d) in *.
    assert (Hd : (length d' <= 6)%nat) by (subst d'; rewrite length_take; lia).
    destruct (Z.eqb_spec (Z.of_nat (length d')) 0); [discriminate|].
    pose proof (recv_ack_loop_last _ _ _ _ _ _ _ _ _ H) as [[Hb ->]|Hlt];
      [|lia].
    assert (Hl6 : length d' = 6%nat) by lia.
    rewrite Hl6 in H.
    destruct calls; cbn [recv_ack_loop] in H;
      change (6 - Z.of_nat 6 >? 0) with false in H; cbv iota in H;
      injection H as <- <-;
      (exists [], c, d; eexists; split; [reflexivity|];
       split; [apply Forall_nil_2|]; split; [exact Ec|];
       split; [subst d'; rewrite length_take in Hl6; lia|];
       unfold store_at; rewrite take_0; cbn [app]; fold d';
       rewrite take_app_length' by (symmetry; exact Hl6); reflexivity).
  - destruct (negb _); [discriminate|].
    destruct (IH _ _ _ _ _ _ H Hrb) as (pre & c1 & d & rest & -> & Hp & Hc & Hd & Ht).
    exists (c :: pre), c1, d, rest. split; [reflexivity|].
    split; [constructor; [exact Ec|exact Hp]|]. auto.
  - discriminate.
Qed.

Lemma parse_ack_take buf buflen s0 c0 :
  parse_ack buf buflen s0 c0 = parse_ack (take 6 buf) buflen s0 c0.
Proof.
  unfold parse_ack, ACK_MSG_LEN. change (Z.to_nat 6) with 6%nat.
  rewrite take_take, Nat.min_id. reflexivity.
Qed.

Lemma parse_ack_rc buf buflen s0 c0 :
  0 <= fst (fst (parse_ack buf buflen s0 c0)) ->
  fst (fst (parse_ack buf buflen s0 c0)) = 6 /\ 6 <= buflen.
Proof.
  unfold parse_ack, ACK_MSG_LEN.
  destruct (Z.ltb_spec buflen 6); [cbn; lia|].
  destruct (sscanf_ack _) as [[n sq] cd].
  destruct (negb (n =? 2)); cbn; lia.
Qed.

(** X4.  [recv_ack] passes to [parse_ack] the count of its last [recv]
    as the length of the message.  So it returns 0 only when the six
    bytes came from a single call of [recv] (interrupted calls before it
    apart), and the sequence number and code are those of this piece; an
    ack that arrives in two pieces is refused although all six bytes are
    in the buffer. *)
Theorem recv_ack_one_piece opts calls fl recvbuf p_ack c0 :
  port opts <> DISCARD_PORT ->
  (forall code fl',
     recv_ack_bytes opts calls fl recvbuf p_ack c0 = Some (0, code, fl') ->
     exists pre c d rest,
       calls = pre ++ c :: rest /\ Forall is_eintr pre
       /\ rv_res c = RecvData d /\ (6 <= length d)%nat
       /\ parse_ack (take 6 d) 6 0 "000" = (6, seqno p_ack, code)
       /\ (code = ACK_OK \/ code = ACK_RETRY \/ code = ACK_FAIL))
  /\ (forall sig d rest code fl',
        calls = mk_recv_call sig (RecvData d) :: rest ->
        (length d < 6)%nat ->
        recv_ack_bytes opts calls fl recvbuf p_ack c0 <> Some (0, code, fl')).
Proof.
  intros Hport.
  assert (A : forall code fl',
     recv_ack_bytes opts calls fl recvbuf p_ack c0 = Some (0, code, fl') ->
     exists pre c d rest,
       calls = pre ++ c :: rest /\ Forall is_eintr pre
       /\ rv_res c = RecvData d /\ (6 <= length d)%nat
       /\ parse_ack (take 6 d) 6 0 "000" = (6, seqno p_ack, code)
       /\ (code = ACK_OK \/ code = ACK_RETRY \/ code = ACK_FAIL)).
  { intros code fl' H. unfold recv_ack_bytes in H.
    destruct (Z.eqb_spec (port opts) DISCARD_PORT); [contradiction|].
    unfold ACK_MSG_LEN in H.
    destruct (recv_ack_loop calls fl recvbuf 0 6 0)
      as [[fl1|[[rb buf1] fl1]]|] eqn:El; [discriminate| |discriminate].
    pose proof (recv_ack_loop_last _ _ _ _ _ _ _ _ _ El) as [[Hb _]|Hrb];
      [lia|].
    unfold to_size_t in H. rewrite Z.mod_small in H by lia.
    pose proof (parse_ack_rc buf1 rb 0 "000") as Hrc.
    destruct (parse_ack buf1 rb 0 "000") as [[rc sq] cd] eqn:Ep.
    cbn [fst] in Hrc.
    destruct (Z.ltb_spec rc 0); [discriminate|].
    destruct (Hrc ltac:(lia)) as [-> H6].
    assert (rb = 6) as -> by lia.
    destruct (Z.eqb_spec sq (seqno p_ack)) as [->|]; [|discriminate].
    cbn [negb] in H.
    destruct (recv_ack_loop_whole _ _ _ _ _ _ _ El ltac:(lia))
      as (pre & c & d & rest & -> & Hp & Hc & Hd & Ht).
    exists pre, c, d, rest. split; [reflexivity|]. split; [exact Hp|].
    split; [exact Hc|]. split; [exact Hd|].
    rewrite parse_ack_take, Ht in Ep.
    destruct (Ascii.eqb cd ACK_OK) eqn:E1; cbn [negb andb] in H.
    { injection H as <- <-. apply Ascii.eqb_eq in E1. split; [exact Ep|auto]. }
    destruct (Ascii.eqb cd ACK_RETRY) eqn:E2; cbn [negb andb] in H.
    { injection H as <- <-. apply Ascii.eqb_eq in E2. split; [exact Ep|auto]. }
    destruct (Ascii.eqb cd ACK_FAIL) eqn:E3; cbn [negb andb] in H;
      [|discriminate].
    injection H as <- <-. apply Ascii.eqb_eq in E3. split; [exact Ep|auto]. }
  split; [exact A|].
  intros sig d rest code fl' -> Hd H.
  destruct (A _ _ H) as (pre & c & d1 & rest1 & E & Hp & Hc & Hd1 & _).
  destruct pre as [|c' pre]; cbn [app] in E; injection E as E1 E2; subst.
  - cbn in Hc. injection Hc as <-. lia.
  - inversion Hp as [|? ? Hc' _]; subst. discriminate Hc'.
Qed.

Lemma recv_ack_one_piece_witness :
  recv_ack_bytes (opts_window 2) ack_in_pieces 0 ack_array sample_prod "000"
  <> Some (0, "K", 0).
Proof.
  exact (proj2 (recv_ack_one_piece (opts_window 2) ack_in_pieces 0 ack_array
                  sample_prod "000" ltac:(vm_compute; discriminate))
           0 ["a"] [] "K" 0 eq_refl ltac:(simpl; lia)).
Defined.

(** X24.  The ack the server's [send_ack] formats for a product, with one
    of the three codes, is accepted by the client that awaits it: when
    the six bytes arrive in one piece, [recv_ack] returns 0 and hands
    back the code. *)
Theorem ack_accepted opts buf recvbuf p_ack code sig rest fl c0 :
  port opts <> DISCARD_PORT -> length buf = 7%nat ->
  length recvbuf = 7%nat ->
  0 <= seqno p_ack <= MAX_PROD_SEQNO ->
  code = ACK_OK \/ code = ACK_RETRY \/ code = ACK_FAIL ->
  exists out,
    format_ack buf (seqno p_ack) code = Some (6, out)
    /\ recv_ack_bytes opts
         (mk_recv_call sig (RecvData (take 6 out)) :: rest) fl recvbuf
         p_ack c0
       = Some (0, code, Z.lor fl sig).
Proof.
  intros Hport Hbuf _ Hsq Hcode. unfold MAX_PROD_SEQNO in Hsq.
  assert (Hc : Ascii.eqb code "000" = false /\ isdigit code = false
               /\ negb (Ascii.eqb code ACK_OK)
                  && negb (Ascii.eqb code ACK_RETRY)
                  && negb (Ascii.eqb code ACK_FAIL) = false)
    by (destruct Hcode as [-> | [-> | ->]]; repeat split; reflexivity).
  destruct Hc as (Hnul & Hnd & Hok).
  destruct (format_ack_ok buf (seqno p_ack) code Hbuf Hnul ltac:(lia))
    as [Ef H5].
  eexists. split; [exact Ef|].
  unfold recv_ack_bytes.
  destruct (Z.eqb_spec (port opts) DISCARD_PORT); [contradiction|].
  unfold ACK_MSG_LEN. cbn [recv_ack_loop rv_res rv_signals].
  change (6 >? 0) with true. cbv iota. change (Z.to_nat 6) with 6%nat.
  rewrite take_take, Nat.min_id.
  assert (Et : take 6 (fmt_wd 5 (seqno p_ack) ++ [code; "000"])
               = fmt_wd 5 (seqno p_ack) ++ [code]).
  { change [code; "000"] with ([code] ++ ["000"]). rewrite app_assoc.
    apply take_app_length'. rewrite length_app, H5. reflexivity. }
  rewrite Et.
  assert (El : length (fmt_wd 5 (seqno p_ack) ++ [code]) = 6%nat)
    by (rewrite length_app, H5; reflexivity).
  rewrite El. change (Z.of_nat 6 =? 0) with false. cbv iota.
  assert (Eloop : forall b f,
            recv_ack_loop rest f b (0 + 6) (6 - Z.of_nat 6) (Z.of_nat 6)
            = Some (inr (6, b, f)))
    by (intros b f; destruct rest; reflexivity).
  rewrite Eloop.
  unfold to_size_t. change (6 mod 2 ^ 64) with 6.
  unfold store_at. rewrite take_0. cbn [app]. rewrite <- app_assoc.
  cbn [app].
  rewrite (parse_ack_fmt (seqno p_ack) code _ 6 0 "000" H5 Hnul Hnd)
    by lia.
  change (6 <? 0) with false. cbv iota.
  rewrite Z.eqb_refl. cbn [negb]. rewrite Hok. reflexivity.
Qed.

Lemma ack_accepted_witness :
  exists out,
    format_ack ack_array (seqno sample_prod) "K" = Some (6, out)
    /\ recv_ack_bytes (opts_window 2)
         [mk_recv_call 0 (RecvData (take 6 out))] 0 ack_array sample_prod
         "000"
       = Some (0, "K", Z.lor 0 0).
Proof.
  exact (ack_accepted (opts_window 2) ack_array ack_array sample_prod "K" 0
           [] 0 "000" ltac:(vm_compute; discriminate) eq_refl eq_refl
           ltac:(vm_compute; split; discriminate) ltac:(left; reflexivity)).
Defined.

End ClientAckFacts.

(* ===================================================================== *)
(** * Facts about serv_recv.c: the service loop                           *)
(* ===================================================================== *)

Module ServServiceFacts.
Import Share ServRecv Client ClientSend ServService ShareFacts ServRecvFacts.
Import Scenarios Samples.

Lemma next_seqno_range sq : 0 <= NEXT_SEQNO sq <= MAX_PROD_SEQNO.
Proof.
  unfold NEXT_SEQNO, MAX_PROD_SEQNO.
  pose proof (Z.mod_pos_bound (sq + 1) (99999 + 1) ltac:(lia)). lia.
Qed.

Lemma next_seqno_cases sq : 0 <= sq <= MAX_PROD_SEQNO ->
  NEXT_SEQNO sq = sq + 1 \/ NEXT_SEQNO sq = 0.
Proof.
  unfold NEXT_SEQNO, MAX_PROD_SEQNO. intros H.
  destruct (Z.eq_dec sq 99999) as [->|Hne]; [right; reflexivity|].
  left. apply Z.mod_small. lia.
Qed.

(** What [send_prod] does to the product and to [ProdSeqno] when it
    returns 0 after sending a first block. *)
Lemma send_prod_sent opts e sq fl pr pr' sq' fl' :
  send_prod opts e sq fl pr = (0, pr', sq', fl') ->
  0 < to_int (size pr) ->
  seqno pr' = sq /\ queue_time pr' = queue_time pr
  /\ sq' = NEXT_SEQNO sq
  /\ fst (format_msghdr [] pr') = 32.
Proof.
  unfold send_prod. intros H Hsz.
  destruct ((max_retry opts >? 0) && (send_count pr >? max_retry opts));
    [discriminate|].
  destruct (e_open e); cbn [negb] in H; [|discriminate].
  cbn [size set_ccb_len set_seqno set_send_count] in H.
  destruct (Z.leb_spec (to_int (size pr)) 0); [lia|].
  destruct (e_first_read e) as [ccb|]; [|discriminate].
  match type of H with context [format_msghdr [] ?q] => set (q0 := q) in * end.
  destruct (format_msghdr_rc [] q0) as [E|E]; rewrite E in H;
    [discriminate|].
  change (32 <? 0) with false in H. cbv iota in H.
  assert (Hq : seqno q0 = sq /\ queue_time q0 = queue_time pr).
  { subst q0. destruct (negb (strip_ccb opts =? 0) && (ccb >? 0));
      split; reflexivity. }
  destruct (e_rest e) as [| |se ss]; [|discriminate|destruct ss; discriminate].
  injection H as <- <- <-. cbn [seqno queue_time set_send_time set_state].
  destruct Hq as [-> ->]. repeat split.
  unfold format_msghdr in *.
  cbn [size seqno queue_time set_send_time set_state]. exact E.
Qed.

Lemma format_msghdr_in_bounds buf p :
  fst (format_msghdr buf p) = 32 -> in_bounds p.
Proof.
  intros H.
  assert (in_bounds p \/ ~ in_bounds p) as [Hb|Hb]
    by (unfold in_bounds, MAX_PROD_SIZE, MAX_PROD_SEQNO, PROD_HDR_LEN; lia);
    [exact Hb|].
  apply (format_msghdr_fail_iff buf) in Hb. congruence.
Qed.


(** [recv_msghdr] on a header that [format_msghdr] wrote. *)
Lemma recv_wire p expected p0 : in_bounds p ->
  recv_msghdr (32, wire_hdr p) expected p0
  = (if negb (seqno p =? expected) && negb (seqno p =? 0) then -1 else 0,
     set_size (size p)
       (set_queue_time (queue_time p) (set_seqno (seqno p) p0))).
Proof.
  intros Hb. unfold wire_hdr. rewrite (format_msghdr_ok [] p Hb).
  cbn [snd]. unfold recv_msghdr. change (32 <=? 0) with false. cbv iota.
  unfold parse_msghdr, MSG_HDR_LEN, PROD_HDR_LEN. change (10 + 22) with 32.
  change (32 <? 32) with false. cbv iota.
  change (Z.to_nat 32) with 32%nat.
  rewrite app_assoc, take_app_length' by (rewrite length_headers; reflexivity).
  unfold in_bounds, MAX_PROD_SIZE, MAX_PROD_SEQNO, PROD_HDR_LEN in Hb.
  rewrite sscanf_header by lia.
  cbn [sc_count sc_seqno sc_queue_time sc_msg_size assign Z.eqb negb
       Pos.eqb].
  replace (22 + size p - 22) with (size p) by lia.
  unfold to_size_t. rewrite Z.mod_small by lia.
  change (32 <? 0) with false. cbv iota.
  cbn [seqno size set_size set_queue_time set_seqno].
  destruct (negb (seqno p =? expected) && negb (seqno p =? 0));
    [reflexivity|].
  unfold MAX_PROD_SIZE, PROD_HDR_LEN.
  destruct (Z.leb_spec (size p) 0); [lia|].
  destruct (Z.gtb_spec (size p) (99999999 - 22)); [lia|]. reflexivity.
Qed.

Lemma sends_agree opts name_of items : forall sq fl expected p0 done0 wire,
  0 <= sq <= MAX_PROD_SEQNO -> 0 <= expected < 2 ^ 31 ->
  expected = sq \/ sq = 0 ->
  sends opts items sq fl = Some wire ->
  exists done,
    service_loop (map (arrives name_of) wire) 0 expected p0 done0
    = (None, 0, done0 ++ done)
    /\ map hdr_fields done = map hdr_fields wire.
Proof.
  induction items as [|[e pr] items IH];
    intros sq fl expected p0 done0 wire Hsq Hex Hag H; cbn [sends] in H.
  - injection H as <-. exists []. rewrite app_nil_r. split; reflexivity.
  - destruct (send_prod opts e sq fl pr) as [[[rc pr'] sq'] fl'] eqn:Es.
    destruct (Z.eqb_spec rc 0) as [->|]; [|discriminate].
    destruct (Z.ltb_spec 0 (to_int (size pr))); [|discriminate].
    cbn [andb] in H.
    destruct (sends opts items sq' fl') as [l|] eqn:El; [|discriminate].
    injection H as <-.
    destruct (send_prod_sent _ _ _ _ _ _ _ _ Es ltac:(lia))
      as (Hs & Hq & -> & Hf).
    pose proof (format_msghdr_in_bounds _ _ Hf) as Hb.
    cbn [map service_loop].
    change (flag_set 0 (Z.lor SHUTDOWN_FLAG DISCONNECT_FLAG)) with false.
    cbv iota. cbn [arrives sv_hdr sv_hdr_flags sv_filename
      sv_prod_rc sv_prod_flags Z.lor].
    assert (Ei : to_int expected = expected).
    { unfold to_int. rewrite Z.mod_small by lia. lia. }
    rewrite Ei, (recv_wire _ _ _ Hb).
    assert (Eacc : negb (seqno pr' =? expected) && negb (seqno pr' =? 0)
                   = false).
    { rewrite Hs. destruct Hag as [->| ->].
      - rewrite Z.eqb_refl. reflexivity.
      - rewrite andb_comm. reflexivity. }
    rewrite Eacc. change (0 <? 0) with false. cbv iota.
    change (Z.lor 0 0) with 0.
    change (flag_set 0 DISCONNECT_FLAG) with false. cbv iota.
    set (p2 := set_filename (name_of pr')
                 (set_size (size pr')
                    (set_queue_time (queue_time pr')
                       (set_seqno (seqno pr') p0)))).
    unfold MAX_PROD_SEQNO in *.
    assert (Eu : to_uint (seqno p2 + 1) = sq + 1).
    { subst p2. cbn [seqno set_filename set_size set_queue_time set_seqno].
      rewrite Hs. unfold to_uint. apply Z.mod_small. lia. }
    rewrite Eu. repeat change (Z.lor 0 0) with 0.
    destruct (IH (NEXT_SEQNO sq) fl' (sq + 1) p2 (done0 ++ [p2]) l)
      as (done & Hd & Hm).
    + apply next_seqno_range.
    + lia.
    + destruct (next_seqno_cases sq ltac:(unfold MAX_PROD_SEQNO; lia));
        [left; lia|right; assumption].
    + exact El.
    + exists (p2 :: done). rewrite Hd, <- app_assoc. split; [reflexivity|].
      cbn [map]. rewrite Hm. reflexivity.
Qed.

(** X5.  On one connection, the sequence numbers the client stamps -
    [ProdSeqno] from 0 at the connect, moved on by [NEXT_SEQNO] after
    every product sent - are the ones [service] expects: when every
    [send_prod] returns 0 after sending a first block, [service] takes
    every header that arrives, in order, with the sequence number, size
    and queue time the client sent, and goes on waiting for the next. *)
Theorem seqno_agreement opts name_of items fl wire p0 :
  sends opts items 0 fl = Some wire ->
  exists done,
    service (map (arrives name_of) wire) 0 p0 = (None, 0, done)
    /\ map hdr_fields done = map hdr_fields wire.
Proof.
  intros H. unfold service.
  destruct (sends_agree opts name_of items 0 fl 0 p0 [] wire) as (d & E & M).
  - unfold MAX_PROD_SEQNO. lia.
  - lia.
  - left. reflexivity.
  - exact H.
  - exists d. split; [exact E|exact M].
Qed.

Lemma seqno_agreement_witness :
  exists done,
    service (map (arrives filename) one_sent) 0 zero_prod = (None, 0, done)
    /\ map hdr_fields done = map hdr_fields one_sent.
Proof.
  exact (seqno_agreement (opts_window 2) filename one_item 0 one_sent
           zero_prod eq_refl).
Defined.

(** X6.  A product of size 0 whose file opens: [send_prod] returns 0,
    marks it sent and moves [ProdSeqno] on without reading the file or
    writing to the socket.  The server has seen nothing, so the header of
    the product sent next carries a sequence number it does not expect
    and [recv_msghdr] refuses it (unless the number has wrapped to 0). *)
Theorem empty_file_desync opts e sq fl pr :
  size pr = 0 -> e_open e = true ->
  (max_retry opts >? 0) && (send_count pr >? max_retry opts) = false ->
  send_prod opts e sq fl pr
  = (0,
     set_send_time (e_now e)
       (set_state STATE_SENT
          (set_ccb_len 0 (set_seqno sq (set_send_count (send_count pr + 1) pr)))),
     NEXT_SEQNO sq, fl)
  /\ (forall next p0,
        in_bounds next -> seqno next = NEXT_SEQNO sq ->
        0 <= sq < MAX_PROD_SEQNO ->
        fst (recv_msghdr (32, wire_hdr next) sq p0) = -1).
Proof.
  intros Hsz Hop Hretry. split.
  - unfold send_prod. rewrite Hretry, Hop. cbn [negb].
    cbn [size set_ccb_len set_seqno set_send_count]. rewrite Hsz.
    reflexivity.
  - intros next p0 Hb Hn Hsq. rewrite (recv_wire _ _ _ Hb). cbn [fst].
    rewrite Hn. unfold NEXT_SEQNO, MAX_PROD_SEQNO in *.
    rewrite Z.mod_small by lia.
    destruct (Z.eqb_spec (sq + 1) sq); [lia|].
    destruct (Z.eqb_spec (sq + 1) 0); [lia|]. reflexivity.
Qed.

Lemma empty_file_desync_witness :
  send_prod (opts_window 2) quiet 0 0 empty_prod
  = (0,
     set_send_time (e_now quiet)
       (set_state STATE_SENT
          (set_ccb_len 0
             (set_seqno 0
                (set_send_count (send_count empty_prod + 1) empty_prod)))),
     NEXT_SEQNO 0, 0).
Proof.
  exact (proj1 (empty_file_desync (opts_window 2) quiet 0 0 empty_prod
                  eq_refl eq_refl eq_refl)).
Defined.

End ServServiceFacts.

(* ===================================================================== *)
(** * Facts about serv_recv.c: blocks                                     *)
(* ===================================================================== *)

Module ServBlockFacts.
Import Share ClientSend ServBlock.
Import Samples.

Lemma flag_set_lor fl sig bit :
  flag_set (Z.lor fl sig) bit
  = flag_set fl bit || flag_set sig bit.
Proof.
  unfold flag_set. rewrite Z.land_lor_distr_l.
  destruct (Z.eqb_spec (Z.land fl bit) 0) as [E1|E1];
    destruct (Z.eqb_spec (Z.land sig bit) 0) as [E2|E2]; cbn [negb orb].
  - rewrite E1, E2. reflexivity.
  - rewrite E1, Z.lor_0_l. destruct (Z.eqb_spec (Z.land sig bit) 0);
      [contradiction|reflexivity].
  - destruct (Z.eqb_spec (Z.lor (Z.land fl bit) (Z.land sig bit)) 0) as [E|];
      [|reflexivity].
    apply Z.lor_eq_0_iff in E as [? _]. contradiction.
  - destruct (Z.eqb_spec (Z.lor (Z.land fl bit) (Z.land sig bit)) 0) as [E|];
      [|reflexivity].
    apply Z.lor_eq_0_iff in E as [? _]. contradiction.
Qed.

Lemma to_int_small v : 0 <= v < 2 ^ 31 -> to_int v = v.
Proof. intros H. unfold to_int. rewrite Z.mod_small by lia. lia. Qed.

Lemma to_size_small v : 0 <= v < 2 ^ 64 -> to_size_t v = v.
Proof. intros H. unfold to_size_t. apply Z.mod_small. lia. Qed.


Lemma recv_block_loop_result minsiz maxsiz calls :
  0 <= maxsiz < 2 ^ 31 ->
  forall fl bt br rc fl',
    0 <= bt <= maxsiz -> (0 < br -> 0 < bt) ->
    recv_block_loop calls fl bt br minsiz maxsiz = Some (rc, fl') ->
    rc = -1 \/ rc = 0
    \/ (0 < rc <= maxsiz
        /\ (minsiz <= rc \/ flag_set fl' DISCONNECT_FLAG = true)).
Proof.
  intros Hmax.
  assert (Hend : forall fl bt br rc fl',
    0 <= bt <= maxsiz -> (0 < br -> 0 < bt) ->
    flag_set fl DISCONNECT_FLAG = true \/ minsiz <= bt \/ br <= 0 ->
    recv_block_end fl bt br = (rc, fl') ->
    rc = -1 \/ rc = 0
    \/ (0 < rc <= maxsiz
        /\ (minsiz <= rc \/ flag_set fl' DISCONNECT_FLAG = true))).
  { intros fl bt br rc fl' Hbt Hbr Hc H. unfold recv_block_end in H.
    destruct (Z.leb_spec br 0); injection H as <- <-; [auto|].
    right. right. rewrite to_int_small by lia.
    split; [lia|]. destruct Hc as [?|[?|?]]; [auto|auto|lia]. }
  induction calls as [|c calls IH]; intros fl bt br rc fl' Hbt Hbr H;
    cbn [recv_block_loop] in H.
  - destruct (flag_set fl DISCONNECT_FLAG) eqn:Ef; cbn [negb andb] in H.
    { injection H as H. eapply Hend; eauto. }
    destruct (Z.ltb_spec bt minsiz); [discriminate|].
    injection H as H. eapply Hend; eauto.
  - destruct (flag_set fl DISCONNECT_FLAG) eqn:Ef; cbn [negb andb] in H.
    { injection H as H. eapply Hend; eauto. }
    destruct (Z.ltb_spec bt minsiz).
    2:{ injection H as H. eapply Hend; eauto. }
    rewrite (to_size_small (maxsiz - bt)) in H by lia.
    destruct (io_res_of c) as [avail| | |].
    + destruct (Z.eqb_spec (Z.min (Z.of_N avail) (maxsiz - bt)) 0) as [E|E].
      * injection H as H. rewrite E in H.
        eapply (Hend _ bt 0); [exact Hbt|lia|right; right; lia|exact H].
      * rewrite to_size_small in H by lia.
        eapply IH; [| |exact H]; lia.
    + destruct (flag_set _ SHUTDOWN_FLAG && (bt =? 0)).
      * injection H as <- <-. auto.
      * eapply IH; [| |exact H]; lia.
    + cbn in H. injection H as <- <-. auto.
    + cbn in H. injection H as <- <-. auto.
Qed.

(** X8.  What [recv_block] returns, for every behaviour of the socket:
    -1, or 0 (interrupted while shutting down, nothing read), or the
    number of bytes read, which is never above [maxsiz] and is at least
    [minsiz] unless the disconnect flag has been raised. *)
Theorem recv_block_result calls fl minsiz maxsiz rc fl' :
  0 <= maxsiz < 2 ^ 31 ->
  recv_block calls fl minsiz maxsiz = Some (rc, fl') ->
  rc = -1 \/ rc = 0
  \/ (0 < rc <= maxsiz
      /\ (minsiz <= rc \/ flag_set fl' DISCONNECT_FLAG = true)).
Proof.
  intros Hmax H.
  apply (recv_block_loop_result minsiz maxsiz calls Hmax fl 0 0 rc fl');
    [lia|lia|exact H].
Qed.

Lemma recv_block_result_witness :
  10 = -1 \/ 10 = 0
  \/ (0 < 10 <= 100 /\ (1 <= 10 \/ flag_set 0 DISCONNECT_FLAG = true)).
Proof.
  exact (recv_block_result [mk_io_call 0 (IoBytes 10)] 0 1 100 10 0
           ltac:(lia) eq_refl).
Defined.

Lemma recv_block_loop_short minsiz maxsiz calls :
  0 <= maxsiz < minsiz -> maxsiz < 2 ^ 31 ->
  Forall no_disconnect calls ->
  forall fl bt br rc fl',
    0 <= bt <= maxsiz -> flag_set fl DISCONNECT_FLAG = false ->
    recv_block_loop calls fl bt br minsiz maxsiz = Some (rc, fl') ->
    rc = -1 \/ rc = 0.
Proof.
  intros Hmin Hmax Hsig.
  induction Hsig as [|c calls Hc Hsig IH]; intros fl bt br rc fl' Hbt Hf H;
    cbn [recv_block_loop] in H; rewrite Hf in H; cbn [negb andb] in H;
    destruct (Z.ltb_spec bt minsiz); try lia; [discriminate|].
  assert (Hf' : flag_set (Z.lor fl (io_signals c)) DISCONNECT_FLAG = false).
  { rewrite flag_set_lor, Hf. unfold flag_set. unfold no_disconnect in Hc.
    rewrite Hc. reflexivity. }
  rewrite (to_size_small (maxsiz - bt)) in H by lia.
  destruct (io_res_of c) as [avail| | |].
  - destruct (Z.eqb_spec (Z.min (Z.of_N avail) (maxsiz - bt)) 0) as [E|E].
    + unfold recv_block_end in H. rewrite E in H. cbn in H.
      injection H as <- <-. auto.
    + rewrite to_size_small in H by lia.
      eapply IH; [|exact Hf'|exact H]. lia.
  - destruct (flag_set _ SHUTDOWN_FLAG && (bt =? 0)).
    + injection H as <- <-. auto.
    + eapply IH; [|exact Hf'|exact H]. lia.
  - cbn in H. injection H as <- <-. auto.
  - cbn in H. injection H as <- <-. auto.
Qed.

Lemma recv_block_loop_fill minsiz maxsiz :
  0 <= maxsiz < minsiz -> maxsiz < 2 ^ 31 ->
  forall pieces fl bt br avail rest,
    flag_set fl DISCONNECT_FLAG = false -> 0 <= bt ->
    Forall (fun a => (0 < a)%N) pieces ->
    bt + Z.of_N (fold_right N.add 0%N pieces) = maxsiz ->
    recv_block_loop
      (map (fun a => mk_io_call 0 (IoBytes a)) pieces
         ++ mk_io_call 0 (IoBytes avail) :: rest)
      fl bt br minsiz maxsiz
    = Some (-1, Z.lor fl DISCONNECT_FLAG).
Proof.
  intros Hmin Hmax.
  induction pieces as [|a pieces IH]; intros fl bt br avail rest Hf Hbt Hp Hs;
    cbn [map app recv_block_loop io_signals io_res_of fold_right] in *;
    rewrite Hf; cbn [negb andb];
    (destruct (Z.ltb_spec bt minsiz); [|lia]);
    rewrite Z.lor_0_r.
  - replace (maxsiz - bt) with 0 by lia.
    change (to_size_t 0) with 0.
    replace (Z.min (Z.of_N avail) 0) with 0 by lia. reflexivity.
  - apply Forall_cons in Hp as [Ha Hp].
    rewrite (to_size_small (maxsiz - bt)) by lia.
    replace (Z.min (Z.of_N a) (maxsiz - bt)) with (Z.of_N a) by lia.
    destruct (Z.eqb_spec (Z.of_N a) 0); [lia|].
    rewrite to_size_small by lia.
    apply IH; [exact Hf|lia|exact Hp|lia].
Qed.

(** X9.  [recv_prod] asks [recv_block] for at least
    [MIN(size, FIRST_BLK_SIZE)] and at most [MIN(size, bufsiz)] bytes.
    With a buffer below 1024 bytes (the option check accepts 32 and more)
    and a product larger than the buffer, the minimum is above the
    maximum.  As long as no signal raises the disconnect flag, the call
    never returns a block: if it returns, it returns -1 or 0.  And when
    the data arrives and fills the buffer, the next [recv] is asked for 0
    bytes, and the call raises the disconnect flag itself and returns
    -1. *)
Theorem small_buffer_first_block calls fl size bufsiz :
  0 <= bufsiz < FIRST_BLK_SIZE -> bufsiz < size < 2 ^ 31 ->
  Forall no_disconnect calls -> flag_set fl DISCONNECT_FLAG = false ->
  (forall rc fl',
     recv_prod_first_block calls fl size bufsiz = Some (rc, fl') ->
     rc = -1 \/ rc = 0)
  /\ (forall pieces avail rest,
        calls = map (fun a => mk_io_call 0 (IoBytes a)) pieces
                  ++ mk_io_call 0 (IoBytes avail) :: rest ->
        Forall (fun a => (0 < a)%N) pieces ->
        Z.of_N (fold_right N.add 0%N pieces) = bufsiz ->
        recv_prod_first_block calls fl size bufsiz
        = Some (-1, Z.lor fl DISCONNECT_FLAG)).
Proof.
  unfold recv_prod_first_block, recv_block, FIRST_BLK_SIZE, MIN.
  intros Hb Hs Hsig Hf.
  rewrite to_int_small, to_size_small by lia.
  destruct (Z.ltb_spec bufsiz size) as [Hlt|Hge]; [|lia].
  assert (Hmin : 0 <= bufsiz < (if 1024 <? size then 1024 else size))
    by (destruct (Z.ltb_spec 1024 size); lia).
  split.
  - intros rc fl' Hret.
    eapply (recv_block_loop_short _ bufsiz calls);
      [exact Hmin|lia|exact Hsig| |exact Hf|exact Hret].
    lia.
  - intros pieces avail rest -> Hp Hsum.
    apply recv_block_loop_fill; [exact Hmin|lia|exact Hf|lia|exact Hp|lia].
Qed.

Lemma small_buffer_first_block_witness :
  recv_prod_first_block two_reads 0 2000 512
  = Some (-1, Z.lor 0 DISCONNECT_FLAG).
Proof.
  exact (proj2 (small_buffer_first_block two_reads 0 2000 512
                  ltac:(unfold FIRST_BLK_SIZE; lia) ltac:(lia)
                  ltac:(repeat constructor) eq_refl)
           [512%N] 512%N [] eq_refl ltac:(repeat constructor)
           eq_refl).
Defined.

Lemma write_block_loop_result blksiz calls :
  0 <= blksiz < 2 ^ 31 ->
  forall fl left rc,
    0 <= left <= blksiz ->
    write_block_loop calls fl blksiz left = Some rc ->
    rc = -1 \/ rc = blksiz.
Proof.
  intros Hb.
  induction calls as [|c calls IH]; intros fl left rc Hl H;
    cbn [write_block_loop] in H; destruct (Z.gtb_spec left 0).
  - discriminate.
  - injection H as <-. right. assert (left = 0) as -> by lia.
    rewrite Z.sub_0_r, to_size_small, to_int_small by lia. reflexivity.
  - destruct (io_res_of c) as [avail| | |].
    + eapply IH; [|exact H]. rewrite to_size_small by lia. lia.
    + eapply IH; [|exact H]. lia.
    + destruct (flag_set _ SHUTDOWN_FLAG).
      * injection H as <-. auto.
      * eapply IH; [|exact H]. lia.
    + injection H as <-. auto.
  - injection H as <-. right. assert (left = 0) as -> by lia.
    rewrite Z.sub_0_r, to_size_small, to_int_small by lia. reflexivity.
Qed.

(** X10.  [write_block] never returns a short count: it returns the
    whole block size, after as many calls of [write] as it takes, or -1
    (also when part of the block is already on the disk). *)
Theorem write_block_result calls fl blksiz rc :
  0 <= blksiz < 2 ^ 31 ->
  write_block calls fl blksiz = Some rc ->
  rc = -1 \/ rc = blksiz.
Proof.
  intros Hb H.
  apply (write_block_loop_result blksiz calls Hb fl blksiz rc); [lia|exact H].
Qed.

Lemma write_block_result_witness : 10 = -1 \/ 10 = 10.
Proof.
  exact (write_block_result two_writes 0 10 10 ltac:(lia) eq_refl).
Defined.

End ServBlockFacts.

(* ===================================================================== *)
(** * Facts about client_send.c: the sequence number                      *)
(* ===================================================================== *)

Module ClientSeqnoFacts.
Import Share Client ClientQueue ClientSend Scenarios ClientSendFacts.
Import ClientSeqno.

Section Seqno.

Variable opts : client_opt.
Variable qsort :
  (prod_info_t -> prod_info_t -> Z) -> list prod_info_t -> list prod_info_t.

Ltac split_cases :=
  repeat match goal with
  | |- context [match ?x with _ => _ end] => destruct x eqn:?
  end.

Ltac seq_done :=
  intros; simplify_eq;
  cbn [ProdSeqno log with_pc with_sock_fd with_tbl with_p_prod
       with_p_connect with_i with_ack_ready with_connect_failures
       with_input_failures with_queue_len with_Flags with_ProdSeqno
       with_qstat]; auto.

Lemma send_prod_seq e sq fl pr rc pr' sq' fl' :
  send_prod opts e sq fl pr = (rc, pr', sq', fl') ->
  sq' = sq \/ sq' = NEXT_SEQNO sq.
Proof.
  unfold send_prod. split_cases; intros; simplify_eq; auto.
Qed.

Lemma step_top_seq e s s' : step_top opts e s = Some s' -> seq_step s s'.
Proof. unfold step_top, seq_step. split_cases; seq_done. Qed.

Lemma step_connect_seq e s s' : step_connect e s = Some s' -> seq_step s s'.
Proof. unfold step_connect, seq_step. split_cases; seq_done. Qed.

Lemma step_requeue_seq e s s' :
  step_requeue opts e s = Some s' -> seq_step s s'.
Proof. unfold step_requeue, seq_step. split_cases; seq_done. Qed.

Lemma step_acquire_seq e s s' :
  step_acquire opts qsort e s = Some s' -> seq_step s s'.
Proof. unfold step_acquire, seq_step. split_cases; seq_done. Qed.

Lemma step_ttl_seq e s s' : step_ttl opts e s = Some s' -> seq_step s s'.
Proof. unfold step_ttl, seq_step. split_cases; seq_done. Qed.

Lemma step_send_seq e s s' : step_send opts e s = Some s' -> seq_step s s'.
Proof.
  unfold step_send, seq_step.
  destruct (p_prod s) as [p|]; [|seq_done].
  destruct (sock_fd s >=? 0); [|seq_done].
  destruct (send_prod opts e (ProdSeqno s) (Flags s) (slot (prod_tbl s) p))
    as [[[rc pr1] sq1] fl1] eqn:Es.
  apply send_prod_seq in Es.
  split_cases; seq_done; destruct Es; auto.
Qed.

Lemma step_acks_seq e s s' : step_acks opts e s = Some s' -> seq_step s s'.
Proof. unfold step_acks, seq_step. split_cases; seq_done. Qed.

Lemma step_seq e s s' : step opts qsort e s = Some s' -> seq_step s s'.
Proof.
  unfold step.
  set (s0 := with_Flags (Z.lor (Flags s) (e_signals e)) s).
  assert (E : ProdSeqno s0 = ProdSeqno s) by reflexivity.
  unfold seq_step. rewrite <- E.
  destruct (pc s0); intros H.
  - apply step_top_seq in H. exact H.
  - apply step_connect_seq in H. exact H.
  - apply step_requeue_seq in H. exact H.
  - apply step_acquire_seq in H. exact H.
  - apply step_ttl_seq in H. exact H.
  - apply step_send_seq in H. exact H.
  - apply step_acks_seq in H. exact H.
  - injection H as <-. auto.
  - injection H as <-. auto.
Qed.

(** X7.  In every state the send loop reaches, [ProdSeqno] lies in
    [0, MAX_PROD_SEQNO]: the test [format_msghdr] makes on the sequence
    number never fails for a product the loop sends. *)
Theorem prod_seqno_range s :
  reachable opts qsort s -> 0 <= ProdSeqno s <= MAX_PROD_SEQNO.
Proof.
  induction 1 as [e|e s s' Hr IH Hs].
  - unfold poll_and_send_init.
    destruct (connect_wmo opts); [destruct (create_conn_msg _ _ _)|];
      cbn [ProdSeqno]; unfold MAX_PROD_SEQNO; lia.
  - apply step_seq in Hs. destruct Hs as [->|[->| ->]].
    + exact IH.
    + unfold MAX_PROD_SEQNO. lia.
    + unfold NEXT_SEQNO, MAX_PROD_SEQNO.
      pose proof (Z.mod_pos_bound (ProdSeqno s + 1) (99999 + 1) ltac:(lia)).
      lia.
Qed.

End Seqno.

Lemma prod_seqno_range_witness :
  0 <= ProdSeqno window_full <= MAX_PROD_SEQNO.
Proof.
  exact (prod_seqno_range (opts_window 1) insertion_qsort window_full
           window_full_reachable).
Defined.

End ClientSeqnoFacts.

(* ===================================================================== *)
(** * Facts about serv_store.c and the option -D                          *)
(* ===================================================================== *)

Module ServStoreFacts.
Import Share ServStore ShareFacts.
Import Scenarios Samples.

Lemma fixed_inj k n m :
  0 <= n < 10 ^ Z.of_nat k -> 0 <= m < 10 ^ Z.of_nat k ->
  fixed k n = fixed k m -> n = m.
Proof.
  intros Hn Hm E.
  pose proof (value_fixed k n 0 Hn) as V1.
  pose proof (value_fixed k m 0 Hm) as V2.
  rewrite E in V1. lia.
Qed.

(** X11.  For one server process, [get_out_path] gives products with
    different sequence numbers different file names (the numbers a
    header can carry are all below 1000000). *)
Theorem out_path_distinct outdir pid p q :
  0 <= seqno p < 1000000 -> 0 <= seqno q < 1000000 ->
  out_path outdir pid p = out_path outdir pid q -> seqno p = seqno q.
Proof.
  intros Hp Hq E. unfold out_path in E.
  rewrite !Z.rem_small in E by lia.
  do 4 apply app_inv_head in E.
  rewrite !fmt_d_fixed in E by (change (10 ^ Z.of_nat 6) with 1000000; lia).
  apply (fixed_inj 6); [change (10 ^ Z.of_nat 6) with 1000000; lia..|exact E].
Qed.

Lemma out_path_distinct_witness : seqno sample_prod = seqno empty_prod.
Proof.
  exact (out_path_distinct ["d"] 1 sample_prod empty_prod
           ltac:(simpl; lia) ltac:(simpl; lia) eq_refl).
Defined.

Lemma length_out_path outdir pid p :
  0 <= pid < 100000 -> 0 <= seqno p ->
  length (out_path outdir pid p) = (length outdir + 13)%nat.
Proof.
  intros Hpid Hs. unfold out_path.
  assert (0 <= Z.rem (seqno p) 1000000 < 1000000)
    by (apply Z.rem_bound_pos; lia).
  rewrite !length_app, !fmt_d_fixed, !length_fixed
    by (first [lia | change (10 ^ Z.of_nat 6) with 1000000; lia
               | change (10 ^ Z.of_nat 5) with 100000; lia]).
  simpl. lia.
Qed.

Lemma opt_D_length optarg outdir :
  opt_D optarg = Some outdir -> (length outdir <= 244)%nat.
Proof.
  unfold opt_D, FILENAME_LEN.
  set (n := Z.of_nat (length optarg)).
  match goal with |- context [if ?b then n - 1 else n] => destruct b end;
    match goal with |- context [?x + 12 >? 256] =>
      destruct (Z.gtb_spec (x + 12) 256) end;
    try discriminate;
    intros E; injection E as <-; rewrite length_take; lia.
Qed.

(** X12.  The name [get_out_path] writes takes the length of the output
    directory and 14 bytes more (for a pid below 100000), while the check
    of the option [-D] allows for 12: a directory of 243 or 244 bytes is
    accepted, and the name then does not fit [filename]. *)
Theorem out_path_fits optarg outdir pid p :
  opt_D optarg = Some outdir -> 0 <= pid < 100000 -> 0 <= seqno p ->
  (length outdir <= 244)%nat
  /\ (get_out_path outdir pid p = None <-> (243 <= length outdir)%nat)
  /\ (forall d, length d = 244%nat -> last d <> Some "/" ->
        opt_D d = Some d).
Proof.
  intros Ho Hpid Hs. split; [exact (opt_D_length _ _ Ho)|]. split.
  - unfold get_out_path, FILENAME_LEN.
    rewrite length_out_path by assumption.
    destruct (Z.leb_spec (Z.of_nat (length outdir + 13) + 1) 256);
      split; intros E; try discriminate; try reflexivity; lia.
  - intros d Hd Hl. unfold opt_D, FILENAME_LEN. rewrite Hd.
    change (Z.of_nat 244 >? 1) with true. cbn [andb].
    change (Z.to_nat (Z.of_nat 244 - 1)) with 243%nat.
    assert (E : match d !! 243%nat with
                | Some c => Ascii.eqb c "/"
                | None => false
                end = false).
    { destruct (d !! 243%nat) as [c|] eqn:Ec; [|reflexivity].
      apply Ascii.eqb_neq. intros ->. apply Hl.
      rewrite last_lookup, Hd. exact Ec. }
    rewrite E.
    change (Z.of_nat 244 + 12 >? 256) with false. cbv iota.
    change (Z.to_nat (Z.of_nat 244)) with 244%nat.
    rewrite take_ge by lia. reflexivity.
Qed.

Lemma out_path_fits_witness :
  (length ["d"] <= 244)%nat
  /\ (get_out_path ["d"] 1 sample_prod = None <-> (243 <= length ["d"])%nat)
  /\ (forall d, length d = 244%nat -> last d <> Some "/" ->
        opt_D d = Some d).
Proof.
  exact (out_path_fits ["d"] ["d"] 1 sample_prod eq_refl ltac:(lia)
           ltac:(simpl; lia)).
Defined.

End ServStoreFacts.

(* ===================================================================== *)
(** * Facts about serv_dispatch.c                                         *)
(* ===================================================================== *)

Module ServDispatchFacts.
Import ServDispatch.
Import Samples.

Lemma busy_cons p r :
  busy (p :: r) = (if 0 <? p then 1 else 0) + busy r.
Proof.
  unfold busy. rewrite filter_cons.
  destruct (Z.ltb_spec 0 p); destruct (decide (0 < p)); try lia;
    cbn [length]; lia.
Qed.

Lemma busy_nil : busy [] = 0.
Proof. reflexivity. Qed.

Lemma busy_bounds pids : 0 <= busy pids <= Z.of_nat (length pids).
Proof.
  induction pids as [|p r IH]; [rewrite busy_nil; simpl; lia|].
  rewrite busy_cons. cbn [length]. destruct (0 <? p); lia.
Qed.

Lemma busy_full pids :
  busy pids = Z.of_nat (length pids) -> Forall (fun p => 0 < p) pids.
Proof.
  induction pids as [|p r IH]; intros E; [constructor|].
  rewrite busy_cons in E. cbn [length] in E.
  pose proof (busy_bounds r).
  destruct (Z.ltb_spec 0 p); [|lia].
  constructor; [assumption|apply IH; lia].
Qed.

Lemma verify_loop_spec alive pids cnt :
  length (fst (verify_loop alive pids cnt)) = length pids
  /\ snd (verify_loop alive pids cnt)
     = cnt + busy (fst (verify_loop alive pids cnt))
  /\ Forall (fun p => 0 < p -> alive p = true)
       (fst (verify_loop alive pids cnt))
  /\ (busy (fst (verify_loop alive pids cnt)) = Z.of_nat (length pids) ->
      fst (verify_loop alive pids cnt) = pids).
Proof.
  revert cnt. induction pids as [|p r IH]; intros cnt; cbn [verify_loop].
  - cbn [fst snd length]. rewrite busy_nil. repeat split; [lia|constructor].
  - destruct (Z.gtb_spec p 0) as [Hp|Hp].
    + destruct (alive p) eqn:Ea.
      * specialize (IH (cnt + 1)).
        destruct (verify_loop alive r (cnt + 1)) as [r' c].
        cbn [fst snd length] in *. destruct IH as (I1 & I2 & I3 & I4).
        rewrite busy_cons. destruct (Z.ltb_spec 0 p); [|lia].
        repeat split; [lia|lia| |].
        -- constructor; [intros _; exact Ea|exact I3].
        -- intros E. rewrite I4 by lia. reflexivity.
      * specialize (IH cnt).
        destruct (verify_loop alive r cnt) as [r' c].
        cbn [fst snd length] in *. destruct IH as (I1 & I2 & I3 & I4).
        rewrite busy_cons. change (0 <? 0) with false.
        pose proof (busy_bounds r').
        repeat split; [lia|lia| |lia].
        constructor; [lia|exact I3].
    + specialize (IH cnt).
      destruct (verify_loop alive r cnt) as [r' c].
      cbn [fst snd length] in *. destruct IH as (I1 & I2 & I3 & I4).
      rewrite busy_cons. destruct (Z.ltb_spec 0 p); [lia|].
      pose proof (busy_bounds r').
      repeat split; [lia|lia| |lia].
      constructor; [lia|exact I3].
Qed.

Lemma verify_workers_spec alive w :
  length (WorkerPids (verify_workers alive w)) = length (WorkerPids w)
  /\ WorkerCount (verify_workers alive w)
     = busy (WorkerPids (verify_workers alive w))
  /\ Forall (fun p => 0 < p -> alive p = true)
       (WorkerPids (verify_workers alive w))
  /\ (busy (WorkerPids (verify_workers alive w))
        = Z.of_nat (length (WorkerPids w)) ->
      WorkerPids (verify_workers alive w) = WorkerPids w).
Proof.
  unfold verify_workers.
  pose proof (verify_loop_spec alive (WorkerPids w) 0) as H.
  destruct (verify_loop alive (WorkerPids w) 0) as [r c].
  cbn [fst snd WorkerPids WorkerCount] in *.
  destruct H as (H1 & H2 & H3 & H4). repeat split; [lia|lia|exact H3|exact H4].
Qed.

Lemma find_slot_spec pids :
  (find_slot pids <= length pids)%nat
  /\ (forall p, pids !! find_slot pids = Some p -> p <= 0)
  /\ (find_slot pids = length pids -> Forall (fun p => 0 < p) pids).
Proof.
  induction pids as [|p r (I1 & I2 & I3)]; cbn [find_slot length].
  - repeat split; [lia|intros p H; discriminate|constructor].
  - destruct (Z.leb_spec p 0).
    + repeat split; [lia| |discriminate].
      intros q Hq. cbn in Hq. injection Hq as <-. lia.
    + repeat split; [lia|exact I2|].
      intros E. constructor; [lia|apply I3; lia].
Qed.

Lemma busy_insert pids i p x :
  pids !! i = Some p -> p <= 0 ->
  busy (<[i := x]> pids) = busy pids + (if 0 <? x then 1 else 0).
Proof.
  revert i. induction pids as [|q r IH]; intros i Hi Hp; [discriminate|].
  destruct i as [|i]; cbn in Hi.
  - injection Hi as ->. cbn [insert list_insert]. rewrite !busy_cons.
    destruct (Z.ltb_spec 0 p); [lia|]. lia.
  - change (<[S i := x]> (q :: r)) with (q :: <[i := x]> r).
    rewrite !busy_cons, (IH i Hi Hp). lia.
Qed.

Lemma release_spec c pids r :
  release c pids = Some r ->
  length r = length pids /\ busy pids - 1 <= busy r <= busy pids.
Proof.
  revert r. induction pids as [|p q IH]; intros r; cbn [release];
    [discriminate|].
  destruct (Z.eqb_spec p c).
  - intros H; injection H as <-. rewrite !busy_cons. cbn [length].
    change (0 <? 0) with false. destruct (0 <? p); lia.
  - destruct (release c q) as [r'|]; [|discriminate].
    intros H; injection H as <-. destruct (IH r' eq_refl).
    rewrite !busy_cons. cbn [length]. lia.
Qed.

(** What the table keeps from one event to the next. *)
Lemma apply_event_inv max_worker ev w lo :
  0 < max_worker ->
  length (WorkerPids w) = Z.to_nat max_worker ->
  lo <= 0 ->
  lo <= WorkerCount w <= busy (WorkerPids w) ->
  length (WorkerPids (apply_event max_worker ev w)) = Z.to_nat max_worker
  /\ lo - 1 <= WorkerCount (apply_event max_worker ev w)
           <= busy (WorkerPids (apply_event max_worker ev w)).
Proof.
  intros Hm Hl Hlo Hc. destruct ev as [alive accepted fork_res|child_pid];
    cbn [apply_event].
  - unfold dispatch_turn.
    set (w1 := if WorkerCount w >=? max_worker
               then verify_workers alive w else w).
    assert (H1 : length (WorkerPids w1) = Z.to_nat max_worker
                 /\ lo <= WorkerCount w1 <= busy (WorkerPids w1)).
    { subst w1. destruct (WorkerCount w >=? max_worker); [|auto].
      destruct (verify_workers_spec alive w) as (V1 & V2 & _).
      pose proof (busy_bounds (WorkerPids (verify_workers alive w))).
      split; [lia|lia]. }
    clearbody w1. destruct H1 as [L1 C1].
    destruct (WorkerCount w1 >=? max_worker); cbn [snd]; [split; [auto|lia]|].
    destruct (negb accepted); cbn [snd]; [split; [auto|lia]|].
    unfold fork_service.
    destruct (Nat.leb_spec (length (WorkerPids w1))
                (find_slot (WorkerPids w1))) as [Hf|Hf].
    + cbn [Z.ltb Z.compare snd].
      destruct (verify_workers_spec alive w1) as (V1 & V2 & _).
      pose proof (busy_bounds (WorkerPids (verify_workers alive w1))).
      split; lia.
    + destruct (lookup_lt_is_Some_2 _ _ Hf) as [p Hp].
      destruct (find_slot_spec (WorkerPids w1)) as (_ & F2 & _).
      assert (S : length (<[find_slot (WorkerPids w1) := fork_res]>
                            (WorkerPids w1)) = Z.to_nat max_worker
                  /\ lo - 1 <= WorkerCount w1
                       <= busy (<[find_slot (WorkerPids w1) := fork_res]>
                                  (WorkerPids w1))).
      { rewrite length_insert, (busy_insert _ _ p) by auto.
        destruct (0 <? fork_res); lia. }
      destruct (fork_res =? -1); cbn [Z.ltb Z.compare snd WorkerPids
                                       WorkerCount]; exact S.
  - unfold wait_for_worker. destruct (child_pid =? -1); [split; [auto|lia]|].
    destruct (release child_pid (WorkerPids w)) as [r|] eqn:Er;
      [|split; [auto|lia]].
    destruct (release_spec _ _ _ Er). cbn [WorkerPids WorkerCount].
    split; lia.
Qed.

Lemma run_events_inv max_worker events w lo :
  0 < max_worker ->
  length (WorkerPids w) = Z.to_nat max_worker ->
  lo <= 0 ->
  lo <= WorkerCount w <= busy (WorkerPids w) ->
  let w' := fold_left (fun w ev => apply_event max_worker ev w) events w in
  length (WorkerPids w') = Z.to_nat max_worker
  /\ lo - Z.of_nat (length events) <= WorkerCount w' <= busy (WorkerPids w').
Proof.
  intros Hm. revert w lo.
  induction events as [|ev r IH]; intros w lo Hl Hlo Hc; cbn [fold_left length].
  - split; [auto|lia].
  - destruct (apply_event_inv max_worker ev w lo Hm Hl Hlo Hc) as [L C].
    destruct (IH _ (lo - 1) L ltac:(lia) C) as [L' C']. split; [exact L'|lia].
Qed.

(** X13.  Whatever turns of the loop of [dispatcher] and signals of
    children follow each other, the table keeps its [max_worker] slots
    and [WorkerCount] never exceeds the number of slots that hold the pid
    of a worker; it can fall below zero, by one for each signal at most. *)
Theorem worker_count_bound max_worker events :
  0 < max_worker ->
  let w := fold_left (fun w ev => apply_event max_worker ev w) events
             (dispatcher_init max_worker) in
  length (WorkerPids w) = Z.to_nat max_worker
  /\ - Z.of_nat (length events) <= WorkerCount w
  /\ WorkerCount w <= busy (WorkerPids w)
  /\ busy (WorkerPids w) <= max_worker.
Proof.
  intros Hm w.
  assert (L0 : length (WorkerPids (dispatcher_init max_worker))
               = Z.to_nat max_worker)
    by (cbn [dispatcher_init WorkerPids]; apply length_replicate).
  assert (C0 : 0 <= WorkerCount (dispatcher_init max_worker)
                 <= busy (WorkerPids (dispatcher_init max_worker))).
  { cbn [dispatcher_init WorkerPids WorkerCount].
    pose proof (busy_bounds (replicate (Z.to_nat max_worker) 0)). lia. }
  destruct (run_events_inv max_worker events _ 0 Hm L0 ltac:(lia) C0)
    as [L C].
  fold w in L, C. pose proof (busy_bounds (WorkerPids w)).
  repeat split; [exact L|lia|lia|lia].
Qed.

Lemma worker_count_bound_witness :
  let w := fold_left (fun w ev => apply_event 2 ev w) one_worker
             (dispatcher_init 2) in
  length (WorkerPids w) = Z.to_nat 2
  /\ - Z.of_nat (length one_worker) <= WorkerCount w
  /\ WorkerCount w <= busy (WorkerPids w)
  /\ busy (WorkerPids w) <= 2.
Proof. exact (worker_count_bound 2 one_worker ltac:(lia)). Defined.

(** X14.  The dispatcher turns a connection away before [accept] only
    when every slot of the table holds the pid of a worker that is still
    there; the table is left as it was. *)
Theorem refused_only_when_full max_worker alive accepted fork_res w :
  0 < max_worker ->
  length (WorkerPids w) = Z.to_nat max_worker ->
  fst (dispatch_turn max_worker alive accepted fork_res w) = Refused ->
  max_worker <= WorkerCount w
  /\ Forall (fun p => 0 < p /\ alive p = true) (WorkerPids w)
  /\ snd (dispatch_turn max_worker alive accepted fork_res w)
     = mk_workers (WorkerPids w) max_worker.
Proof.
  intros Hm Hl. unfold dispatch_turn.
  destruct (Z.geb_spec (WorkerCount w) max_worker) as [Hc|Hc].
  - destruct (verify_workers_spec alive w) as (V1 & V2 & V3 & V4).
    pose proof (busy_bounds (WorkerPids (verify_workers alive w))) as Hb.
    destruct (Z.geb_spec (WorkerCount (verify_workers alive w)) max_worker)
      as [Hv|Hv].
    + intros _. cbn [snd].
      assert (E : WorkerPids (verify_workers alive w) = WorkerPids w)
        by (apply V4; lia).
      split; [lia|]. split.
      * rewrite E in V3.
        assert (F : Forall (fun p => 0 < p) (WorkerPids w)).
        { apply busy_full. rewrite <- E at 1. lia. }
        rewrite Forall_forall in *. intros p Hp. split; auto.
      * destruct (verify_workers alive w) as [ps c].
        cbn [WorkerPids WorkerCount] in *. f_equal; [exact E|lia].
    + destruct (negb accepted); cbn [fst]; [discriminate|].
      destruct (fork_service alive fork_res (verify_workers alive w))
        as [rc w2].
      destruct (rc <? 0); discriminate.
  - destruct (Z.geb_spec (WorkerCount w) max_worker); [lia|].
    destruct (negb accepted); cbn [fst]; [discriminate|].
    destruct (fork_service alive fork_res w) as [rc w2].
    destruct (rc <? 0); discriminate.
Qed.

Lemma refused_only_when_full_witness :
  2 <= WorkerCount full_table
  /\ Forall (fun p => 0 < p /\ all_alive p = true) (WorkerPids full_table)
  /\ snd (dispatch_turn 2 all_alive true 7 full_table)
     = mk_workers (WorkerPids full_table) 2.
Proof.
  exact (refused_only_when_full 2 all_alive true 7 full_table ltac:(lia)
           eq_refl eq_refl).
Defined.

Lemma find_slot_app done rest :
  Forall (fun p => 0 < p) done ->
  find_slot (done ++ 0 :: rest) = length done.
Proof.
  induction 1 as [|p r Hp _ IH]; [reflexivity|].
  cbn [app find_slot length]. destruct (Z.leb_spec p 0); [lia|].
  rewrite IH. reflexivity.
Qed.

Lemma fill_table max_worker alive done pids :
  Forall (fun p => 0 < p) done -> Forall (fun p => 0 < p) pids ->
  0 < max_worker ->
  fold_left (fun w pid => snd (dispatch_turn max_worker alive true pid w))
    pids (mk_workers (done ++ replicate (length pids) 0) 0)
  = mk_workers (done ++ pids) 0.
Proof.
  intros Hd Hp Hm. revert done Hd.
  induction Hp as [|p r Hp0 Hr IH]; intros done Hd; cbn [fold_left].
  - reflexivity.
  - cbn [length replicate].
    assert (E : snd (dispatch_turn max_worker alive true p
                  (mk_workers (done ++ 0 :: replicate (length r) 0) 0))
                = mk_workers ((done ++ [p]) ++ replicate (length r) 0) 0).
    { assert (G : (0 >=? max_worker) = false)
        by (rewrite Z.geb_leb; apply Z.leb_gt; lia).
      unfold dispatch_turn. cbn [WorkerCount]. rewrite G.
      cbn [WorkerCount]. rewrite G. cbn [negb].
      unfold fork_service. cbn [WorkerPids WorkerCount].
      rewrite find_slot_app by assumption.
      destruct (Nat.leb_spec (length (done ++ 0 :: replicate (length r) 0))
                  (length done)) as [Hf|Hf];
        [rewrite length_app in Hf; cbn [length] in Hf; lia|].
      rewrite insert_app_r_alt by lia. rewrite Nat.sub_diag.
      cbn [insert list_insert].
      destruct (Z.eqb_spec p (-1)); [lia|].
      cbn [Z.ltb Z.compare snd]. rewrite <- app_assoc. reflexivity. }
    rewrite E, IH.
    + rewrite <- app_assoc. reflexivity.
    + apply Forall_app. split; [assumption|]. constructor; [assumption|constructor].
Qed.

(** X15.  [fork_service] does not count the worker it starts.  After
    [max_worker] connections have each been given a worker, [WorkerCount]
    is still 0, so the next connection is accepted, finds no slot and is
    shut down; only that turn counts the workers. *)
Theorem full_table_drops max_worker alive pids fork_res :
  0 < max_worker ->
  length pids = Z.to_nat max_worker ->
  Forall (fun p => 0 < p) pids ->
  let w := fold_left
      (fun w pid => snd (dispatch_turn max_worker alive true pid w))
      pids (dispatcher_init max_worker) in
  w = mk_workers pids 0
  /\ dispatch_turn max_worker alive true fork_res w
     = (Dropped, verify_workers alive w).
Proof.
  intros Hm Hl Hp w.
  assert (Ew : w = mk_workers pids 0).
  { subst w. unfold dispatcher_init. rewrite <- Hl.
    exact (fill_table max_worker alive [] pids (Forall_nil_2 _) Hp Hm). }
  split; [exact Ew|]. rewrite Ew.
  assert (G : (0 >=? max_worker) = false)
    by (rewrite Z.geb_leb; apply Z.leb_gt; lia).
  unfold dispatch_turn. cbn [WorkerCount]. rewrite G.
  cbn [WorkerCount]. rewrite G. cbn [negb].
  unfold fork_service. cbn [WorkerPids].
  assert (Hf : find_slot pids = length pids).
  { clear -Hp. induction Hp as [|p r Hp0 _ IH]; [reflexivity|].
    cbn [find_slot length]. destruct (Z.leb_spec p 0); [lia|].
    rewrite IH. reflexivity. }
  rewrite Hf, Nat.leb_refl. reflexivity.
Qed.

Lemma full_table_drops_witness :
  let w := fold_left
      (fun w pid => snd (dispatch_turn 2 all_alive true pid w))
      [5; 6] (dispatcher_init 2) in
  w = mk_workers [5; 6] 0
  /\ dispatch_turn 2 all_alive true 7 w = (Dropped, verify_workers all_alive w).
Proof.
  exact (full_table_drops 2 all_alive [5; 6] 7 ltac:(lia) eq_refl
           ltac:(repeat constructor)).
Defined.

End ServDispatchFacts.

(* ===================================================================== *)
(** * Facts about client_queue.c: the poll                                *)
(* ===================================================================== *)

Module ClientPollFacts.
Import Share Client ClientQueue ClientSend ClientSendFacts ClientPoll.
Import Scenarios ClientQueueFacts.

Lemma streq_eq a : forall b, streq a b = true <-> a = b.
Proof.
  induction a as [|x a IH]; intros [|y b]; cbn [streq];
    try (split; [discriminate|discriminate]); [tauto|].
  rewrite andb_true_iff, Ascii.eqb_eq, IH. split.
  - intros [-> ->]. reflexivity.
  - intros [= -> ->]. auto.
Qed.

Lemma find_file_chain h fname l : forall fuel s,
  chain h s l -> (length l <= fuel)%nat ->
  find_file fuel h s fname = true
  <-> exists x pr, In x l /\ h !! x = Some pr /\ filename pr = fname.
Proof.
  induction l as [|x l IH]; intros fuel s Hc Hf.
  - cbn in Hc. subst s. destruct fuel; cbn [find_file];
      (split; [discriminate|intros (? & ? & [] & _)]).
  - destruct Hc as (-> & pr & Hx & Hc).
    destruct fuel as [|fuel]; [cbn in Hf; lia|].
    cbn [find_file]. rewrite Hx.
    destruct (streq (filename pr) fname) eqn:Es.
    + apply streq_eq in Es. split; [|reflexivity].
      intros _. exists x, pr. cbn. auto.
    + rewrite (IH fuel (p_next pr) Hc) by (cbn in Hf; lia).
      split.
      * intros (y & q & Hy & Hq & E). exists y, q. cbn. auto.
      * intros (y & q & [<-|Hy] & Hq & E).
        -- rewrite Hx in Hq. injection Hq as <-.
           apply streq_eq in E. congruence.
        -- exists y, q. auto.
Qed.

Lemma in_list_slot n t held w x :
  tbl_inv n t held -> In x (list_content w t) ->
  exists pr, prod t !! x = Some pr /\ slot t x = pr.
Proof.
  intros Hinv Hx.
  destruct (tbl_inv_contents n t held Hinv) as (_ & _ & Hr).
  destruct Hinv as (_ & _ & _ & Hlen & _).
  assert (Hlt : (x < n)%nat).
  { rewrite Forall_forall in Hr. apply Hr.
    apply list_elem_of_In. apply in_or_app. left.
    unfold all_slots. destruct w; cbn; rewrite !in_app_iff; auto. }
  rewrite <- Hlen in Hlt.
  destruct (lookup_lt_is_Some_2 _ _ Hlt) as [pr Hpr].
  exists pr. unfold slot. rewrite Hpr. auto.
Qed.

Lemma find_file_list n t held w fname :
  tbl_inv n t held ->
  find_file (length (prod t)) (prod t) (p_head (get_list w t)) fname = true
  <-> exists x, In x (list_content w t) /\ filename (slot t x) = fname.
Proof.
  intros Hinv.
  destruct (tbl_inv_contents n t held Hinv) as (Hrep & _ & _).
  destruct (Hrep w) as (Hc & _ & Hn).
  pose proof (tbl_inv_count n t held w Hinv) as Hcnt.
  destruct Hinv as (ls & H1 & H2 & Hlen & H4).
  rewrite (find_file_chain _ fname _ _ _ Hc) by lia.
  split.
  - intros (x & pr & Hx & Hp & E). exists x. unfold slot. rewrite Hp. auto.
  - intros (x & Hx & E).
    destruct (in_list_slot n t held w x) as (pr & Hp & Es);
      [exists ls; auto|exact Hx|].
    exists x, pr. subst pr. auto.
Qed.

Lemma check_window_clear n t held fname :
  tbl_inv n t held -> check_window t fname = 0 ->
  forall x, in_window t x -> filename (slot t x) <> fname.
Proof.
  intros Hinv. unfold check_window, in_window.
  pose proof (find_file_list n t held AckList fname Hinv) as Ha.
  pose proof (find_file_list n t held RetrList fname Hinv) as Hr.
  cbn [get_list] in Ha, Hr.
  destruct (find_file _ _ (p_head (ack_list t)) fname); [discriminate|].
  destruct (find_file _ _ (p_head (retr_list t)) fname); [discriminate|].
  intros _ x [Hx|Hx] E.
  - assert (false = true) by (apply Ha; exists x; auto). discriminate.
  - assert (false = true) by (apply Hr; exists x; auto). discriminate.
Qed.

(** X16.  As long as the lists of the table are well formed,
    [check_window] returns 1 exactly for the file names of the products
    on the ack list and on the retry list, and 0 for every other name;
    the products on the free list and the product in hand do not count. *)
Theorem check_window_spec n t held fname :
  tbl_inv n t held ->
  (check_window t fname = 1
   <-> exists x, in_window t x /\ filename (slot t x) = fname)
  /\ (check_window t fname = 0
      <-> forall x, in_window t x -> filename (slot t x) <> fname).
Proof.
  intros Hinv. unfold check_window, in_window.
  pose proof (find_file_list n t held AckList fname Hinv) as Ha.
  pose proof (find_file_list n t held RetrList fname Hinv) as Hr.
  cbn [get_list] in Ha, Hr.
  destruct (find_file _ _ (p_head (ack_list t)) fname).
  - destruct (proj1 Ha eq_refl) as (x & Hx & E). split.
    + split; [intros _; exists x; auto|reflexivity].
    + split; [discriminate|]. intros H. exfalso. exact (H x (or_introl Hx) E).
  - destruct (find_file _ _ (p_head (retr_list t)) fname).
    + destruct (proj1 Hr eq_refl) as (x & Hx & E). split.
      * split; [intros _; exists x; auto|reflexivity].
      * split; [discriminate|]. intros H. exfalso.
        exact (H x (or_intror Hx) E).
    + split.
      * split; [discriminate|]. intros (x & [Hx|Hx] & E).
        -- assert (false = true) by (apply Ha; exists x; auto). discriminate.
        -- assert (false = true) by (apply Hr; exists x; auto). discriminate.
      * split; [|reflexivity]. intros _ x [Hx|Hx] E.
        -- assert (false = true) by (apply Ha; exists x; auto). discriminate.
        -- assert (false = true) by (apply Hr; exists x; auto). discriminate.
Qed.

Lemma check_window_spec_witness :
  (check_window (prod_tbl window_full) ["x"] = 1
   <-> exists x, in_window (prod_tbl window_full) x
                 /\ filename (slot (prod_tbl window_full) x) = ["x"])
  /\ (check_window (prod_tbl window_full) ["x"] = 0
      <-> forall x, in_window (prod_tbl window_full) x ->
                    filename (slot (prod_tbl window_full) x) <> ["x"]).
Proof.
  exact (check_window_spec _ (prod_tbl window_full) _ ["x"]
           (reachable_inv (opts_window 1) insertion_qsort window_full
              window_full_reachable)).
Defined.

Section PollSound.

Variable opts : client_opt.
Variable t : prod_tbl_t.
Variable n : nat.
Variable held : list nat.
Hypothesis Hinv : tbl_inv n t held.

Lemma read_entries_sound (Q : prod_info_t -> Prop) poll_dir prio ents0 :
  (forall e it, In e ents0 -> taken_from t poll_dir prio e it -> Q it) ->
  forall ents q cnt q' cnt',
    (forall e, In e ents -> In e ents0) ->
    Forall Q q ->
    read_entries opts t poll_dir prio ents q cnt = PollOk q' cnt' ->
    Forall Q q'.
Proof.
  intros HQ. induction ents as [|e rest IH]; intros q cnt q' cnt' Hsub Hq;
    cbn [read_entries].
  - intros [= <- <-]. exact Hq.
  - assert (Hrest : forall e', In e' rest -> In e' ents0)
      by (intros e' He'; apply Hsub; right; exact He').
    destruct (starts_with_dot (d_name e)) eqn:Edot; [apply IH; auto|].
    destruct (d_stat e) as [st|] eqn:Est; [|apply IH; auto].
    destruct (Z.eqb_spec (Z.land (st_mode st) (Z.lor S_IFREG S_IFLNK)) 0)
      as [|Ety]; [apply IH; auto|].
    destruct (Z.eqb_spec (Z.land (st_mode st) PERM_MASK) 0)
      as [|Eperm]; [apply IH; auto|].
    destruct ((st_size st =? 0) && (st_mtime st >? d_now e - A_FEW_SECONDS))
      eqn:Efresh; [apply IH; auto|].
    destruct (Z.eqb_spec
                (check_window t (poll_dir ++ ["/"] ++ d_name e)) 0)
      as [Ewin|]; cbn [negb]; [|apply IH; auto].
    destruct (d_realloc_ok e); cbn [negb]; [|discriminate].
    assert (Hq1 : Forall Q
              (q ++ [mk_prod 0 (poll_dir ++ ["/"] ++ d_name e) (st_size st)
                       0 "000" 0 (st_mtime st) 0 prio None])).
    { apply Forall_app. split; [exact Hq|]. constructor; [|constructor].
      apply (HQ e); [apply Hsub; left; reflexivity|].
      split; [exact Edot|]. exists st. split; [exact Est|].
      split; [reflexivity|]. split; [exact Ety|]. split; [exact Eperm|].
      split.
      - intros Hz. apply andb_false_iff in Efresh as [E|E].
        + apply Z.eqb_neq in E. contradiction.
        + destruct (Z.gtb_spec (st_mtime st) (d_now e - A_FEW_SECONDS));
            [discriminate|lia].
      - exact (check_window_clear n t held _ Hinv Ewin). }
    destruct ((max_queue_len opts >? 0) && (cnt + 1 >=? max_queue_len opts)).
    + intros [= <- <-]. exact Hq1.
    + apply IH; auto.
Qed.

Lemma poll_dirs_sound env : forall dirs pre q cnt q' cnt',
  indir_list opts = pre ++ dirs ->
  Forall (polled opts t env) q ->
  poll_dirs opts t env dirs (length pre)
    (Z.of_nat (length (indir_list opts)) - 1 - Z.of_nat (length pre)) q cnt
    = PollOk q' cnt' ->
  Forall (polled opts t env) q'.
Proof.
  induction dirs as [|d rest IH]; intros pre q cnt q' cnt' Hl Hq;
    cbn [poll_dirs].
  - intros [= <- <-]. exact Hq.
  - assert (Hl' : indir_list opts = (pre ++ [d]) ++ rest)
      by (rewrite <- app_assoc; exact Hl).
    assert (El : length (pre ++ [d]) = S (length pre))
      by (rewrite length_app; cbn; lia).
    assert (Ep : Z.of_nat (length (indir_list opts)) - 1
                   - Z.of_nat (length pre) - 1
                 = Z.of_nat (length (indir_list opts)) - 1
                   - Z.of_nat (length (pre ++ [d])))
      by (rewrite El; lia).
    destruct (listing env (length pre)) as [ents|] eqn:Els.
    + destruct (read_entries opts t d _ ents q cnt) as [q1 c1|] eqn:Er;
        [|discriminate].
      rewrite Ep, <- El. apply IH; [exact Hl'|].
      eapply (read_entries_sound (polled opts t env)); [|intros e He; exact He
                                                 |exact Hq|exact Er].
      intros e it He Ht. exists (length pre), d, ents, e.
      split; [|auto].
      rewrite Hl. rewrite lookup_app_r by lia.
      rewrite Nat.sub_diag. reflexivity.
    + rewrite Ep, <- El. apply IH; [exact Hl'|exact Hq].
Qed.

End PollSound.

(** X17.  Whatever a poll of the input directories puts in the queue is
    the item of a directory entry with its priority, and that entry has a
    name that does not start with a dot, could be examined by [stat], has
    one of the tested type bits and a read permission, has not just been
    created empty, and names no file of the ack or retry list. *)
Theorem poll_sound qsort opts t n held env st st' :
  qsort_contract qsort -> tbl_inv n t held ->
  refresh opts t qsort env st = inr st' ->
  Forall (polled opts t env) (queue st').
Proof.
  intros Hq Hinv. unfold refresh.
  destruct (poll_dirs opts t env (indir_list opts) 0 _ [] 0)
    as [q cnt|] eqn:E; [|discriminate].
  intros [= <-]. cbn [queue].
  assert (F : Forall (polled opts t env) q).
  { apply (poll_dirs_sound opts t n held Hinv env (indir_list opts) []
             [] 0 q cnt); [reflexivity|constructor|].
    cbn [length]. rewrite Z.sub_0_r. exact E. }
  destruct (cnt >? 1); [|exact F].
  destruct (Hq q) as [Hp _].
  rewrite Forall_forall in *. intros x Hx. apply F.
  apply list_elem_of_In. apply list_elem_of_In in Hx.
  eapply Permutation_in; [symmetry; exact Hp|exact Hx].
Qed.

Lemma poll_sound_witness :
  Forall (polled (opts_window 1) (prod_tbl window_full) listing_abc)
    (match refresh (opts_window 1) (prod_tbl window_full) insertion_qsort
             listing_abc queue_static_init with
     | inr st' => queue st'
     | inl _ => []
     end).
Proof.
  exact (poll_sound insertion_qsort (opts_window 1) (prod_tbl window_full)
           _ _ listing_abc queue_static_init _ insertion_qsort_contract
           (reachable_inv (opts_window 1) insertion_qsort window_full
              window_full_reachable)
           eq_refl).
Defined.

Lemma type_mask m :
  Z.land m (Z.lor S_IFREG S_IFLNK)
  = Z.land (Z.land m S_IFMT) (Z.lor S_IFREG S_IFLNK).
Proof. rewrite <- Z.land_assoc. reflexivity. Qed.

(** X18.  The test of the file type lets a regular file through, and
    with it a character device, a block device and a socket; it holds
    back a directory and a FIFO.  (The type is that of the target of a
    link: [stat] follows links.) *)
Theorem file_type_filter opts t poll_dir prio e st q cnt :
  starts_with_dot (d_name e) = false ->
  d_stat e = Some st ->
  Z.land (st_mode st) PERM_MASK <> 0 ->
  0 < st_size st ->
  check_window t (poll_dir ++ ["/"] ++ d_name e) = 0 ->
  d_realloc_ok e = true ->
  (In (Z.land (st_mode st) S_IFMT) [S_IFREG; S_IFCHR; S_IFBLK; S_IFSOCK] ->
     read_entries opts t poll_dir prio [e] q cnt
     = PollOk (q ++ [queue_item poll_dir prio (d_name e) st]) (cnt + 1))
  /\ (In (Z.land (st_mode st) S_IFMT) [S_IFDIR; S_IFIFO] ->
     read_entries opts t poll_dir prio [e] q cnt = PollOk q cnt).
Proof.
  intros Hdot Hst Hperm Hsz Hwin Hre.
  cbn [read_entries]. rewrite Hdot, Hst, Hwin, Hre, type_mask.
  destruct (Z.eqb_spec (Z.land (st_mode st) PERM_MASK) 0); [contradiction|].
  destruct (Z.eqb_spec (st_size st) 0); [lia|]. cbn [andb negb Z.eqb].
  split.
  - intros [E|[E|[E|[E|[]]]]]; rewrite <- E; cbn;
      destruct ((max_queue_len opts >? 0) && (cnt + 1 >=? max_queue_len opts));
      reflexivity.
  - intros [E|[E|[]]]; rewrite <- E; reflexivity.
Qed.

Lemma file_type_filter_witness :
  read_entries (opts_example 0 [["d"]]) empty_tbl ["d"] 0
    [file_entry ["a"] 10 100] [] 0
  = PollOk [queue_item ["d"] 0 ["a"] (regular_stat 10 100)] 1.
Proof.
  exact (proj1 (file_type_filter (opts_example 0 [["d"]]) empty_tbl ["d"] 0
                  (file_entry ["a"] 10 100) (regular_stat 10 100) [] 0
                  eq_refl eq_refl ltac:(vm_compute; discriminate) ltac:(simpl; lia)
                  eq_refl eq_refl)
           ltac:(left; reflexivity)).
Defined.

End ClientPollFacts.

(* ===================================================================== *)
(** * Facts about wmo.c: parse_wmo                                        *)
(* ===================================================================== *)

Module WmoFacts.
Import Share Wmo.
Import Samples.

(** ** The fields fit *)

Lemma length_c_str s : (length (c_str s) <= length s)%nat.
Proof.
  induction s as [|c r IH]; cbn [c_str length]; [lia|].
  destruct (Ascii.eqb c "000"); cbn [length]; lia.
Qed.

Lemma length_str_prec k s : (length (str_prec k s) <= k)%nat.
Proof.
  unfold str_prec. pose proof (length_c_str (take k s)).
  rewrite length_take in H. lia.
Qed.

Lemma bind_inv {A B} (m : option A) (k : A -> option B) y :
  m ≫= k = Some y -> exists x, m = Some x /\ k x = Some y.
Proof. destruct m as [x|]; [|discriminate]. intros H. exists x. auto. Qed.

Ltac bind_inv H x Hx :=
  apply bind_inv in H; destruct H as (x & Hx & H).

Lemma ttaaii_at_fits s p t p' :
  ttaaii_at s p = Some (Found t p') ->
  (length t <= 6)%nat /\ (p' <= p + 6)%nat.
Proof.
  pose proof (length_str_prec 6 s) as L6.
  pose proof (length_str_prec 4 s) as L4.
  unfold ttaaii_at. intros H.
  repeat match type of H with
         | _ ≫= _ = Some _ =>
             let x := fresh "x" in let Hx := fresh "Hx" in
             bind_inv H x Hx; try clear Hx
         | (if ?b then _ else _) = Some _ => destruct b
         | Some _ = Some _ => injection H as <- <-
         end; try discriminate;
    rewrite ?length_app; cbn [length]; split; lia.
Qed.

Lemma find_ttaaii_fits buflen : forall s p t p',
  find_ttaaii buflen s p = Some (Some (t, p')) ->
  (length t <= 6)%nat /\ (p' <= buflen)%nat.
Proof.
  induction s as [|c r IH]; intros p t p'; cbn [find_ttaaii];
    destruct (Nat.ltb_spec (p + 6) buflen) as [Hp|Hp]; try discriminate.
  destruct (ttaaii_at (c :: r) p) as [[t1 p1| |]|] eqn:E; try discriminate.
  - intros H. simplify_eq. apply ttaaii_at_fits in E. lia.
  - apply IH.
Qed.

Lemma find_ttaa_fits buflen : forall s p t p',
  (p <= buflen)%nat ->
  find_ttaa buflen s p = Some (Ttaa t p') ->
  (length t <= 6)%nat /\ (p' <= buflen)%nat.
Proof.
  pose proof length_str_prec as L.
  induction s as [|c r IH]; intros p t p' Hb; cbn [find_ttaa];
    destruct (Nat.ltb_spec (p + 9) buflen) as [Hp|Hp];
    try (intros [= <- <-]; cbn [length]; lia); intros H.
  bind_inv H x Hx. destruct x.
  - injection H as <- <-. rewrite length_app. specialize (L 4%nat (c :: r)).
    cbn [length]. lia.
  - bind_inv H e He. destruct e; [discriminate|].
    apply IH in H; [exact H|lia].
Qed.

Lemma skip_spaces_bound buflen : forall s p sp p' sp',
  (p <= buflen)%nat ->
  skip_spaces buflen s p sp = Some (p', sp') -> (p <= p' <= buflen)%nat.
Proof.
  induction s as [|c r IH]; intros p sp p' sp' Hb; cbn [skip_spaces];
    [discriminate|].
  destruct (isspace c); cbn [andb].
  - destruct (Nat.ltb_spec p buflen) as [Hc1|Hc1].
    + intros H. apply IH in H; lia.
    + intros [= <- <-]. lia.
  - intros [= <- <-]. lia.
Qed.

Lemma parse_cccc_fits buf buflen p w r :
  fits w -> (p <= buflen)%nat ->
  parse_cccc buf buflen p w = Some r ->
  match r with
  | Return rc w' => rc = -1 /\ fits w'
  | Goes p' w' => (p' <= buflen)%nat /\ fits w'
  end.
Proof.
  intros Hw Hp. unfold parse_cccc. intros H.
  bind_inv H x Hx. destruct x as [p1 sp].
  apply skip_spaces_bound in Hx; [|exact Hp].
  destruct (Nat.ltb_spec buflen (p1 + WMO_CCCC_LEN)) as [Hc2|Hc2].
  - injection H as <-. auto.
  - bind_inv H c Hc. destruct c; injection H as <-; [|auto].
    split; [lia|].
    pose proof (length_str_prec WMO_CCCC_LEN (drop p1 buf)) as Hl6.
    unfold fits in *. cbn [set_cccc wmo_ttaaii wmo_cccc wmo_ddhhmm wmo_bbb
                             wmo_nnnxxx]. unfold WMO_CCCC_LEN in *. lia.
Qed.

Lemma parse_ddhhmm_fits buf buflen p w p' w' :
  fits w -> (p <= buflen)%nat ->
  parse_ddhhmm buf buflen p w = Some (p', w') ->
  (p' <= S buflen)%nat /\ fits w'.
Proof.
  intros Hw Hp. unfold parse_ddhhmm. intros H.
  bind_inv H x Hx. destruct x as [p1 sp].
  apply skip_spaces_bound in Hx; [|exact Hp].
  bind_inv H x1 H1. destruct x1 as [p2 w2].
  assert (B2 : (p2 <= buflen)%nat /\ fits w2).
  { destruct (Nat.leb_spec (p1 + 6) buflen) as [Hc3|Hc3].
    - bind_inv H1 c Hc. destruct c; injection H1 as <- <-; [|split; [lia|auto]].
      split; [lia|]. pose proof (length_str_prec 6 (drop p1 buf)) as Hl7.
      unfold fits in *. cbn. lia.
    - injection H1 as <- <-. split; [lia|auto]. }
  clear H1. destruct B2 as [B2 F2].
  bind_inv H x2 H2. destruct x2 as [p3 w3].
  assert (B3 : (p3 <= buflen)%nat /\ fits w3).
  { destruct (is_empty (wmo_ddhhmm w2)); cbn [andb] in H2;
      [|injection H2 as <- <-; auto].
    destruct (Nat.leb_spec (p2 + 5) buflen) as [Hc4|Hc4].
    - bind_inv H2 c Hc. destruct c; injection H2 as <- <-; [|auto].
      split; [lia|]. pose proof (length_str_prec 4 (drop p2 buf)) as Hl8.
      unfold fits in *. cbn. rewrite length_app. cbn. lia.
    - injection H2 as <- <-. auto. }
  clear H2. destruct B3 as [B3 F3].
  bind_inv H x3 H3. destruct x3 as [p4 w4].
  assert (B4 : (p4 <= buflen)%nat /\ fits w4).
  { destruct (is_empty (wmo_ddhhmm w3)); cbn [andb] in H3;
      [|injection H3 as <- <-; auto].
    destruct (Nat.leb_spec (p3 + 5) buflen) as [Hc5|Hc5].
    - bind_inv H3 c Hc. destruct c; injection H3 as <- <-; [|auto].
      split; [lia|]. pose proof (length_str_prec 5 (drop p3 buf)) as Hl9.
      unfold fits in *. cbn. lia.
    - injection H3 as <- <-. auto. }
  clear H3. destruct B4 as [B4 F4].
  bind_inv H z Hz. injection H as <- <-. split; [|exact F4].
  destruct z; lia.
Qed.

Lemma run_len_bound f buflen s p : forall fuel i i',
  run_len f buflen s p fuel i = Some i' -> (i <= i' <= i + fuel)%nat.
Proof.
  induction fuel as [|k IH]; intros i i'; cbn [run_len].
  - intros [= <-]. lia.
  - destruct (p + i <? buflen)%nat; [|intros [= <-]; lia].
    intros H. bind_inv H c Hc. destruct (f c).
    + apply IH in H. lia.
    + injection H as <-. lia.
Qed.

Lemma parse_bbb_fits buf buflen : forall fuel p w r,
  fits w ->
  parse_bbb fuel buf buflen p w = Some r ->
  match r with
  | Return rc w' => rc = -1 /\ fits w'
  | Goes _ w' => fits w'
  end.
Proof.
  induction fuel as [|k IH]; intros p w r Hw; cbn [parse_bbb];
    destruct (p <? buflen)%nat; try discriminate;
    try (intros [= <-]; exact Hw).
  intros H. bind_inv H c Hc.
  destruct (Ascii.eqb c CR || Ascii.eqb c LF); [injection H as <-; exact Hw|].
  destruct (isalpha c).
  - destruct (negb (is_empty (wmo_bbb w))); [injection H as <-; auto|].
    bind_inv H i Hi. apply run_len_bound in Hi.
    bind_inv H ok Hok. destruct ok; [|injection H as <-; auto].
    apply IH in H; [exact H|].
    pose proof (length_str_prec i (drop p buf)) as Hl10.
    unfold fits, WMO_BBB_LEN in *. cbn in *. lia.
  - destruct (isspace c); [|injection H as <-; auto].
    apply IH in H; auto.
Qed.

Lemma parse_nnnxxx_fits buf buflen p w w' :
  fits w -> parse_nnnxxx buf buflen p w = Some w' -> fits w'.
Proof.
  intros Hw. unfold parse_nnnxxx. intros H.
  bind_inv H p1 Hp. bind_inv H i Hi. apply run_len_bound in Hi.
  destruct (WMO_NNNXXX_MIN_LEN <=? i)%nat; [|injection H as <-; exact Hw].
  bind_inv H l Hl. injection H as <-. destruct l; [|exact Hw].
  pose proof (length_str_prec i (drop p1 buf)) as Hl11.
  unfold fits, WMO_NNNXXX_LEN in *. cbn in *. lia.
Qed.

(** X19.  Whatever the buffer holds, a call of [parse_wmo] that stays
    inside the array returns 0 or -1, and each of the five fields it has
    stored fits its array with the final NUL: at most 6, 4, 6, 3 and 6
    bytes. *)
Theorem parse_wmo_fits buf buflen rc w :
  parse_wmo buf buflen = Some (rc, w) ->
  (rc = 0 \/ rc = -1)
  /\ (length (wmo_ttaaii w) <= 6 /\ length (wmo_cccc w) <= 4
      /\ length (wmo_ddhhmm w) <= 6 /\ length (wmo_bbb w) <= 3
      /\ length (wmo_nnnxxx w) <= 6)%nat.
Proof.
  assert (F0 : fits no_wmo) by (unfold fits; cbn; lia).
  unfold parse_wmo. intros H.
  bind_inv H r1 H1. bind_inv H r2 H2.
  destruct r2 as [t p|]; [|injection H as <- <-; auto].
  assert (B : (length t <= 6)%nat /\ (p <= buflen)%nat).
  { destruct r1 as [[t1 p1]|].
    - injection H2 as <- <-. exact (find_ttaaii_fits _ _ _ _ _ H1).
    - apply find_ttaa_fits in H2; [exact H2|lia]. }
  destruct B as [Bt Bp].
  assert (Ft : fits (set_ttaaii t no_wmo)) by (unfold fits; cbn; lia).
  bind_inv H r3 H3. apply parse_cccc_fits in H3; [|exact Ft|exact Bp].
  destruct r3 as [rc3 w3|p3 w3].
  - injection H as <- <-. destruct H3 as [-> F]. auto.
  - destruct H3 as [B3 F3]. bind_inv H x H4. destruct x as [p4 w4].
    apply parse_ddhhmm_fits in H4; [|exact F3|exact B3].
    destruct H4 as [B4 F4].
    bind_inv H r5 H5. apply parse_bbb_fits in H5; [|exact F4].
    destruct r5 as [rc5 w5|p5 w5].
    + injection H as <- <-. destruct H5 as [-> F]. auto.
    + bind_inv H w6 H6. injection H as <- <-.
      apply parse_nnnxxx_fits in H6; auto.
Qed.

Lemma parse_wmo_fits_witness :
  (0 = 0 \/ 0 = -1)
  /\ (length (wmo_ttaaii sample_wmo) <= 6 /\ length (wmo_cccc sample_wmo) <= 4
      /\ length (wmo_ddhhmm sample_wmo) <= 6 /\ length (wmo_bbb sample_wmo) <= 3
      /\ length (wmo_nnnxxx sample_wmo) <= 6)%nat.
Proof. exact (parse_wmo_fits sample_heading 21 0 sample_wmo eq_refl). Defined.


(** ** The reads stay inside the array *)

Lemma bind_defined {A B} (m : option A) (k : A -> option B) :
  is_Some m -> (forall x, is_Some (k x)) -> is_Some (m ≫= k).
Proof. intros [x ->] Hk. apply Hk. Qed.

Lemma and_then_defined a b : is_Some a -> is_Some b -> is_Some (a &&& b).
Proof. intros [[|] ->] Hb; cbn; [exact Hb|eexists; reflexivity]. Qed.

Lemma or_else_defined a b : is_Some a -> is_Some b -> is_Some (a ||| b).
Proof. intros [[|] ->] Hb; cbn; [eexists; reflexivity|exact Hb]. Qed.

Lemma on_defined f s i : (i < length s)%nat -> is_Some (on f s i).
Proof.
  intros H. unfold on. destruct (lookup_lt_is_Some_2 s i H) as [c ->].
  eexists. reflexivity.
Qed.

Ltac defd :=
  repeat match goal with
         | |- is_Some (Some _) => eexists; reflexivity
         | |- is_Some (_ ≫= _) => apply bind_defined; [|intros ?]
         | |- is_Some (_ &&& _) => apply and_then_defined
         | |- is_Some (_ ||| _) => apply or_else_defined
         | |- is_Some (on _ _ _) => apply on_defined; lia
         | |- is_Some (_ !! _) => apply lookup_lt_is_Some_2; lia
         | |- is_Some (if ?b then _ else _) => destruct b
         | |- is_Some (let '(_, _) := ?x in _) => destruct x
         end.

Lemma ttaaii_at_defined s p : (6 < length s)%nat -> is_Some (ttaaii_at s p).
Proof. intros H. unfold ttaaii_at, after_ii, at_eoh. defd. Qed.

Lemma find_ttaaii_defined buflen : forall s p,
  (buflen < length s + p)%nat -> is_Some (find_ttaaii buflen s p).
Proof.
  induction s as [|c r IH]; intros p H; cbn [find_ttaaii];
    destruct (Nat.ltb_spec (p + 6) buflen) as [Hp|Hp];
    try (eexists; reflexivity); [cbn [length] in H; lia|].
  destruct (ttaaii_at_defined (c :: r) p) as [x ->]; [lia|].
  destruct x; try (eexists; reflexivity).
  apply IH. cbn [length] in H. lia.
Qed.

Lemma find_ttaa_defined buflen : forall s p,
  (buflen < length s + p)%nat -> is_Some (find_ttaa buflen s p).
Proof.
  induction s as [|c r IH]; intros p H; cbn [find_ttaa];
    destruct (Nat.ltb_spec (p + 9) buflen) as [Hp|Hp];
    try (eexists; reflexivity); [cbn [length] in H; lia|].
  unfold ttaa_at, at_eoh. defd. apply IH. cbn [length] in H. lia.
Qed.

Lemma skip_spaces_defined buflen : forall s p sp,
  (buflen < length s + p)%nat -> (p <= buflen)%nat ->
  is_Some (skip_spaces buflen s p sp).
Proof.
  induction s as [|c r IH]; intros p sp H Hp; cbn [skip_spaces];
    [cbn [length] in H; lia|].
  destruct (isspace c); cbn [andb]; [|eexists; reflexivity].
  destruct (Nat.ltb_spec p buflen) as [Hl|Hl]; [|eexists; reflexivity].
  apply IH; [cbn [length] in H; lia|lia].
Qed.

Lemma skip_to_text_defined buflen : forall s p,
  (buflen <= length s + p)%nat -> is_Some (skip_to_text buflen s p).
Proof.
  induction s as [|c r IH]; intros p H; cbn [skip_to_text];
    destruct (Nat.ltb_spec p buflen) as [Hl|Hl];
    try (eexists; reflexivity); [cbn [length] in H; lia|].
  destruct (isspace c); [|eexists; reflexivity].
  apply IH. cbn [length] in H. lia.
Qed.

Lemma own_line_defined buflen : forall s q,
  (buflen <= length s + q)%nat -> is_Some (own_line buflen s q).
Proof.
  induction s as [|c r IH]; intros q H; cbn [own_line];
    destruct (Nat.ltb_spec q buflen) as [Hl|Hl];
    try (eexists; reflexivity); [cbn [length] in H; lia|].
  destruct (Ascii.eqb c CR || Ascii.eqb c LF); [eexists; reflexivity|].
  destruct (negb (isspace c)); [eexists; reflexivity|].
  apply IH. cbn [length] in H. lia.
Qed.

Lemma run_len_defined f buflen s p : forall fuel i,
  (buflen <= length s + p)%nat -> is_Some (run_len f buflen s p fuel i).
Proof.
  induction fuel as [|k IH]; intros i H; cbn [run_len];
    [eexists; reflexivity|].
  destruct (Nat.ltb_spec (p + i) buflen) as [Hl|Hl]; [|eexists; reflexivity].
  defd. apply IH. exact H.
Qed.

Lemma parse_cccc_defined buf buflen p w :
  (buflen < length buf)%nat -> (p <= buflen)%nat ->
  is_Some (parse_cccc buf buflen p w).
Proof.
  intros Hb Hp. unfold parse_cccc.
  destruct (skip_spaces_defined buflen (drop p buf) p 0) as [[p1 sp] E];
    [rewrite length_drop; lia|exact Hp|].
  rewrite E. cbn [mbind option_bind].
  apply skip_spaces_bound in E; [|exact Hp].
  destruct (Nat.ltb_spec buflen (p1 + WMO_CCCC_LEN)) as [Hl|Hl];
    [eexists; reflexivity|].
  pose proof (length_drop buf p1) as Hd. unfold WMO_CCCC_LEN in *. defd.
Qed.

Lemma parse_ddhhmm_defined buf buflen p w :
  (buflen < length buf)%nat -> (p <= buflen)%nat ->
  is_Some (parse_ddhhmm buf buflen p w).
Proof.
  intros Hb Hp. unfold parse_ddhhmm.
  destruct (skip_spaces_defined buflen (drop p buf) p 0) as [[p1 sp] E];
    [rewrite length_drop; lia|exact Hp|].
  rewrite E. cbn [mbind option_bind].
  apply skip_spaces_bound in E; [|exact Hp].
  pose proof (length_drop buf) as Hd.
  match goal with
  | |- is_Some (?m ≫= ?k) =>
      assert (H1 : exists p2 w2, m = Some (p2, w2) /\ (p2 <= buflen)%nat)
  end.
  { pose proof (Hd p1). destruct (Nat.leb_spec (p1 + 6) buflen) as [Hl|Hl];
      [|eexists _, _; split; [reflexivity|lia]].
    assert (D : is_Some (digits 6 (drop p1 buf)))
      by (unfold digits; cbn [fold_left seq]; defd).
    destruct D as [[|] ->]; cbn [mbind option_bind];
      eexists _, _; (split; [reflexivity|lia]). }
  destruct H1 as (p2 & w2 & -> & B2). cbn [mbind option_bind].
  match goal with
  | |- is_Some (?m ≫= ?k) =>
      assert (H2 : exists p3 w3, m = Some (p3, w3) /\ (p3 <= buflen)%nat)
  end.
  { pose proof (Hd p2).
    destruct (is_empty (wmo_ddhhmm w2)); cbn [andb];
      [|eexists _, _; split; [reflexivity|lia]].
    destruct (Nat.leb_spec (p2 + 5) buflen) as [Hl|Hl];
      [|eexists _, _; split; [reflexivity|lia]].
    assert (D : is_Some (digits 4 (drop p2 buf) &&& on isspace (drop p2 buf) 4))
      by (unfold digits; cbn [fold_left seq]; defd).
    destruct D as [[|] ->]; cbn [mbind option_bind];
      eexists _, _; (split; [reflexivity|lia]). }
  destruct H2 as (p3 & w3 & -> & B3). cbn [mbind option_bind].
  match goal with
  | |- is_Some (?m ≫= ?k) =>
      assert (H3 : exists p4 w4, m = Some (p4, w4) /\ (p4 <= buflen)%nat)
  end.
  { pose proof (Hd p3).
    destruct (is_empty (wmo_ddhhmm w3)); cbn [andb];
      [|eexists _, _; split; [reflexivity|lia]].
    destruct (Nat.leb_spec (p3 + 5) buflen) as [Hl|Hl];
      [|eexists _, _; split; [reflexivity|lia]].
    assert (D : is_Some (Some (1 <? sp)%nat &&& digits 5 (drop p3 buf)))
      by (unfold digits; cbn [fold_left seq]; defd).
    destruct D as [[|] ->]; cbn [mbind option_bind];
      eexists _, _; (split; [reflexivity|lia]). }
  destruct H3 as (p4 & w4 & -> & B4). cbn [mbind option_bind].
  pose proof (Hd p4). defd.
Qed.

Lemma parse_bbb_defined buf buflen : forall fuel p w,
  (buflen < length buf)%nat -> (buflen <= fuel + p)%nat ->
  is_Some (parse_bbb fuel buf buflen p w).
Proof.
  induction fuel as [|k IH]; intros p w Hb Hf; cbn [parse_bbb];
    destruct (Nat.ltb_spec p buflen) as [Hl|Hl];
    try (eexists; reflexivity); [lia|].
  pose proof (length_drop buf p) as Hd.
  apply bind_defined; [apply lookup_lt_is_Some_2; lia|]. intros c.
  destruct (Ascii.eqb c CR || Ascii.eqb c LF); [eexists; reflexivity|].
  destruct (isalpha c).
  - destruct (negb (is_empty (wmo_bbb w))); [eexists; reflexivity|].
    destruct (run_len_defined isalpha buflen (drop p buf) p
                (WMO_BBB_LEN - 1) 1) as [i Hi]; [lia|].
    rewrite Hi. cbn [mbind option_bind]. apply run_len_bound in Hi.
    destruct (Nat.ltb_spec (p + i) buflen) as [Hl2|Hl2]; cbn [and_then].
    + defd. apply IH; [exact Hb|lia].
    + cbn [mbind option_bind]. eexists. reflexivity.
  - destruct (isspace c); [|eexists; reflexivity].
    apply IH; [exact Hb|lia].
Qed.

Lemma parse_nnnxxx_defined buf buflen p w :
  (buflen <= length buf)%nat -> is_Some (parse_nnnxxx buf buflen p w).
Proof.
  intros Hb. unfold parse_nnnxxx.
  apply bind_defined;
    [apply skip_to_text_defined; rewrite length_drop; lia|].
  intros p1.
  apply bind_defined; [apply run_len_defined; rewrite length_drop; lia|].
  intros i. destruct (WMO_NNNXXX_MIN_LEN <=? i)%nat; [|eexists; reflexivity].
  apply bind_defined; [|intros l; eexists; reflexivity].
  apply own_line_defined. rewrite !length_drop. lia.
Qed.

Lemma parse_wmo_defined buf buflen :
  (buflen < length buf)%nat -> is_Some (parse_wmo buf buflen).
Proof.
  intros Hb. unfold parse_wmo.
  destruct (find_ttaaii_defined buflen buf 0) as [r1 H1]; [lia|].
  rewrite H1. cbn [mbind option_bind].
  assert (H2 : exists r2,
            match r1 with
            | Some (t, p) => Some (Ttaa t p)
            | None => find_ttaa buflen buf 0
            end = Some r2
            /\ match r2 with Ttaa _ p => (p <= buflen)%nat | GiveUp => True end).
  { destruct r1 as [[t p]|].
    - exists (Ttaa t p). split; [reflexivity|].
      apply find_ttaaii_fits in H1. cbv beta iota. lia.
    - destruct (find_ttaa_defined buflen buf 0) as [r2 H2]; [lia|].
      exists r2. split; [exact H2|]. destruct r2 as [t p|]; [|exact I].
      apply find_ttaa_fits in H2; lia. }
  destruct H2 as (r2 & -> & B2). cbn [mbind option_bind].
  destruct r2 as [t p|]; [|eexists; reflexivity].
  destruct (parse_cccc_defined buf buflen p (set_ttaaii t no_wmo) Hb B2)
    as [r3 H3].
  rewrite H3. cbn [mbind option_bind].
  destruct r3 as [rc w|p3 w3]; [eexists; reflexivity|].
  assert (B3 : (p3 <= buflen)%nat).
  { revert H3. unfold parse_cccc. intros H.
    bind_inv H x Hx. destruct x as [p1 sp].
    destruct (Nat.ltb_spec buflen (p1 + WMO_CCCC_LEN)); [discriminate|].
    bind_inv H c Hc. destruct c; [|discriminate].
    injection H as <- <-. lia. }
  destruct (parse_ddhhmm_defined buf buflen p3 w3 Hb B3) as [[p4 w4] H4].
  rewrite H4. cbn [mbind option_bind].
  destruct (parse_bbb_defined buf buflen buflen p4 w4 Hb) as [r5 H5]; [lia|].
  rewrite H5. cbn [mbind option_bind].
  destruct r5 as [rc w|p5 w5]; [eexists; reflexivity|].
  destruct (parse_nnnxxx_defined buf buflen p5 w5) as [w6 H6]; [lia|].
  rewrite H6. eexists. reflexivity.
Qed.

Lemma find_ttaaii_blank buflen : forall s p,
  Forall blank s -> (length s + p = buflen)%nat ->
  find_ttaaii buflen s p = Some None.
Proof.
  induction s as [|c r IH]; intros p Hs Hl; cbn [find_ttaaii];
    destruct (Nat.ltb_spec (p + 6) buflen) as [Hp|Hp]; try reflexivity;
    [cbn [length] in Hl; lia|].
  apply Forall_cons in Hs as [Hc Hr]. unfold blank in Hc. subst c.
  assert (E : ttaaii_at (" " :: r) p = Some Next).
  { destruct r as [|c1 [|c2 r]]; cbn [length] in Hl; try lia. reflexivity. }
  rewrite E. apply IH; [exact Hr|cbn [length] in Hl; lia].
Qed.

Lemma find_ttaa_blank buflen : forall s p,
  Forall blank s -> (length s + p = buflen)%nat ->
  exists p', find_ttaa buflen s p = Some (Ttaa [] p')
             /\ (p <= p' <= buflen)%nat.
Proof.
  induction s as [|c r IH]; intros p Hs Hl; cbn [find_ttaa];
    destruct (Nat.ltb_spec (p + 9) buflen) as [Hp|Hp];
    try (exists p; split; [reflexivity|lia]);
    [cbn [length] in Hl; lia|].
  apply Forall_cons in Hs as [Hc Hr]. unfold blank in Hc. subst c.
  assert (E : ttaa_at (" " :: r) = Some false) by reflexivity.
  assert (E' : at_eoh (" " :: r) = Some false) by reflexivity.
  rewrite E. cbn [mbind option_bind]. rewrite E'. cbn [mbind option_bind].
  destruct (IH (S p) Hr) as (p' & -> & B); [cbn [length] in Hl; lia|].
  exists p'. split; [reflexivity|lia].
Qed.

Lemma skip_spaces_blank buflen : forall s p sp,
  Forall blank s -> (length s + p = buflen)%nat ->
  skip_spaces buflen s p sp = None.
Proof.
  induction s as [|c r IH]; intros p sp Hs Hl; cbn [skip_spaces];
    [reflexivity|].
  apply Forall_cons in Hs as [Hc Hr]. unfold blank in Hc. subst c.
  change (isspace " ") with true. cbn [andb].
  destruct (Nat.ltb_spec p buflen) as [Hp|Hp]; [|cbn [length] in Hl; lia].
  apply IH; [exact Hr|cbn [length] in Hl; lia].
Qed.

(** X20.  [parse_wmo] reads at most one byte beyond the [buflen] bytes it
    is given: it is defined whenever the array goes on for one byte more.
    It does read that byte: when the array ends with the data and the
    data is all blanks, the loop over the white space runs off the
    array. *)
Theorem parse_wmo_reads buf buflen :
  ((buflen < length buf)%nat ->
     exists rc w, parse_wmo buf buflen = Some (rc, w))
  /\ (buflen = length buf -> Forall (fun c => c = " ") buf ->
        parse_wmo buf buflen = None).
Proof.
  split.
  - intros Hb. destruct (parse_wmo_defined buf buflen Hb) as [[rc w] E].
    exists rc, w. exact E.
  - intros -> Hs. unfold parse_wmo.
    rewrite (find_ttaaii_blank (length buf) buf 0 Hs) by lia.
    cbn [mbind option_bind].
    destruct (find_ttaa_blank (length buf) buf 0 Hs) as (p' & -> & B); [lia|].
    cbn [mbind option_bind]. unfold parse_cccc.
    rewrite skip_spaces_blank; [reflexivity| |rewrite length_drop; lia].
    apply Forall_drop. exact Hs.
Qed.

Lemma parse_wmo_reads_witness :
  exists rc w, parse_wmo sample_heading 21 = Some (rc, w).
Proof.
  exact (proj1 (parse_wmo_reads sample_heading 21) ltac:(simpl; lia)).
Defined.


(** ** A heading in the format of the manual *)

Lemma alpha_facts c :
  isalpha c = true ->
  isspace c = false /\ isdigit c = false /\ isalnum c = true
  /\ Ascii.eqb c "000" = false /\ Ascii.eqb c CR = false
  /\ Ascii.eqb c LF = false.
Proof.
  destruct c as [[|] [|] [|] [|] [|] [|] [|] [|]]; cbv; intros H;
    try discriminate; repeat split.
Qed.

Lemma digit_facts c :
  isdigit c = true ->
  isspace c = false /\ isalpha c = false /\ isalnum c = true
  /\ Ascii.eqb c "000" = false.
Proof.
  destruct c as [[|] [|] [|] [|] [|] [|] [|] [|]]; cbv; intros H;
    try discriminate; repeat split.
Qed.

Lemma parse_nnnxxx_frame buf buflen p w w' :
  parse_nnnxxx buf buflen p w = Some w' ->
  w' = w \/ exists v, w' = set_nnnxxx v w.
Proof.
  unfold parse_nnnxxx. intros H.
  bind_inv H p1 Hp. bind_inv H i Hi.
  destruct (WMO_NNNXXX_MIN_LEN <=? i)%nat; [|injection H as <-; auto].
  bind_inv H l Hl. injection H as <-. destruct l; eauto.
Qed.

Ltac chars :=
  repeat match goal with
         | H : Forall _ (_ :: _) |- _ =>
             let E := fresh "E" in apply Forall_cons in H as [E H]
         | H : Forall _ [] |- _ => clear H
         end;
  repeat match goal with
         | E : isalpha ?c = true |- _ =>
             let F := fresh "F" in
             pose proof (alpha_facts c E) as F; revert E;
             destruct F as (? & ? & ? & ? & ? & ?)
         | E : isdigit ?c = true |- _ =>
             let F := fresh "F" in
             pose proof (digit_facts c E) as F; revert E;
             destruct F as (? & ? & ? & ?)
         end;
  intros.

Lemma drop_shape {A} (buf : list A) p x r :
  drop p buf = x :: r -> drop (S p) buf = r.
Proof.
  intros H. change (S p) with (1 + p)%nat.
  rewrite Nat.add_comm, <- drop_drop, H. reflexivity.
Qed.

Lemma drop_shape_app {A} (buf : list A) p l r :
  drop p buf = l ++ r -> drop (p + length l) buf = r.
Proof.
  intros H. rewrite <- drop_drop, H. rewrite drop_app_length. reflexivity.
Qed.

Lemma c_str_clean l :
  Forall (fun c => Ascii.eqb c "000" = false) l -> c_str l = l.
Proof.
  induction 1 as [|c r Hc _ IH]; [reflexivity|].
  cbn [c_str]. rewrite Hc, IH. reflexivity.
Qed.

Lemma c_str_alnum l :
  Forall (fun c => isalnum c = true) l -> c_str l = l.
Proof.
  intros H. apply c_str_clean. eapply Forall_impl; [exact H|].
  intros c Hc. cbv beta in Hc. unfold isalnum in Hc.
  apply orb_true_iff in Hc as [Hc|Hc].
  - apply alpha_facts in Hc. tauto.
  - apply digit_facts in Hc. tauto.
Qed.

Lemma alpha_alnum c : isalpha c = true -> isalnum c = true.
Proof. intros H. unfold isalnum. rewrite H. reflexivity. Qed.

Lemma digit_alnum c : isdigit c = true -> isalnum c = true.
Proof. intros H. unfold isalnum. rewrite H. apply orb_true_r. Qed.

Lemma heading_ttaaii_at t1 t2 a1 a2 i1 i2 x r p :
  isalpha t1 = true -> isalpha t2 = true -> isalpha a1 = true ->
  isalpha a2 = true -> isdigit i1 = true -> isdigit i2 = true ->
  isspace x = true ->
  ttaaii_at (t1 :: t2 :: a1 :: a2 :: i1 :: i2 :: x :: r) p
  = Some (Found [t1; t2; a1; a2; i1; i2] (p + 6)).
Proof.
  intros H1 H2 H3 H4 H5 H6 H7. unfold ttaaii_at, after_ii, on, str_prec.
  cbn [lookup list_lookup fmap option_fmap option_map take].
  rewrite H1, H2, H3, H4. cbn [and_then mbind option_bind].
  rewrite H5, H6, H7. cbn [and_then or_else mbind option_bind].
  rewrite c_str_alnum; [reflexivity|].
  repeat constructor; auto using alpha_alnum, digit_alnum.
Qed.

Lemma skip_one_space buflen x c r p sp :
  isspace x = true -> isspace c = false -> (p < buflen)%nat ->
  skip_spaces buflen (x :: c :: r) p sp = Some (S p, S sp).
Proof.
  intros Hx Hc Hp. cbn [skip_spaces]. rewrite Hx, Hc.
  apply Nat.ltb_lt in Hp. rewrite Hp. reflexivity.
Qed.

Lemma heading_cccc buf buflen p w x c1 c2 c3 c4 r :
  drop p buf = x :: c1 :: c2 :: c3 :: c4 :: r ->
  isspace x = true ->
  isalpha c1 = true -> isalpha c2 = true -> isalpha c3 = true ->
  isalpha c4 = true ->
  (p + 5 <= buflen)%nat ->
  parse_cccc buf buflen p w
  = Some (Goes (p + 5) (set_cccc [c1; c2; c3; c4] w)).
Proof.
  intros Hd Hx H1 H2 H3 H4 Hb. unfold parse_cccc.
  rewrite Hd, (skip_one_space buflen x c1) by
    (try apply alpha_facts; auto; lia).
  cbn [mbind option_bind]. rewrite (drop_shape _ _ _ _ Hd).
  unfold WMO_CCCC_LEN.
  replace (buflen <? S p + 4)%nat with false
    by (symmetry; apply Nat.ltb_ge; lia).
  unfold on, str_prec.
  cbn [lookup list_lookup fmap option_fmap option_map take].
  rewrite H1, H3, (alpha_alnum c2 H2), (alpha_alnum c4 H4).
  cbn [and_then mbind option_bind].
  rewrite c_str_alnum by (repeat constructor; auto using alpha_alnum).
  replace (S p + 4)%nat with (p + 5)%nat by lia. reflexivity.
Qed.

Lemma digits_6 d1 d2 d3 d4 d5 d6 r :
  Forall (fun c => isdigit c = true) [d1; d2; d3; d4; d5; d6] ->
  digits 6 (d1 :: d2 :: d3 :: d4 :: d5 :: d6 :: r) = Some true.
Proof.
  intros H. unfold digits, on.
  cbn [seq fold_left lookup list_lookup fmap option_fmap option_map].
  repeat (apply Forall_cons in H as [E H]; rewrite E; clear E).
  reflexivity.
Qed.

Lemma heading_ddhhmm buf buflen p w x d1 d2 d3 d4 d5 d6 y r :
  drop p buf = x :: d1 :: d2 :: d3 :: d4 :: d5 :: d6 :: y :: r ->
  isspace x = true ->
  Forall (fun c => isdigit c = true) [d1; d2; d3; d4; d5; d6] ->
  Ascii.eqb y "Z" = false ->
  (p + 7 <= buflen)%nat ->
  parse_ddhhmm buf buflen p w
  = Some ((p + 7)%nat, set_ddhhmm [d1; d2; d3; d4; d5; d6] w).
Proof.
  intros Hd Hx Hds Hy Hb. unfold parse_ddhhmm.
  assert (H1 : isdigit d1 = true) by (apply Forall_cons in Hds; tauto).
  rewrite Hd, (skip_one_space buflen x d1) by
    (try apply digit_facts; auto; lia).
  cbn [mbind option_bind]. rewrite (drop_shape _ _ _ _ Hd).
  replace (S p + 6 <=? buflen)%nat with true
    by (symmetry; apply Nat.leb_le; lia).
  rewrite (digits_6 _ _ _ _ _ _ _ Hds). cbn [mbind option_bind].
  unfold str_prec. cbn [take].
  rewrite c_str_alnum
    by (eapply Forall_impl; [exact Hds|intros c; apply digit_alnum]).
  cbn [set_ddhhmm wmo_ddhhmm is_empty andb mbind option_bind].
  assert (Hz : drop (S p + 6) buf = y :: r).
  { replace (S p + 6)%nat with (p + 7)%nat by lia.
    change 7%nat with (length [x; d1; d2; d3; d4; d5; d6]).
    apply drop_shape_app. exact Hd. }
  rewrite Hz. unfold on, is_char.
  cbn [lookup list_lookup fmap option_fmap option_map mbind option_bind].
  rewrite Hy. replace (S p + 6)%nat with (p + 7)%nat by lia. reflexivity.
Qed.

Lemma bbb_at_crlf fuel buf buflen p w c r :
  drop p buf = c :: r -> c = CR \/ c = LF -> (p < buflen)%nat ->
  parse_bbb (S fuel) buf buflen p w = Some (Goes p w).
Proof.
  intros Hd Hc Hp. cbn [parse_bbb].
  apply Nat.ltb_lt in Hp. rewrite Hp, Hd.
  cbn [lookup list_lookup mbind option_bind].
  destruct Hc as [-> | ->]; reflexivity.
Qed.

Lemma run_len_alpha buflen bbb x r p :
  Forall (fun c => isalpha c = true) bbb ->
  (1 <= length bbb <= 3)%nat -> isalpha x = false ->
  (p + length bbb < buflen)%nat ->
  run_len isalpha buflen (bbb ++ x :: r) p (WMO_BBB_LEN - 1) 1
  = Some (length bbb).
Proof.
  intros Ha Hl Hx Hb. unfold WMO_BBB_LEN.
  destruct bbb as [|b1 [|b2 [|b3 [|b4 bbb]]]]; cbn [length] in *; try lia;
    repeat (apply Forall_cons in Ha as [? Ha]);
    cbn [run_len Nat.sub app lookup list_lookup mbind option_bind].
  - replace (p + 1 <? buflen)%nat with true
      by (symmetry; apply Nat.ltb_lt; lia).
    rewrite Hx. reflexivity.
  - replace (p + 1 <? buflen)%nat with true
      by (symmetry; apply Nat.ltb_lt; lia).
    replace (p + 2 <? buflen)%nat with true
      by (symmetry; apply Nat.ltb_lt; lia).
    rewrite H0, Hx. reflexivity.
  - replace (p + 1 <? buflen)%nat with true
      by (symmetry; apply Nat.ltb_lt; lia).
    replace (p + 2 <? buflen)%nat with true
      by (symmetry; apply Nat.ltb_lt; lia).
    rewrite H0, H1. reflexivity.
Qed.

Lemma heading_bbb fuel buf buflen p w x bbb c r :
  drop p buf = x :: bbb ++ c :: r ->
  x = " " ->
  Forall (fun c => isalpha c = true) bbb -> (1 <= length bbb <= 3)%nat ->
  c = CR \/ c = LF ->
  wmo_bbb w = [] ->
  (p + length bbb + 2 <= buflen)%nat ->
  parse_bbb (S (S (S fuel))) buf buflen p w
  = Some (Goes (p + 1 + length bbb) (set_bbb bbb w)).
Proof.
  intros Hd -> Ha Hl Hc Hw Hb.
  assert (Hd1 : drop (S p) buf = bbb ++ c :: r)
    by (exact (drop_shape _ _ _ _ Hd)).
  assert (Hd2 : drop (S p + length bbb) buf = c :: r)
    by (apply drop_shape_app; exact Hd1).
  assert (Hcs : isspace c = true /\ isalpha c = false)
    by (destruct Hc as [-> | ->]; split; reflexivity).
  destruct Hcs as [Hcs Hca].
  (* first turn: the blank *)
  cbn [parse_bbb].
  replace (p <? buflen)%nat with true by (symmetry; apply Nat.ltb_lt; lia).
  rewrite Hd. cbn [lookup list_lookup mbind option_bind].
  change (Ascii.eqb " " CR || Ascii.eqb " " LF) with false.
  change (isalpha " ") with false. change (isspace " ") with true.
  cbv iota.
  (* second turn: the letters *)
  replace (S p <? buflen)%nat with true by (symmetry; apply Nat.ltb_lt; lia).
  rewrite Hd1.
  destruct bbb as [|b1 bbb']; [cbn [length] in Hl; lia|].
  pose proof Ha as Ha'. apply Forall_cons in Ha' as [Hb1 _].
  destruct (alpha_facts b1 Hb1) as (_ & _ & _ & _ & Hcr & Hlf).
  cbn [app lookup list_lookup mbind option_bind].
  rewrite Hcr, Hlf, Hb1, Hw. cbn [orb is_empty negb].
  change (b1 :: bbb' ++ c :: r) with ((b1 :: bbb') ++ c :: r).
  rewrite (run_len_alpha buflen (b1 :: bbb') c r (S p)) by (auto; lia).
  cbn [mbind option_bind].
  replace (S p + length (b1 :: bbb') <? buflen)%nat with true
    by (symmetry; apply Nat.ltb_lt; lia).
  unfold on. rewrite lookup_app_r by lia. rewrite Nat.sub_diag.
  cbn [and_then lookup list_lookup fmap option_fmap option_map
       mbind option_bind].
  rewrite Hcs. unfold str_prec.
  rewrite take_app_length.
  rewrite c_str_alnum
    by (eapply Forall_impl; [exact Ha|intros a; apply alpha_alnum]).
  (* third turn: the end of the line *)
  replace (p + 1 + length (b1 :: bbb'))%nat
    with (S p + length (b1 :: bbb'))%nat by lia.
  rewrite Hd2. cbn [lookup list_lookup mbind option_bind].
  destruct Hc as [-> | ->]; reflexivity.
Qed.

(** X21.  A heading in the format "TTAAii CCCC DDHHMM[ BBB]" followed by
    the end of the line, at the start of the data, is parsed into its
    fields: [parse_wmo] returns 0, the first three fields are the three
    groups and [wmo_bbb] is the fourth, empty if there is none. *)
Theorem parse_wmo_heading t1 t2 a1 a2 i1 i2 c1 c2 c3 c4 d1 d2 d3 d4 d5 d6
  bbb eol tail buflen :
  Forall (fun c => isalpha c = true)
    ([t1; t2; a1; a2; c1; c2; c3; c4] ++ bbb) ->
  Forall (fun c => isdigit c = true) [i1; i2; d1; d2; d3; d4; d5; d6] ->
  (length bbb <= 3)%nat ->
  eol = CR \/ eol = LF ->
  let heading :=
    [t1; t2; a1; a2; i1; i2; " "; c1; c2; c3; c4; " ";
     d1; d2; d3; d4; d5; d6]
      ++ match bbb with [] => [] | _ => " " :: bbb end ++ [eol] in
  (length heading <= buflen <= length (heading ++ tail))%nat ->
  exists nnnxxx,
    parse_wmo (heading ++ tail) buflen
    = Some (0, mk_wmo [t1; t2; a1; a2; i1; i2] [c1; c2; c3; c4]
                 [d1; d2; d3; d4; d5; d6] bbb nnnxxx).
Proof.
  intros Ha Hd Hl He heading Hb.
  apply Forall_app in Ha as [Ha Hbbb].
  pose proof Ha as Ha'.
  repeat (apply Forall_cons in Ha' as [? Ha']).
  pose proof Hd as Hd'.
  apply Forall_cons in Hd' as [Hi1 Hd'].
  apply Forall_cons in Hd' as [Hi2 Hd'].
  set (after := match bbb with [] => [] | _ => " " :: bbb end ++ [eol])
    in heading.
  set (buf := heading ++ tail) in *.
  assert (Hlen : (19 <= length heading)%nat).
  { subst heading. rewrite length_app. cbn [length].
    subst after. rewrite length_app. cbn [length]. lia. }
  assert (Hye : Ascii.eqb eol "Z" = false)
    by (destruct He as [-> | ->]; reflexivity).
  assert (D6 : drop 6 buf
               = " " :: c1 :: c2 :: c3 :: c4
                   :: (" " :: [d1; d2; d3; d4; d5; d6] ++ after ++ tail))
    by (subst buf heading; rewrite <- app_assoc; reflexivity).
  assert (D11 : drop 11 buf
                = match after ++ tail with
                  | y :: r => " " :: d1 :: d2 :: d3 :: d4 :: d5 :: d6 :: y :: r
                  | [] => []
                  end).
  { subst buf heading. rewrite <- !app_assoc. cbn [app drop].
    subst after. destruct bbb; reflexivity. }
  assert (D18 : drop 18 buf = after ++ tail)
    by (subst buf heading; rewrite <- !app_assoc; reflexivity).
  unfold parse_wmo.
  (* TTAAII *)
  assert (E1 : find_ttaaii buflen buf 0
               = Some (Some ([t1; t2; a1; a2; i1; i2], 6%nat))).
  { subst buf heading. cbn [app find_ttaaii].
    replace (0 + 6 <? buflen)%nat with true
      by (symmetry; apply Nat.ltb_lt; lia).
    rewrite heading_ttaaii_at by (auto; reflexivity). reflexivity. }
  rewrite E1. cbn [mbind option_bind].
  (* CCCC *)
  rewrite (heading_cccc buf buflen 6 _ _ _ _ _ _ _ D6)
    by (auto; try reflexivity; lia).
  cbn [mbind option_bind Nat.add].
  (* DDHHMM, BBB and the end of the line *)
  destruct bbb as [|b1 bbb'].
  - subst after. cbn [app] in D11, D18.
    rewrite (heading_ddhhmm buf buflen 11 _ _ _ _ _ _ _ _ _ _ D11)
      by (auto; try reflexivity; lia).
    cbn [mbind option_bind Nat.add].
    destruct buflen as [|fuel]; [lia|].
    rewrite (bbb_at_crlf fuel buf (S fuel) 18 _ eol tail D18 He) by lia.
    cbn [mbind option_bind].
    destruct (parse_nnnxxx_defined buf (S fuel) 18
                (set_ddhhmm [d1; d2; d3; d4; d5; d6]
                   (set_cccc [c1; c2; c3; c4]
                      (set_ttaaii [t1; t2; a1; a2; i1; i2] no_wmo))))
      as [w' Hw']; [lia|].
    rewrite Hw'. cbn [mbind option_bind].
    apply parse_nnnxxx_frame in Hw' as [-> | [v ->]]; eexists; reflexivity.
  - subst after. cbn [app] in D11, D18.
    rewrite (heading_ddhhmm buf buflen 11 _ _ _ _ _ _ _ _ _ _ D11)
      by (auto; try reflexivity; lia).
    cbn [mbind option_bind Nat.add].
    assert (Hb' : (21 + length bbb' <= buflen)%nat).
    { subst heading. rewrite length_app in Hb. cbn [length] in Hb.
      rewrite !length_app in Hb. cbn [length] in Hb. lia. }
    destruct buflen as [|[|[|fuel]]]; try lia.
    rewrite <- app_assoc in D18. cbn [app] in D18.
    change (" " :: b1 :: bbb' ++ eol :: tail)
      with (" " :: (b1 :: bbb') ++ eol :: tail) in D18.
    rewrite (heading_bbb fuel buf _ 18 _ _ _ _ _ D18 eq_refl Hbbb)
      by (cbn [length] in *; auto; lia).
    cbn [mbind option_bind].
    match goal with
    | |- context [parse_nnnxxx ?b ?n ?p ?w] =>
        destruct (parse_nnnxxx_defined b n p w) as [w' Hw']; [lia|];
        rewrite Hw'; cbn [mbind option_bind];
        apply parse_nnnxxx_frame in Hw' as [-> | [v ->]]
    end; eexists; reflexivity.
Qed.

Lemma parse_wmo_heading_witness :
  exists nnnxxx,
    parse_wmo sample_heading 21
    = Some (0, mk_wmo ["S"; "X"; "U"; "S"; "2"; "0"] ["K"; "W"; "B"; "C"]
                 ["1"; "2"; "1"; "5"; "3"; "0"] [] nnnxxx).
Proof.
  exact (parse_wmo_heading "S" "X" "U" "S" "2" "0" "K" "W" "B" "C"
           "1" "2" "1" "5" "3" "0" [] CR [CR; LF; "x"] 21
           ltac:(repeat constructor) ltac:(repeat constructor)
           ltac:(simpl; lia) ltac:(left; reflexivity) ltac:(simpl; lia)).
Defined.

End WmoFacts.

(* ===================================================================== *)
(** * Facts about client_queue.c: files that are done                     *)
(* ===================================================================== *)

Module ClientFinishFacts.
Import Share ClientSend ServService ServStore ClientFinish.
Import ShareFacts ShareAckFacts ServBlockFacts.

Lemma next_file_count_mod n fc :
  0 < n < 2 ^ 31 -> 0 <= fc < n ->
  next_file_count n fc = Some ((fc + 1) mod n).
Proof.
  intros Hn Hfc. unfold next_file_count, to_uint.
  rewrite (Z.mod_small n), (Z.mod_small (fc + 1)) by lia.
  destruct (Z.eqb_spec n 0); [lia|reflexivity].
Qed.

Lemma count_after_mod n : forall k fc,
  0 < n < 2 ^ 31 -> 0 <= fc < n ->
  count_after n k fc = Some ((fc + Z.of_nat k) mod n).
Proof.
  induction k as [|k IH]; intros fc Hn Hfc; cbn [count_after].
  - rewrite Z.add_0_r, Z.mod_small by lia. reflexivity.
  - rewrite next_file_count_mod by assumption. cbn [mbind option_bind].
    rewrite IH by (try apply Z.mod_pos_bound; lia).
    rewrite Zplus_mod_idemp_l. f_equal. f_equal. lia.
Qed.

Lemma rotate_path_fixed dir n fc :
  0 < n < 2 ^ 31 -> 0 <= fc < n ->
  rotate_path dir n fc
  = dir ++ ["/"] ++ fixed (length (decimal (n - 1))) fc
  /\ fc < 10 ^ Z.of_nat (length (decimal (n - 1)))
  /\ (1 <= length (decimal (n - 1)))%nat.
Proof.
  intros Hn Hfc. unfold rotate_path, digits_of.
  rewrite !to_int_small by lia.
  destruct (decimal_digits (n - 1)) as (_ & _ & H1); [lia|].
  assert (Hd : length (fmt_d 1 (n - 1)) = length (decimal (n - 1))).
  { unfold fmt_d. destruct (Z.ltb_spec (n - 1) 0); [lia|].
    rewrite Z.abs_eq by lia. cbn [app]. rewrite length_app, repeat_length.
    lia. }
  rewrite Hd.
  assert (Hlt : n - 1 < 10 ^ Z.of_nat (length (decimal (n - 1))))
    by (apply length_decimal_le; [lia|exact H1|lia]).
  rewrite fmt_d_fixed by (try exact H1; lia).
  split; [reflexivity|]. split; [lia|exact H1].
Qed.

(** X22.  The files that are done go round a ring of [sent_count]
    names: the names are numbers of one fixed width, and two files get
    the same name exactly when their turns differ by a multiple of
    [sent_count], so a file stays in the sent directory until
    [sent_count] more have been sent. *)
Theorem sent_rotation dir n j k :
  0 < n < 2 ^ 31 ->
  exists cj ck,
    count_after n j 0 = Some cj /\ count_after n k 0 = Some ck
    /\ length (rotate_path dir n cj) = length (rotate_path dir n ck)
    /\ (rotate_path dir n cj = rotate_path dir n ck
        <-> Z.of_nat j mod n = Z.of_nat k mod n).
Proof.
  intros Hn. exists (Z.of_nat j mod n), (Z.of_nat k mod n).
  rewrite !count_after_mod by lia. cbn [Z.add].
  split; [reflexivity|]. split; [reflexivity|].
  pose proof (Z.mod_pos_bound (Z.of_nat j) n ltac:(lia)) as Bj.
  pose proof (Z.mod_pos_bound (Z.of_nat k) n ltac:(lia)) as Bk.
  destruct (rotate_path_fixed dir n _ Hn Bj) as (-> & Lj & H1).
  destruct (rotate_path_fixed dir n _ Hn Bk) as (-> & Lk & _).
  split.
  - rewrite !length_app, !length_fixed. reflexivity.
  - split; [|intros ->; reflexivity].
    intros E. do 2 apply app_inv_head in E.
    pose proof (value_fixed _ _ 0 (conj (proj1 Bj) Lj)) as Vj.
    pose proof (value_fixed _ _ 0 (conj (proj1 Bk) Lk)) as Vk.
    rewrite E in Vj. lia.
Qed.

Lemma sent_rotation_witness :
  exists cj ck,
    count_after 10 3 0 = Some cj /\ count_after 10 13 0 = Some ck
    /\ length (rotate_path ["s"] 10 cj) = length (rotate_path ["s"] 10 ck)
    /\ (rotate_path ["s"] 10 cj = rotate_path ["s"] 10 ck
        <-> Z.of_nat 3 mod 10 = Z.of_nat 13 mod 10).
Proof. exact (sent_rotation ["s"] 10 3 13 ltac:(lia)). Defined.

End ClientFinishFacts.

(* ===================================================================== *)
(** * Facts about wmo.c: debug_buf                                        *)
(* ===================================================================== *)

Module WmoDebugFacts.
Import Share Wmo.
Import Samples.

Lemma debug_char_not_nul c : Ascii.eqb (debug_char c) "000" = false.
Proof.
  destruct c as [[|] [|] [|] [|] [|] [|] [|] [|]]; reflexivity.
Qed.

Lemma c_str_app_clean l r :
  Forall (fun c => Ascii.eqb c "000" = false) l ->
  c_str (l ++ r) = l ++ c_str r.
Proof.
  induction 1 as [|c l Hc _ IH]; [reflexivity|].
  cbn [app c_str]. rewrite Hc, IH. reflexivity.
Qed.

(** X23.  [debug_buf] stores the printable form of the bytes and no
    final NUL: what a caller prints with "%s" is that form followed by
    whatever an earlier call left behind it in the static array. *)
Theorem debug_buf_string outbuf buf buflen out :
  0 <= buflen < 100 -> length outbuf = 100%nat ->
  debug_buf outbuf buf buflen = Some out ->
  length out = 100%nat
  /\ c_str out
     = map debug_char (take (Z.to_nat buflen) buf)
         ++ c_str (drop (Z.to_nat buflen) outbuf).
Proof.
  intros Hb Ho. unfold debug_buf.
  destruct (Z.gtb_spec buflen 100) as [|_]; [lia|].
  destruct (Nat.leb_spec (Z.to_nat buflen) (length buf)) as [Hl|];
    [|discriminate].
  intros [= <-]. split.
  - rewrite length_app, length_map, length_take, length_drop. lia.
  - apply c_str_app_clean. apply Forall_forall. intros c Hc.
    apply list_elem_of_In, in_map_iff in Hc as (x & <- & _).
    apply debug_char_not_nul.
Qed.

Lemma debug_buf_string_witness :
  length (["a"; "*"] ++ drop 2 fresh_outbuf) = 100%nat
  /\ c_str (["a"; "*"] ++ drop 2 fresh_outbuf)
     = map debug_char (take (Z.to_nat 2) ["a"; CR])
         ++ c_str (drop (Z.to_nat 2) fresh_outbuf).
Proof.
  exact (debug_buf_string fresh_outbuf ["a"; CR] 2 _ ltac:(lia) eq_refl
           eq_refl).
Defined.

End WmoDebugFacts.

(* ===================================================================== *)
(** * Facts about share.c: my_copy                                        *)
(* ===================================================================== *)

Module ShareCopyFacts.
Import Share ServBlock ShareCopy ServBlockFacts.
Import Samples.

Lemma io_count_bytes avail count :
  0 <= count < 2 ^ 64 ->
  io_count (IoBytes avail) count = Z.min (Z.of_N avail) count.
Proof. intros H. unfold io_count. apply to_size_small. lia. Qed.

Lemma copy_loop_full rs : forall ws writelen copied,
  Forall (fun r => (0 < r)%N) rs ->
  Forall (fun w => COPY_BUFSIZE <= Z.of_N w) ws ->
  (length rs <= length ws)%nat -> 0 <= writelen <= COPY_BUFSIZE ->
  exists wl,
    copy_loop (map IoBytes rs ++ [IoBytes 0]) (map IoBytes ws) writelen copied
    = Some (0, wl, copied + bytes_read rs)
    /\ 0 <= wl <= COPY_BUFSIZE.
Proof.
  unfold COPY_BUFSIZE.
  induction rs as [|r rs IH]; intros ws writelen copied Hr Hw Hl Hwl;
    cbn [map app copy_loop bytes_read fold_right].
  - exists writelen. rewrite io_count_bytes by (unfold COPY_BUFSIZE; lia).
    unfold COPY_BUFSIZE. change (Z.min (Z.of_N 0) 8192) with 0.
    cbn. split; [f_equal; f_equal; lia|lia].
  - apply Forall_cons in Hr as [Hr0 Hr].
    destruct ws as [|w ws]; [cbn [length] in Hl; lia|].
    apply Forall_cons in Hw as [Hw0 Hw].
    rewrite io_count_bytes by (unfold COPY_BUFSIZE; lia).
    unfold COPY_BUFSIZE in *.
    set (n := Z.min (Z.of_N r) 8192).
    assert (Hn : 0 < n <= 8192) by (subst n; lia).
    destruct (Z.gtb_spec n 0); [|lia].
    destruct (Z.gtb_spec n 8192); [lia|].
    cbn [map]. rewrite io_count_bytes by lia.
    replace (Z.min (Z.of_N w) n) with n by lia.
    rewrite Z.eqb_refl. cbn [negb].
    destruct (IH ws n (copied + n) Hr Hw) as (wl & E & B);
      [cbn [length] in Hl; lia|lia|].
    exists wl. split; [|exact B].
    rewrite E. unfold bytes_read, COPY_BUFSIZE. subst n.
    f_equal. f_equal. lia.
Qed.

(** X25.  When both files open, every [read] brings data until the end
    of the source and every [write] takes what it is given, [my_copy]
    returns 0 and the target holds every byte read. *)
Theorem my_copy_complete ENOENT e target rs ws :
  files_open ENOENT e target = true ->
  copy_reads e = map IoBytes rs ++ [IoBytes 0] ->
  copy_writes e = map IoBytes ws ->
  Forall (fun r => (0 < r)%N) rs ->
  Forall (fun w => COPY_BUFSIZE <= Z.of_N w) ws ->
  (length rs <= length ws)%nat ->
  my_copy ENOENT e target = Some (0, bytes_read rs, false).
Proof.
  intros Ho Er Ew Hr Hw Hl. unfold my_copy. rewrite Ho, Er, Ew. cbn [negb].
  destruct (copy_loop_full rs ws 0 0 Hr Hw Hl) as (wl & -> & B);
    [unfold COPY_BUFSIZE; lia|].
  unfold COPY_BUFSIZE in B.
  change (0 =? SIZE_T_MINUS_1) with false. cbn [orb].
  unfold SIZE_T_MINUS_1, to_size_t. change ((-1) mod 2 ^ 64) with (2 ^ 64 - 1).
  destruct (Z.eqb_spec wl (2 ^ 64 - 1)); [lia|].
  rewrite Z.add_0_l. reflexivity.
Qed.

Lemma my_copy_complete_witness :
  my_copy 2 copy_all ["t"] = Some (0, bytes_read [10%N], false).
Proof.
  exact (my_copy_complete 2 copy_all ["t"] [10%N] [8192%N] eq_refl eq_refl
           eq_refl ltac:(repeat constructor) ltac:(repeat constructor; vm_compute; discriminate)
           ltac:(simpl; lia)).
Defined.

Lemma first_write ENOENT e target r :
  files_open ENOENT e target = true -> (0 < r)%N ->
  forall reads w writes,
    copy_reads e = IoBytes r :: reads ->
    copy_writes e = w :: writes ->
    let n := Z.min (Z.of_N r) COPY_BUFSIZE in
    negb (io_count w n =? n) = true ->
    my_copy ENOENT e target
    = Some (if (n =? SIZE_T_MINUS_1) || (io_count w n =? SIZE_T_MINUS_1)
            then (-1, 0, true) else (0, io_count w n, false)).
Proof.
  intros Ho Hr reads w writes Er Ew n Hne.
  unfold my_copy. rewrite Ho, Er, Ew. cbn [negb copy_loop].
  rewrite io_count_bytes by (unfold COPY_BUFSIZE; lia).
  fold n.
  assert (Hn : 0 < n <= 8192) by (subst n; unfold COPY_BUFSIZE; lia).
  destruct (Z.gtb_spec n 0); [|lia].
  unfold COPY_BUFSIZE at 1. destruct (Z.gtb_spec n 8192); [lia|].
  rewrite Hne.
  assert (Em : SIZE_T_MINUS_1 = 2 ^ 64 - 1) by reflexivity.
  destruct (Z.eqb_spec n SIZE_T_MINUS_1) as [En|En]; [lia|]. cbn [orb].
  destruct (io_count w n =? SIZE_T_MINUS_1); [reflexivity|].
  rewrite Z.add_0_l. reflexivity.
Qed.

(** X26.  A [write] that takes fewer bytes than it was given ends the
    copy, and [my_copy] still returns 0: the target then holds fewer
    bytes than were read.  [my_rename], which copies when [rename] fails
    with [EXDEV], goes on to remove the source and returns 0 too. *)
Theorem my_copy_short_write ENOENT EXDEV e renv target r avail reads writes :
  files_open ENOENT e target = true ->
  copy_reads e = IoBytes r :: reads ->
  copy_writes e = IoBytes avail :: writes ->
  Z.of_N avail < Z.min (Z.of_N r) COPY_BUFSIZE ->
  EXDEV <> 0 -> rename_errno renv 0%nat = Some EXDEV ->
  option_map (fun res => fst (fst res)) (my_copy ENOENT e target)
  = Some (my_copy_rc renv) ->
  my_copy ENOENT e target = Some (0, Z.of_N avail, false)
  /\ my_rename ENOENT EXDEV renv target 1
     = Some (0, [CallRename; CallCopy; CallUnlink]).
Proof.
  intros Ho Er Ew Hshort Hx Hre Hrc.
  assert (Hr : (0 < r)%N) by (unfold COPY_BUFSIZE in Hshort; lia).
  assert (Ec : io_count (IoBytes avail) (Z.min (Z.of_N r) COPY_BUFSIZE)
               = Z.of_N avail).
  { rewrite io_count_bytes by (unfold COPY_BUFSIZE; lia). lia. }
  assert (Em : SIZE_T_MINUS_1 = 2 ^ 64 - 1) by reflexivity.
  assert (E : my_copy ENOENT e target = Some (0, Z.of_N avail, false)).
  { rewrite (first_write ENOENT e target r Ho Hr reads _ writes Er Ew).
    - rewrite Ec.
      destruct (Z.eqb_spec (Z.min (Z.of_N r) COPY_BUFSIZE) SIZE_T_MINUS_1);
        [unfold COPY_BUFSIZE in *; lia|].
      destruct (Z.eqb_spec (Z.of_N avail) SIZE_T_MINUS_1);
        [unfold COPY_BUFSIZE in *; lia|].
      reflexivity.
    - rewrite Ec. apply negb_true_iff, Z.eqb_neq. lia. }
  split; [exact E|].
  rewrite E in Hrc. cbn in Hrc. injection Hrc as Hrc.
  unfold my_rename. cbn [my_rename_loop app]. rewrite Hre.
  destruct (Z.eqb_spec EXDEV 0); [contradiction|].
  rewrite Z.eqb_refl, <- Hrc. reflexivity.
Qed.

Lemma my_copy_short_write_witness :
  my_copy 2 copy_short ["t"] = Some (0, Z.of_N 4, false)
  /\ my_rename 2 18 other_device ["t"] 1
     = Some (0, [CallRename; CallCopy; CallUnlink]).
Proof.
  exact (my_copy_short_write 2 18 copy_short other_device ["t"] 10 4 [] []
           eq_refl eq_refl eq_refl ltac:(vm_compute; reflexivity)
           ltac:(lia) eq_refl eq_refl).
Defined.

(** X29.  A first [write] that returns -1 makes [my_copy] remove the
    target again and return -1. *)
Theorem my_copy_write_error ENOENT e target r w reads writes :
  files_open ENOENT e target = true ->
  copy_reads e = IoBytes r :: reads -> (0 < r)%N ->
  copy_writes e = w :: writes -> (forall avail, w <> IoBytes avail) ->
  my_copy ENOENT e target = Some (-1, 0, true).
Proof.
  intros Ho Er Hr Ew Hw.
  assert (Ec : forall n, io_count w n = SIZE_T_MINUS_1)
    by (intros n; destruct w; [exfalso; eapply Hw; reflexivity|reflexivity..]).
  assert (Em : SIZE_T_MINUS_1 = 2 ^ 64 - 1) by reflexivity.
  rewrite (first_write ENOENT e target r Ho Hr reads _ writes Er Ew).
  - rewrite Ec, Z.eqb_refl, orb_true_r. reflexivity.
  - rewrite Ec. apply negb_true_iff, Z.eqb_neq. unfold COPY_BUFSIZE. lia.
Qed.

Lemma my_copy_write_error_witness :
  my_copy 2 copy_nospace ["t"] = Some (-1, 0, true).
Proof.
  exact (my_copy_write_error 2 copy_nospace ["t"] 10 IoENOSPC [] [] eq_refl
           eq_refl ltac:(lia) eq_refl ltac:(intros avail; discriminate)).
Defined.

End ShareCopyFacts.

(* ===================================================================== *)
(** * Facts about the flags of the output file                            *)
(* ===================================================================== *)

Module ServOpenFacts.
Import Share ServOpen.

Lemma land_bit f k :
  0 <= k -> Z.land f (2 ^ k) = if Z.testbit f k then 2 ^ k else 0.
Proof.
  intros Hk. apply Z.bits_inj'. intros n Hn.
  rewrite Z.land_spec, Z.pow2_bits_eqb by exact Hk.
  destruct (Z.eqb_spec k n) as [->|Hne].
  - destruct (Z.testbit f n) eqn:E; cbn [andb].
    + rewrite Z.pow2_bits_true by exact Hn. reflexivity.
    + rewrite Z.bits_0. reflexivity.
  - rewrite andb_false_r. destruct (Z.testbit f k).
    + rewrite Z.pow2_bits_false by (intros ->; contradiction). reflexivity.
    + rewrite Z.bits_0. reflexivity.
Qed.

Lemma outfile_flags_bits (opts : list flag_opt) :
  forall fl0,
    let fl := fold_left
                (fun fl o =>
                   match o with
                   | OptO => Z.lor fl OVER_WRITE_FLAG
                   | OptP => Z.lor fl TOGGLE_PERMS_FLAG
                   end) opts fl0 in
    (Z.testbit fl0 0 = true -> Z.testbit fl 0 = true)
    /\ (Z.testbit fl 1 = true <-> Z.testbit fl0 1 = true \/ In OptP opts).
Proof.
  induction opts as [|o opts IH]; intros fl0; cbn [fold_left In].
  - split; [auto|tauto].
  - destruct (IH (match o with
                  | OptO => Z.lor fl0 OVER_WRITE_FLAG
                  | OptP => Z.lor fl0 TOGGLE_PERMS_FLAG
                  end)) as [I0 I1].
    split.
    + intros H0. apply I0. destruct o; rewrite Z.lor_spec, H0; reflexivity.
    + rewrite I1. destruct o; rewrite Z.lor_spec.
      * change (Z.testbit OVER_WRITE_FLAG 1) with false.
        rewrite orb_false_r. split; [intros [?|?]; auto|].
        intros [?|[?|?]]; [auto|discriminate|auto].
      * change (Z.testbit TOGGLE_PERMS_FLAG 1) with true.
        rewrite orb_true_r. split; [auto|]. intros _. left. reflexivity.
Qed.

(** X27.  [process_args] starts [outfile_flags] from the flags of
    [open], [O_WRONLY|O_CREAT|O_EXCL], and [open_out_file] tests its bit
    [OVER_WRITE_FLAG]: where [O_WRONLY] is 1 that bit is always set.  So
    with or without [-O] the output file is opened with [O_TRUNC], never
    with [O_EXCL]; the permissions are toggled exactly when [-P] is
    given (as long as no flag of [open] has the value 2 in it). *)
Theorem overwrite_always O_WRONLY O_CREAT O_EXCL O_TRUNC opts :
  Z.testbit O_WRONLY 0 = true ->
  Z.testbit (Z.lor (Z.lor O_WRONLY O_CREAT) O_EXCL) 1 = false ->
  open_args O_WRONLY O_CREAT O_EXCL O_TRUNC
    (outfile_flags O_WRONLY O_CREAT O_EXCL opts)
  = (Z.lor (Z.lor O_WRONLY O_CREAT) O_TRUNC,
     if existsb (fun o => match o with OptP => true | OptO => false end) opts
     then S_IWUSR else DFLT_FILE_PERMS).
Proof.
  intros Hw Hb1. unfold open_args, outfile_flags.
  destruct (outfile_flags_bits opts
              (Z.lor (Z.lor O_WRONLY O_CREAT) O_EXCL)) as [B0 B1].
  cbv zeta in B0, B1.
  set (fl := fold_left _ opts _) in *.
  assert (E0 : Z.testbit fl 0 = true).
  { apply B0. rewrite !Z.lor_spec, Hw. reflexivity. }
  change OVER_WRITE_FLAG with (2 ^ 0). change TOGGLE_PERMS_FLAG with (2 ^ 1).
  rewrite !land_bit by lia. rewrite E0.
  change (negb (2 ^ 0 =? 0)) with true. cbv iota. f_equal.
  assert (Ex : existsb (fun o => match o with OptP => true | OptO => false end)
                 opts = true <-> In OptP opts).
  { rewrite existsb_exists. split.
    - intros (o & Ho & E). destruct o; [discriminate|exact Ho].
    - intros H. exists OptP. auto. }
  destruct (Z.testbit fl 1) eqn:E1.
  - change (negb (2 ^ 1 =? 0)) with true. cbv iota.
    destruct (proj1 B1 eq_refl) as [H|H]; [congruence|].
    apply Ex in H. rewrite H. reflexivity.
  - change (negb (0 =? 0)) with false. cbv iota.
    destruct (existsb _ opts); [|reflexivity].
    assert (false = true) as Hft by (apply B1; right; apply Ex; reflexivity).
    discriminate Hft.
Qed.

Lemma overwrite_always_witness :
  open_args 1 64 128 512 (outfile_flags 1 64 128 [])
  = (Z.lor (Z.lor 1 64) 512,
     if existsb (fun o => match o with OptP => true | OptO => false end) []
     then S_IWUSR else DFLT_FILE_PERMS).
Proof. exact (overwrite_always 1 64 128 512 [] eq_refl eq_refl). Defined.

End ServOpenFacts.

(* ===================================================================== *)
(** * Facts about serv_recv.c: recv_prod                                  *)
(* ===================================================================== *)

Module ServProdFacts.
Import Share ClientSend ServBlock ServProd ServBlockFacts.
Import Samples.

Lemma recv_prod_end_sync e size v :
  0 < size -> loop_keeps e size v -> bytes_left v <= 0 ->
  in_sync e size (recv_prod_end e v).
Proof.
  intros Hs (H0 & Hc0 & Hc & _ & Hlt) Hb.
  assert (bytes_left v = 0) as Eb by lia.
  destruct (Hlt ltac:(lia)) as [Hop Hcl].
  unfold recv_prod_end, in_sync.
  destruct (Z.geb_spec (out_fd v) 0) as [Hfd|Hfd].
  - destruct (Hop Hfd) as (Hw & Ha & Ho).
    destruct (pe_toggle e && (pe_chmod_rc e <? 0));
      [cbn; repeat split; try lia; try auto; discriminate|].
    destruct (Z.ltb_spec (pe_finish_rc e) 0);
      [cbn; repeat split; try lia; try auto; discriminate|].
    destruct (Z.gtb_spec (pe_finish_rc e) 0);
      [cbn; repeat split; try lia; try auto; discriminate|].
    cbn. repeat split; try lia; auto.
  - rewrite (Hcl Hfd). cbn. repeat split; try lia; try auto; discriminate.
Qed.

Lemma recv_prod_loop_sync e size bufsiz :
  0 < size < 2 ^ 31 -> 0 < bufsiz -> pe_conn e = None ->
  forall ins v r,
    Forall block_answer ins -> loop_keeps e size v ->
    recv_prod_loop e size bufsiz ins v = Some r -> 0 <= pr_rc r ->
    in_sync e size r.
Proof.
  intros Hs Hbuf Hconn.
  induction ins as [|b ins IH]; intros v r Hans Hk; cbn [recv_prod_loop];
    destruct (Z.gtb_spec (bytes_left v) 0) as [Hb|Hb];
    try discriminate;
    try (intros [= <-] _; apply recv_prod_end_sync; [lia|exact Hk|exact Hb]).
  apply Forall_cons in Hans as [Hb0 Hans].
  pose proof Hk as (H0 & Hc0 & Hc & Hfirst & Hlater).
  assert (Hbl : bytes_left v <= size) by lia.
  rewrite (to_size_small (bytes_left v)) by lia.
  set (recvsiz := MIN (bytes_left v) bufsiz).
  assert (Hr : 0 < recvsiz <= bytes_left v)
    by (subst recvsiz; unfold MIN; destruct (Z.ltb_spec bufsiz (bytes_left v)); lia).
  specialize (Hb0 (minsiz v) recvsiz ltac:(lia)).
  set (n := bk_recv b (minsiz v) recvsiz) in *.
  destruct (Z.ltb_spec n 0) as [Hn|Hn]; [intros [= <-]; cbn; lia|].
  destruct (Z.eqb_spec n 0) as [Hz|Hz]; [apply IH; assumption|].
  assert (Hpos : 0 < n <= recvsiz) by lia.
  assert (Eint : to_int (bytes_left v - n) = bytes_left v - n)
    by (apply to_int_small; lia).
  destruct (Z.eqb_spec (bytes_left v) size) as [Ef|Ef].
  - (* the first block *)
    rewrite Hconn. destruct (Hfirst Ef) as (Efd & Eack & Ew & Ea).
    cbn [out_fd bytes_left minsiz ack_code consumed written aborted].
    destruct (Z.ltb_spec (pe_open_rc e) 0) as [Ho|Ho].
    + (* the file does not open: discard *)
      cbn [out_fd bytes_left minsiz ack_code consumed written aborted].
      rewrite Eint. apply IH; [exact Hans|].
      unfold loop_keeps.
      cbn [out_fd bytes_left minsiz ack_code consumed written aborted].
      repeat split; try lia; intros; lia.
    + destruct (Z.ltb_spec (bk_write b n) n) as [Hwr|Hwr];
        cbn [out_fd bytes_left minsiz ack_code consumed written aborted];
        rewrite Eint; (apply IH; [exact Hans|]); unfold loop_keeps;
        cbn [out_fd bytes_left minsiz ack_code consumed written aborted];
        repeat split; try lia; try (intros; lia); auto.
  - (* a later block *)
    assert (Hlt : bytes_left v < size) by lia.
    destruct (Hlater Hlt) as [Hop Hcl].
    destruct (Z.ltb_spec (out_fd v) 0) as [Ho|Ho].
    + rewrite Eint. apply IH; [exact Hans|].
      unfold loop_keeps.
      cbn [out_fd bytes_left minsiz ack_code consumed written aborted].
      repeat split; try lia; try (intros; lia). intros _. exact (Hcl Ho).
    + destruct (Hop Ho) as (Hw & Ha & Hopen).
      destruct (Z.ltb_spec (bk_write b n) n) as [Hwr|Hwr];
        cbn [out_fd bytes_left minsiz ack_code consumed written aborted];
        rewrite Eint; (apply IH; [exact Hans|]); unfold loop_keeps;
        cbn [out_fd bytes_left minsiz ack_code consumed written aborted];
        repeat split; try lia; try (intros; lia); auto.
Qed.

(** X28.  A call of [recv_prod] for a product that is no connection
    message returns 0 only when it has taken exactly [size] bytes off the
    socket and given [send_ack] one of the three codes - also when the
    file could not be opened or written, so the next header is read where
    it starts.  The code is K only if the file was opened, every byte was
    written to it, it was not removed and [finish_recv] returned 0. *)
Theorem recv_prod_in_sync e size bufsiz ins r :
  0 < size < 2 ^ 31 -> 0 < bufsiz -> pe_conn e = None ->
  Forall block_answer ins ->
  recv_prod e size bufsiz ins = Some r -> 0 <= pr_rc r ->
  pr_consumed r = size
  /\ (pr_ack r = Some (Some ACK_OK) \/ pr_ack r = Some (Some ACK_RETRY)
      \/ pr_ack r = Some (Some ACK_FAIL))
  /\ (pr_ack r = Some (Some ACK_OK) ->
      pr_written r = size /\ pr_aborted r = false
      /\ pe_finish_rc e = 0 /\ 0 <= pe_open_rc e).
Proof.
  intros Hs Hbuf Hconn Hans H Hrc.
  unfold recv_prod in H.
  eapply (recv_prod_loop_sync e size bufsiz Hs Hbuf Hconn ins);
    [exact Hans| |exact H|exact Hrc].
  unfold loop_keeps.
  cbn [out_fd bytes_left minsiz ack_code consumed written aborted].
  rewrite to_int_small by lia. repeat split; try lia; intros; lia.
Qed.

Lemma recv_prod_in_sync_witness :
  pr_consumed well_done = 3
  /\ (pr_ack well_done = Some (Some ACK_OK)
      \/ pr_ack well_done = Some (Some ACK_RETRY)
      \/ pr_ack well_done = Some (Some ACK_FAIL))
  /\ (pr_ack well_done = Some (Some ACK_OK) ->
      pr_written well_done = 3 /\ pr_aborted well_done = false
      /\ pe_finish_rc all_well = 0 /\ 0 <= pe_open_rc all_well).
Proof.
  exact (recv_prod_in_sync all_well 3 1024 [whole_block] well_done
           ltac:(lia) ltac:(lia) eq_refl
           ltac:(constructor;
                 [intros minsiz maxsiz Hm; right; right; simpl; lia
                 |constructor])
           eq_refl ltac:(vm_compute; discriminate)).
Defined.

End ServProdFacts.
